(** * AM/FM Monte Carlo engine: a shallow embedding of the Go sources

    The Go program works on [float64] slices.  A [float64] is an IEEE 754
    binary64 number, which is exactly Rocq's primitive [float]; the arithmetic
    below therefore rounds, overflows and produces NaN the way the program
    does, each operation rounded on its own (no fused multiply-add, as on
    amd64).  Go's [int] is modelled by [Z] (the integers that occur are slice
    lengths, loop counters and seeds; the wrap-around of a seed is written
    out), slices by lists, run-time panics by an explicit outcome type.
    Printing and the allocation limits of the Go runtime are not modelled.

    The functions of Go's [math] and [math/rand] packages that the program
    calls ([math.Sin], [math.Log10], [math.Pow], [math.Cos], the normal
    generators) are not part of the repository: they are interfaces
    ([MathLib], [TrigLib], [RandSource], [DefaultSource]) over which the
    development is parametrised. *)

From Stdlib Require Import ZArith List Bool Lia Floats String Permutation.
From stdpp Require Import base list.
Import ListNotations.

Local Open Scope Z_scope.

(** ** Outcomes of a Go computation *)

(** The ways a call can fail to return: the two run-time panics that the
    program can raise, and a float-to-int conversion whose result the Go
    specification leaves to the implementation. *)
Inductive abort : Type :=
  | PanicMakesliceLen      (* panic: runtime error: makeslice: len out of range *)
  | PanicIndexOutOfRange   (* panic: runtime error: index out of range *)
  | ConversionUndefined.   (* int(f) for f NaN, infinite or outside int64 *)

Inductive outcome (A : Type) : Type :=
  | Done (a : A)
  | Abort (e : abort).
Arguments Done {A} a.
Arguments Abort {A} e.

#[global] Instance outcome_ret : MRet outcome := fun A a => Done a.
#[global] Instance outcome_bind : MBind outcome := fun A B k m =>
  match m with
  | Done a => k a
  | Abort e => Abort e
  end.

(** ** float64 and int *)

Module F64.

(** [math.Pi] and the constant [2*math.Pi], both rounded to binary64 (the
    Go compiler folds [2*math.Pi] exactly and rounds once; doubling is
    exact, so the result is twice the rounded pi). *)
Definition Pi : float := 0x1.921fb54442d18p+1%float.
Definition twoPi : float := 0x1.921fb54442d18p+2%float.

(** The literal [1e-10] of [demodulateFM], rounded to binary64. *)
Definition threshold : float := 0x1.b7cdfd9d7bdbbp-34%float.

(** [float64(i)] for an [int] [i] (exact below 2^53, rounded above).  The
    magnitude of the least [int], -2^63, is not a 63-bit number; its
    conversion, the exact power of two, is written out. *)
Definition of_int (z : Z) : float :=
  if z <? 0 then
    (if z =? - 2 ^ 63 then (- 0x1p+63)%float
     else (- of_uint63 (Uint63.of_Z (- z)))%float)
  else of_uint63 (Uint63.of_Z z).

(** The integer part of a finite float, rounded toward zero. *)
Definition trunc (f : float) : option Z :=
  match Prim2SF f with
  | S754_zero _ => Some 0
  | S754_finite s m e =>
      let mag := if 0 <=? e then Z.shiftl (Zpos m) e
                 else Z.shiftr (Zpos m) (- e) in
      Some (if s then - mag else mag)
  | _ => None
  end.

(** The integer part of a finite float, rounded toward minus infinity (the
    mathematical floor). *)
Definition floor (f : float) : option Z :=
  match Prim2SF f with
  | S754_zero _ => Some 0
  | S754_finite s m e =>
      Some (if 0 <=? e then (if s then - Z.shiftl (Zpos m) e else Z.shiftl (Zpos m) e)
            else (if s then Zneg m else Zpos m) / 2 ^ (- e))
  | _ => None
  end.

(** Go's conversion [int(f)]: the fraction is discarded; when the value
    does not fit [int] (64 bits) the result is implementation-specific. *)
Definition to_int (f : float) : option Z :=
  match trunc f with
  | Some z => if (- 2 ^ 63 <=? z) && (z <? 2 ^ 63) then Some z else None
  | None => None
  end.

(** [int64] wrap-around, for [config.Seed + int64(workerID)]. *)
Definition wrap64 (z : Z) : Z := (z + 2 ^ 63) mod 2 ^ 64 - 2 ^ 63.

End F64.

(** ** Data model (main.go, lines 17-32) *)

Record SignalParams : Type := {
  SamplingRate : float;
  Duration : float;
  MessageFreq : float;
  CarrierFreq : float;
  MessageAmp : float;
  CarrierAmp : float;
  ModulationIdx : float
}.

Record Signal : Type := {
  Time : list float;
  Values : list float
}.

(** [make([]float64, n)]: panics on a negative length. *)
Definition make_floats (n : Z) : outcome (list float) :=
  if n <? 0 then Abort PanicMakesliceLen
  else Done (repeat 0%float (Z.to_nat n)).

(** The indices [0 .. n-1] of a slice of length [n], as Go's [int]. *)
Definition indices (n : nat) : list Z := map Z.of_nat (seq 0 n).

(** The integers [lo, lo+1, ..., hi] of [for j := lo; j <= hi; j++]. *)
Definition range (lo hi : Z) : list Z :=
  map (fun k => lo + Z.of_nat k) (seq 0 (Z.to_nat (hi - lo + 1))).

(** Reading [xs[i]] where the program has established [0 <= i < len(xs)]. *)
Definition at_ (xs : list float) (i : Z) : float := nth (Z.to_nat i) xs 0%float.

(** ** Results and configurations (part_000, lines 499-521; main.go,
    lines 999-1007; montecarlo.go, lines 15-31) *)

(** [type ModulationType string] with the two constants the program uses. *)
Definition ModulationType : Type := string.
Definition AM : ModulationType := "AM"%string.
Definition FM : ModulationType := "FM"%string.

Module PerformanceResult.
Record t : Type := {
  InputSNR_dB : float;
  OutputSNR_dB : float;
  StdDev : float;
  ModulationType : ModulationType;
  NumTrials : Z
}.
(** The zero value, as [make([]PerformanceResult, n)] fills a slice. *)
Definition zero : t :=
  {| InputSNR_dB := 0; OutputSNR_dB := 0; StdDev := 0;
     ModulationType := ""%string; NumTrials := 0 |}.
Definition withInputSNR (r : t) (snr : float) : t :=
  {| InputSNR_dB := snr; OutputSNR_dB := OutputSNR_dB r; StdDev := StdDev r;
     ModulationType := ModulationType r; NumTrials := NumTrials r |}.
End PerformanceResult.
Abbreviation PerformanceResult := PerformanceResult.t.

Module MonteCarloConfig.
Record t : Type := {
  NumIterations : Z;
  SNRRange : list float;
  Seed : Z;
  UseParallel : bool;
  NumWorkers : Z;
  ProgressReport : bool;
  SaveDetailed : bool
}.
End MonteCarloConfig.
Abbreviation MonteCarloConfig := MonteCarloConfig.t.

Module SimulationConfig.
Record t : Type := {
  Seed : Z;
  NumTrials : Z;
  NumWorkers : Z;
  SNRRange : list float;
  UseParallel : bool;
  PrintProgress : bool
}.
End SimulationConfig.
Abbreviation SimulationConfig := SimulationConfig.t.

Module SimulationStats.
Record t : Type := {
  Duration : Z;               (* time.Duration, in nanoseconds *)
  TrialsPerSecond : float;
  TotalTrials : Z;
  WorkersUsed : Z;
  MemoryUsed : Z              (* uint64 *)
}.
Definition zero : t :=
  {| Duration := 0; TrialsPerSecond := 0; TotalTrials := 0;
     WorkersUsed := 0; MemoryUsed := 0 |}.
End SimulationStats.
Abbreviation SimulationStats := SimulationStats.t.

(** ** The libraries the program calls *)

(** Go's [math] package: the three functions the program uses. *)
Class MathLib : Type := {
  Sin : float -> float;
  Log10 : float -> float;
  Pow : float -> float -> float
}.

(** A [*rand.Rand] of [math/rand]: [NewSource seed] is the state of
    [rand.New(rand.NewSource(seed))], and [NormFloat64] draws one standard
    normal sample and advances the state. *)
Class RandSource : Type := {
  rng : Type;
  NewSource : Z -> rng;
  NormFloat64 : rng -> float * rng
}.

(** The process-wide default generator that [distuv.Normal.Rand] with a nil
    [Src] draws from.  [defaultSeed seed] is what a call of [rand.Seed seed]
    of [math/rand] does to it: a re-seeding where the two packages share the
    generator, nothing where they do not. *)
Class DefaultSource : Type := {
  dstate : Type;
  defaultSeed : Z -> dstate -> dstate;
  defaultNormFloat64 : dstate -> float * dstate
}.

Section Engine.

Context {math : MathLib} {rand : RandSource} {dflt : DefaultSource}.

(** ** Phase 1: waveform generators (main.go, lines 36-111) *)

Definition generateTimeVector (params : SignalParams) : outcome (list float) :=
  match F64.to_int (SamplingRate params * Duration params) with
  | None => Abort ConversionUndefined
  | Some numSamples =>
      time ← make_floats numSamples;
      let dt := (1 / SamplingRate params)%float in
      Done (map (fun i => (F64.of_int i * dt)%float) (indices (length time)))
  end.

Definition generateBaseband (params : SignalParams) : outcome Signal :=
  time ← generateTimeVector params;
  Done {| Time := time;
          Values := map (fun t =>
            (MessageAmp params * Sin (F64.twoPi * MessageFreq params * t))%float) time |}.

Definition generateCarrier (params : SignalParams) : outcome Signal :=
  time ← generateTimeVector params;
  Done {| Time := time;
          Values := map (fun t =>
            (CarrierAmp params * Sin (F64.twoPi * CarrierFreq params * t))%float) time |}.

Definition generateAM (params : SignalParams) : outcome Signal :=
  time ← generateTimeVector params;
  Done {| Time := time;
          Values := map (fun t =>
            let message := (MessageAmp params * Sin (F64.twoPi * MessageFreq params * t))%float in
            (CarrierAmp params * (1 + ModulationIdx params * message)
             * Sin (F64.twoPi * CarrierFreq params * t))%float) time |}.

(** The loop of [generateFM]: [integral] is the running trapezoidal sum and
    [prev] the timestamp [time[i-1]] ([None] at [i = 0]). *)
Fixpoint fmLoop (params : SignalParams) (dt integral : float)
    (prev : option float) (time : list float) : list float :=
  match time with
  | [] => []
  | t :: rest =>
      let message := (MessageAmp params * Sin (F64.twoPi * MessageFreq params * t))%float in
      let integral' :=
        match prev with
        | None => integral
        | Some tp =>
            let prevMessage :=
              (MessageAmp params * Sin (F64.twoPi * MessageFreq params * tp))%float in
            (integral + (message + prevMessage) * dt / 2)%float
        end in
      let instantaneousPhase :=
        (F64.twoPi * CarrierFreq params * t + ModulationIdx params * integral')%float in
      (CarrierAmp params * Sin instantaneousPhase)%float
        :: fmLoop params dt integral' (Some t) rest
  end.

Definition generateFM (params : SignalParams) : outcome Signal :=
  time ← generateTimeVector params;
  let dt := (1 / SamplingRate params)%float in
  Done {| Time := time; Values := fmLoop params dt 0%float None time |}.

(** ** Phase 2: noise model (main.go, lines 115-147 and 1252-1282) *)

(** The signal-power loop shared by the injectors: the running sum of
    squares, then [signalPower /= float64(len(signal.Values))]. *)
Definition signalPowerOf (values : list float) : float :=
  (fold_left (fun acc val => acc + val * val) values 0
   / F64.of_int (Z.of_nat (length values)))%float.

(** [noiseStdDev] as both injectors compute it. *)
Definition noiseStdDevOf (values : list float) (snrDB : float) : float :=
  let signalPower := signalPowerOf values in
  let snrLinear := Pow 10 (snrDB / 10) in
  let noiseVariance := (signalPower / snrLinear)%float in
  sqrt noiseVariance.

(** [distuv.Normal{Mu: 0, Sigma: sigma}.Rand()] with a nil source, as gonum
    defines it: [rnd*Sigma + Mu] with [rnd] a draw of the default generator. *)
Definition Normal_Rand (sigma : float) (g : dstate) : float * dstate :=
  let (rnd, g') := defaultNormFloat64 g in ((rnd * sigma + 0)%float, g').

Fixpoint addAWGN_loop (noiseStdDev : float) (values : list float) (g : dstate)
    : list float * dstate :=
  match values with
  | [] => ([], g)
  | val :: rest =>
      let (noise, g1) := Normal_Rand noiseStdDev g in
      let (out, g2) := addAWGN_loop noiseStdDev rest g1 in
      ((val + noise)%float :: out, g2)
  end.

Definition addAWGN (signal : Signal) (snrDB : float) (g : dstate) : Signal * dstate :=
  let noiseStdDev := noiseStdDevOf (Values signal) snrDB in
  let (values, g') := addAWGN_loop noiseStdDev (Values signal) g in
  ({| Time := Time signal; Values := values |}, g').

Fixpoint addAWGNWithRNG_loop (noiseStdDev : float) (values : list float) (r : rng)
    : list float * rng :=
  match values with
  | [] => ([], r)
  | val :: rest =>
      let (z, r1) := NormFloat64 r in
      let noise := (z * noiseStdDev)%float in
      let (out, r2) := addAWGNWithRNG_loop noiseStdDev rest r1 in
      ((val + noise)%float :: out, r2)
  end.

Definition addAWGNWithRNG (signal : Signal) (snrDB : float) (r : rng) : Signal * rng :=
  let noiseStdDev := noiseStdDevOf (Values signal) snrDB in
  let (values, r') := addAWGNWithRNG_loop noiseStdDev (Values signal) r in
  ({| Time := Time signal; Values := values |}, r').

(** ** Phase 3: demodulation (main.go, lines 151-269) *)

Definition windowSize : Z := 20.

(** One output sample of the moving-average filter that both demodulators
    apply: the window [i - windowSize/2 .. i + windowSize/2], clamped to the
    slice, is summed and divided by the number of samples summed. *)
Definition movingAverageAt (xs : list float) (i : Z) : float :=
  let start := i - windowSize / 2 in
  let end_ := i + windowSize / 2 in
  let start := if start <? 0 then 0 else start in
  let end_ := if end_ >=? Z.of_nat (length xs) then Z.of_nat (length xs) - 1 else end_ in
  let '(sum, count) :=
    fold_left (fun '(sum, count) j => ((sum + at_ xs j)%float, count + 1))
              (range start end_) (0%float, 0) in
  (sum / F64.of_int count)%float.

Definition demodulateAM (signal : Signal) : Signal :=
  let rectified := map abs (Values signal) in
  {| Time := Time signal;
     Values := map (movingAverageAt rectified) (indices (length (Values signal))) |}.

(** [quadSignal]: the input delayed by one sample.  The assignment
    [quadSignal[0] = signal.Values[0]] is not guarded: on an empty input it
    indexes an empty slice. *)
Definition quadSignalOf (values : list float) : outcome (list float) :=
  match values with
  | [] => Abort PanicIndexOutOfRange
  | v0 :: _ =>
      Done (map (fun i => if i =? 0 then v0 else at_ values (i - 1))
                (indices (length values)))
  end.

(** The body of the discriminator loop at an index [i >= 1]. *)
Definition discriminatorAt (params : SignalParams) (dt : float)
    (values quadSignal : list float) (i : Z) : float :=
  let I_curr := at_ values i in
  let Q_curr := at_ quadSignal i in
  let I_prev := at_ values (i - 1) in
  let Q_prev := at_ quadSignal (i - 1) in
  let dI := (I_curr - I_prev)%float in
  let dQ := (Q_curr - Q_prev)%float in
  let numerator := (I_curr * dQ - Q_curr * dI)%float in
  let denominator := (I_curr * I_curr + Q_curr * Q_curr)%float in
  if (F64.threshold <? denominator)%float then
    let instantFreq := (numerator / (F64.twoPi * dt * denominator))%float in
    (instantFreq / ModulationIdx params)%float
  else 0%float.

(** [demodulated.Values] after the discriminator loop and the assignment
    [demodulated.Values[0] = 0.0], before the smoothing pass. *)
Definition discriminatorOutput (params : SignalParams)
    (values quadSignal : list float) : list float :=
  let dt := (1 / SamplingRate params)%float in
  map (fun i => if i =? 0 then 0%float
                else discriminatorAt params dt values quadSignal i)
      (indices (length values)).

Definition demodulateFM (signal : Signal) (params : SignalParams) : outcome Signal :=
  quadSignal ← quadSignalOf (Values signal);
  let unfiltered := discriminatorOutput params (Values signal) quadSignal in
  let filtered := map (movingAverageAt unfiltered) (indices (length unfiltered)) in
  Done {| Time := Time signal; Values := filtered |}.

(** ** Signal metrics (main.go, lines 273-292 and 1284-1302) *)

(** The loop of [calculateSNR]: it ranges over [original.Values] and reads
    [noisy.Values[i]], which panics when [noisy] is the shorter one. *)
Fixpoint snrLoop (original noisy : list float) (signalPower noisePower : float)
    : outcome (float * float) :=
  match original, noisy with
  | [], _ => Done (signalPower, noisePower)
  | _ :: _, [] => Abort PanicIndexOutOfRange
  | o :: original', c :: noisy' =>
      let noise := (c - o)%float in
      snrLoop original' noisy' (signalPower + o * o)%float (noisePower + noise * noise)%float
  end.

Definition calculateSNR (original noisy : Signal) : outcome float :=
  '(signalPower, noisePower) ← snrLoop (Values original) (Values noisy) 0%float 0%float;
  let n := F64.of_int (Z.of_nat (length (Values original))) in
  let signalPower := (signalPower / n)%float in
  let noisePower := (noisePower / n)%float in
  if (noisePower =? 0)%float then Done infinity
  else Done (10 * Log10 (signalPower / noisePower))%float.

(** [computeInputSNR] (part_000, lines 524-542) repeats the body of
    [calculateSNR]; [computeOutputSNR] calls it. *)
Definition computeInputSNR (cleanSignal noisySignal : Signal) : outcome float :=
  '(signalPower, noisePower) ← snrLoop (Values cleanSignal) (Values noisySignal) 0%float 0%float;
  let n := F64.of_int (Z.of_nat (length (Values cleanSignal))) in
  let signalPower := (signalPower / n)%float in
  let noisePower := (noisePower / n)%float in
  if (noisePower =? 0)%float then Done infinity
  else Done (10 * Log10 (signalPower / noisePower))%float.

Definition computeOutputSNR (originalMessage demodulatedSignal : Signal) : outcome float :=
  calculateSNR originalMessage demodulatedSignal.

Definition calculateMean (values : list float) : float :=
  (fold_left (fun sum val => sum + val) values 0
   / F64.of_int (Z.of_nat (length values)))%float.

Definition calculateStdDev (values : list float) (mean : float) : float :=
  let sumSquares :=
    fold_left (fun sumSquares val => let diff := (val - mean)%float in
                                     (sumSquares + diff * diff)%float) values 0%float in
  let variance := (sumSquares / F64.of_int (Z.of_nat (length values) - 1))%float in
  sqrt variance.

(** ** Trial runner and aggregator (main.go, lines 1203-1250) *)

(** The zero [Signal], the value of a [var ... Signal] that no [case] of a
    [switch] assigns. *)
Definition nilSignal : Signal := {| Time := []; Values := [] |}.

(** One pass of the trial loop of [runSingleSNRSimulation] (lines
    1210-1236): the output SNR of the trial and the generator after it. *)
Definition runTrial (modType : ModulationType) (params : SignalParams)
    (targetSNR : float) (r : rng) : outcome (float * rng) :=
  originalMessage ← generateBaseband params;
  modulatedSignal ←
    (if String.eqb modType AM then generateAM params
     else if String.eqb modType FM then generateFM params
     else Done nilSignal);
  let (noisySignal, r') := addAWGNWithRNG modulatedSignal targetSNR r in
  demodulatedSignal ←
    (if String.eqb modType AM then Done (demodulateAM noisySignal)
     else if String.eqb modType FM then demodulateFM noisySignal params
     else Done nilSignal);
  outputSNR ← computeOutputSNR originalMessage demodulatedSignal;
  Done (outputSNR, r').

(** [numIterations] passes, one after the other on the same generator;
    the list holds [measurements[0 .. numIterations-1]]. *)
Fixpoint trialLoop (modType : ModulationType) (params : SignalParams)
    (targetSNR : float) (numIterations : nat) (r : rng) : outcome (list float * rng) :=
  match numIterations with
  | O => Done ([], r)
  | S k =>
      '(outputSNR, r1) ← runTrial modType params targetSNR r;
      '(rest, r2) ← trialLoop modType params targetSNR k r1;
      Done (outputSNR :: rest, r2)
  end.

Definition runSingleSNRSimulation (modType : ModulationType) (params : SignalParams)
    (targetSNR : float) (numIterations : Z) (r : rng)
    : outcome (PerformanceResult * rng) :=
  slots ← make_floats numIterations;
  '(measurements, r') ← trialLoop modType params targetSNR (length slots) r;
  let mean := calculateMean measurements in
  let stdDev := calculateStdDev measurements mean in
  Done ({| PerformanceResult.InputSNR_dB := targetSNR;
           PerformanceResult.OutputSNR_dB := mean;
           PerformanceResult.StdDev := stdDev;
           PerformanceResult.ModulationType := modType;
           PerformanceResult.NumTrials := numIterations |}, r').

(** ** Sequential sweep (main.go, lines 1174-1201) *)

(** The work done for one SNR point, by the sequential loop and by a
    worker alike: the AM aggregate, then the FM aggregate, on one generator. *)
Definition runPoint (amParams fmParams : SignalParams) (config : MonteCarloConfig)
    (snr : float) (r : rng) : outcome (PerformanceResult * PerformanceResult * rng) :=
  '(amResult, r1) ← runSingleSNRSimulation AM amParams snr
                      (MonteCarloConfig.NumIterations config) r;
  let amResult := PerformanceResult.withInputSNR amResult snr in
  '(fmResult, r2) ← runSingleSNRSimulation FM fmParams snr
                      (MonteCarloConfig.NumIterations config) r1;
  let fmResult := PerformanceResult.withInputSNR fmResult snr in
  Done (amResult, fmResult, r2).

Fixpoint sequentialLoop (amParams fmParams : SignalParams) (config : MonteCarloConfig)
    (snrs : list float) (mainRand : rng)
    : outcome (list PerformanceResult * list PerformanceResult) :=
  match snrs with
  | [] => Done ([], [])
  | snr :: rest =>
      '(amResult, fmResult, r') ← runPoint amParams fmParams config snr mainRand;
      '(amResults, fmResults) ← sequentialLoop amParams fmParams config rest r';
      Done (amResult :: amResults, fmResult :: fmResults)
  end.

Definition runSequentialMonteCarloSimulation (amParams fmParams : SignalParams)
    (config : MonteCarloConfig)
    : outcome (list PerformanceResult * list PerformanceResult) :=
  sequentialLoop amParams fmParams config (MonteCarloConfig.SNRRange config)
                 (NewSource (MonteCarloConfig.Seed config)).

(** ** Parallel sweep (main.go, lines 1103-1172) *)

(** What the collector receives on a results channel. *)
Definition message : Type := nat * PerformanceResult.

(** The choices the Go scheduler makes during one parallel run:
    - [owner k] picks the worker that receives job [k] from the shared
      channel (taken modulo the number of workers);
    - [amArrival] and [fmArrival] give the order in which the results reach
      the two result channels, as a rearrangement of the order in which
      the jobs were sent. *)
Record Schedule : Type := {
  owner : nat -> nat;
  amArrival : list message -> list message;
  fmArrival : list message -> list message
}.

(** A rearrangement is admissible when it only reorders the messages. *)
Definition fair (sched : Schedule) : Prop :=
  (forall l, Permutation (amArrival sched l) l) /\
  (forall l, Permutation (fmArrival sched l) l).

(** [workerRand := rand.New(rand.NewSource(config.Seed + int64(workerID)))],
    one per worker. *)
Definition workerRands (config : MonteCarloConfig) : list rng :=
  map (fun workerID => NewSource (F64.wrap64 (MonteCarloConfig.Seed config + workerID)))
      (indices (Z.to_nat (MonteCarloConfig.NumWorkers config))).

(** The workers.  The channel hands the jobs out in the order they were
    sent; job [snrIndex] goes to the worker [owner snrIndex], which runs it
    on its own generator after the jobs it received before.  A worker
    handles its jobs one at a time, so the generators evolve as if the jobs
    were handled in sweep order, each on the generator of its worker.  A
    panic in a worker goroutine ends the program. *)
Fixpoint workerPhase (amParams fmParams : SignalParams) (config : MonteCarloConfig)
    (owner : nat -> nat) (jobs : list (nat * float)) (rands : list rng)
    : outcome (list message * list message) :=
  match jobs with
  | [] => Done ([], [])
  | (snrIndex, targetSNR) :: rest =>
      let w := (owner snrIndex mod length rands)%nat in
      match rands !! w with
      | None => Done ([], [])            (* no worker was started *)
      | Some workerRand =>
          '(amResult, fmResult, r') ←
            runPoint amParams fmParams config targetSNR workerRand;
          '(ams, fms) ← workerPhase amParams fmParams config owner rest (<[w := r']> rands);
          Done ((snrIndex, amResult) :: ams, (snrIndex, fmResult) :: fms)
      end
  end.

(** The collector: [results[result.index] = result.result] for every
    message, in arrival order, on a slice of [n] zero values. *)
Definition collect (n : nat) (arrivals : list message) : list PerformanceResult :=
  fold_left (fun results '(index, result) => <[index := result]> results)
            arrivals (repeat PerformanceResult.zero n).

(** The jobs in the order they are sent: [job{snrIndex: i, targetSNR: snr}]. *)
Definition jobsOf (snrRange : list float) : list (nat * float) :=
  combine (seq 0 (length snrRange)) snrRange.

Definition runParallelMonteCarloSimulation (amParams fmParams : SignalParams)
    (config : MonteCarloConfig) (sched : Schedule)
    : outcome (list PerformanceResult * list PerformanceResult) :=
  let n := length (MonteCarloConfig.SNRRange config) in
  '(ams, fms) ← workerPhase amParams fmParams config (owner sched)
                  (jobsOf (MonteCarloConfig.SNRRange config)) (workerRands config);
  Done (collect n (amArrival sched ams), collect n (fmArrival sched fms)).

(** ** Alignment helper of the test suite
    (phase7_demodulation_tests.go, lines 471-519) *)

(** The inner loop of the search: the sum of [reference[i] * signal[i+delay]]
    over the overlapping indices, and their number. *)
Definition correlationAt (reference signal : list float) (n delay : Z) : float * Z :=
  fold_left (fun '(correlation, count) i =>
               let j := i + delay in
               if (0 <=? j) && (j <? n)
               then ((correlation + at_ reference i * at_ signal j)%float, count + 1)
               else (correlation, count))
            (indices (Z.to_nat n)) (0%float, 0).

(** One step of the search loop on the state [(maxCorr, bestDelay)]. *)
Definition searchStep (reference signal : list float) (n : Z)
    (st : float * Z) (delay : Z) : float * Z :=
  let '(maxCorr, bestDelay) := st in
  let '(correlation, count) := correlationAt reference signal n delay in
  if 0 <? count then
    let correlation := (correlation / F64.of_int count)%float in
    if (maxCorr <? correlation)%float then (correlation, delay) else (maxCorr, bestDelay)
  else (maxCorr, bestDelay).

Definition maxDelayOf (n : Z) : Z :=
  let maxDelay := n / 10 in
  if 100 <? maxDelay then 100 else maxDelay.

Definition bestDelayOf (reference signal : list float) : Z :=
  let n := Z.of_nat (length reference) in
  let maxDelay := maxDelayOf n in
  snd (fold_left (searchStep reference signal n) (range (- maxDelay) maxDelay)
                 (neg_infinity, 0)).

Definition alignSignals (reference signal : list float) : list float :=
  if negb (length reference =? length signal)%nat then signal
  else
    let n := Z.of_nat (length reference) in
    let bestDelay := bestDelayOf reference signal in
    map (fun i => let j := i + bestDelay in
                  if (0 <=? j) && (j <? n) then at_ signal j else 0%float)
        (indices (Z.to_nat n)).

(** ** Sweep on the default generator (part_000, lines 549-614) *)

(** The statistics block that [simulateSNRPerformance] and
    [simulateSNRPerformanceParallel] apply to the measurements of a point. *)
Definition aggregate (modType : ModulationType) (targetSNR : float) (numTrials : Z)
    (measurements : list float) : PerformanceResult :=
  let mean := (fold_left (fun mean val => mean + val) measurements 0
               / F64.of_int numTrials)%float in
  let variance :=
    (fold_left (fun variance val => let diff := (val - mean)%float in
                                    (variance + diff * diff)%float) measurements 0
     / F64.of_int (numTrials - 1))%float in
  let stdDev := sqrt variance in
  {| PerformanceResult.InputSNR_dB := targetSNR;
     PerformanceResult.OutputSNR_dB := mean;
     PerformanceResult.StdDev := stdDev;
     PerformanceResult.ModulationType := modType;
     PerformanceResult.NumTrials := numTrials |}.

(** One pass of the trial loop on the default generator.  The sequential
    sweep also evaluates [computeInputSNR] and drops its value
    ([verifyInput]); the parallel one does not. *)
Definition defaultTrial (verifyInput : bool) (modType : ModulationType)
    (params : SignalParams) (targetSNR : float) (g : dstate) : outcome (float * dstate) :=
  originalMessage ← generateBaseband params;
  modulatedSignal ←
    (if String.eqb modType AM then generateAM params
     else if String.eqb modType FM then generateFM params
     else Done nilSignal);
  let (noisySignal, g') := addAWGN modulatedSignal targetSNR g in
  _ ← (if verifyInput then computeInputSNR modulatedSignal noisySignal else Done 0%float);
  demodulatedSignal ←
    (if String.eqb modType AM then Done (demodulateAM noisySignal)
     else if String.eqb modType FM then demodulateFM noisySignal params
     else Done nilSignal);
  outputSNR ← computeOutputSNR originalMessage demodulatedSignal;
  Done (outputSNR, g').

Fixpoint defaultTrialLoop (verifyInput : bool) (modType : ModulationType)
    (params : SignalParams) (targetSNR : float) (numTrials : nat) (g : dstate)
    : outcome (list float * dstate) :=
  match numTrials with
  | O => Done ([], g)
  | S k =>
      '(outputSNR, g1) ← defaultTrial verifyInput modType params targetSNR g;
      '(rest, g2) ← defaultTrialLoop verifyInput modType params targetSNR k g1;
      Done (outputSNR :: rest, g2)
  end.

Fixpoint simulateSNRPerformance_loop (modType : ModulationType) (params : SignalParams)
    (snrRange : list float) (numTrials : Z) (g : dstate)
    : outcome (list PerformanceResult * dstate) :=
  match snrRange with
  | [] => Done ([], g)
  | targetSNR :: rest =>
      slots ← make_floats numTrials;
      '(measurements, g1) ← defaultTrialLoop true modType params targetSNR (length slots) g;
      '(results, g2) ← simulateSNRPerformance_loop modType params rest numTrials g1;
      Done (aggregate modType targetSNR numTrials measurements :: results, g2)
  end.

Definition simulateSNRPerformance (modType : ModulationType) (params : SignalParams)
    (snrRange : list float) (numTrials : Z) (g : dstate)
    : outcome (list PerformanceResult * dstate) :=
  simulateSNRPerformance_loop modType params snrRange numTrials g.

End Engine.

(** ** The run-sweep operation (part_000, lines 616-716; montecarlo.go,
    lines 67-135) *)

(** A default generator that replays a given stream of draws.  The workers
    of [simulateSNRPerformanceParallel] all draw from the one process-wide
    generator, so the draws that one call of [addAWGN] obtains are those the
    scheduler lets it have; such a call is the sequential code run on the
    stream of its own draws. *)
Definition replaySource : DefaultSource :=
  {| dstate := nat -> float;
     defaultSeed := fun _ s => s;
     defaultNormFloat64 := fun s => (s 0%nat, fun k => s (S k)) |}.

Section RunSweep.

Context {math : MathLib} {dflt : DefaultSource}.

(** Go's [error] values. *)
Variable error : Type.

(** What the operation takes from its surroundings. *)
Record Env : Type := {
  cryptoRead : error + list Z;   (* rand.Read(seedBytes[:]): an error, or the eight bytes *)
  elapsed : Z;                   (* time.Since(startTime), in nanoseconds *)
  memStart : Z;                  (* TotalAlloc at the start *)
  memEnd : Z;                    (* TotalAlloc at the end *)
  default0 : dstate;             (* the default generator at the call *)
  grants : ModulationType -> nat -> nat -> nat -> float
    (* parallel run: the draws that trial [t] of SNR index [k] obtains *)
}.

Fixpoint parallelTrialLoop (modType : ModulationType) (params : SignalParams)
    (targetSNR : float) (draws : nat -> nat -> float) (trial numTrials : nat)
    : outcome (list float) :=
  match numTrials with
  | O => Done []
  | S k =>
      '(outputSNR, _) ← defaultTrial (dflt := replaySource) false modType params
                          targetSNR (draws trial);
      rest ← parallelTrialLoop modType params targetSNR draws (S trial) k;
      Done (outputSNR :: rest)
  end.

(** The results of the jobs, each stored at the index of its job. *)
Fixpoint parallelJobs (modType : ModulationType) (params : SignalParams)
    (numTrials : Z) (draws : nat -> nat -> nat -> float) (jobs : list (nat * float))
    : outcome (list PerformanceResult) :=
  match jobs with
  | [] => Done []
  | (snrIndex, targetSNR) :: rest =>
      slots ← make_floats numTrials;
      measurements ← parallelTrialLoop modType params targetSNR (draws snrIndex)
                       0%nat (length slots);
      results ← parallelJobs modType params numTrials draws rest;
      Done (aggregate modType targetSNR numTrials measurements :: results)
  end.

Definition simulateSNRPerformanceParallel (modType : ModulationType)
    (params : SignalParams) (snrRange : list float) (numTrials numWorkers : Z)
    (draws : nat -> nat -> nat -> float) : outcome (list PerformanceResult) :=
  if numWorkers <=? 0 then Done (repeat PerformanceResult.zero (length snrRange))
  else parallelJobs modType params numTrials draws (jobsOf snrRange).

(** [binary.LittleEndian.Uint64] on the first eight bytes. *)
Definition LittleEndian_Uint64 (bytes : list Z) : Z :=
  fold_right (fun b acc => b mod 256 + 256 * acc) 0 (firstn 8 bytes).

Definition generateCryptoSeed (env : Env) : Z * option error :=
  match cryptoRead env with
  | inl err => (0, Some err)
  | inr seedBytes => (F64.wrap64 (LittleEndian_Uint64 seedBytes), None)
  end.

(** [time.Duration.Seconds]. *)
Definition Seconds (d : Z) : float :=
  let sec := Z.quot d 1000000000 in
  let nsec := Z.rem d 1000000000 in
  (F64.of_int sec + F64.of_int nsec / 1e9)%float.

Definition OptimizedMonteCarloSimulation (amParams fmParams : SignalParams)
    (config : SimulationConfig) (env : Env)
    : outcome (list PerformanceResult * list PerformanceResult
               * SimulationStats * option error) :=
  let '(seed, err) :=
    if SimulationConfig.Seed config =? 0 then generateCryptoSeed env
    else (SimulationConfig.Seed config, None) in
  match err with
  | Some e => Done ([], [], SimulationStats.zero, Some e)
  | None =>
      let g := defaultSeed seed (default0 env) in
      let snrRange := SimulationConfig.SNRRange config in
      let numTrials := SimulationConfig.NumTrials config in
      let numWorkers := SimulationConfig.NumWorkers config in
      '(amResults, fmResults) ←
        (if SimulationConfig.UseParallel config && (1 <? numWorkers) then
           amResults ← simulateSNRPerformanceParallel AM amParams snrRange numTrials
                         numWorkers (grants env AM);
           fmResults ← simulateSNRPerformanceParallel FM fmParams snrRange numTrials
                         numWorkers (grants env FM);
           Done (amResults, fmResults)
         else
           '(amResults, g1) ← simulateSNRPerformance AM amParams snrRange numTrials g;
           '(fmResults, _) ← simulateSNRPerformance FM fmParams snrRange numTrials g1;
           Done (amResults, fmResults));
      let duration := elapsed env in
      let totalTrials := F64.wrap64 (numTrials * Z.of_nat (length snrRange) * 2) in
      let trialsPerSecond := (F64.of_int totalTrials / Seconds duration)%float in
      let memoryUsed := (memEnd env - memStart env) mod 2 ^ 64 in
      let stats :=
        {| SimulationStats.Duration := duration;
           SimulationStats.TrialsPerSecond := trialsPerSecond;
           SimulationStats.TotalTrials := totalTrials;
           SimulationStats.WorkersUsed := numWorkers;
           SimulationStats.MemoryUsed := memoryUsed |} in
      Done (amResults, fmResults, stats, None)
  end.

End RunSweep.

(** * Validation, analysis helpers and drivers

    The remaining functions of montecarlo.go and main.go, and the helper
    functions of the test files that analyse signals and noise. *)

(** [math.MaxFloat64], [math.IsNaN] and [math.IsInf(f, 0)], as Go defines
    them: [f != f], and [f > MaxFloat64 || f < -MaxFloat64]. *)
Definition MaxFloat64 : float := 0x1.fffffffffffffp+1023%float.

Definition IsNaN (f : float) : bool := negb (f =? f)%float.

Definition IsInf (f : float) : bool :=
  (MaxFloat64 <? f)%float || (f <? - MaxFloat64)%float.

(** The literals [0.01] and [1e-2], rounded to binary64. *)
Definition hundredth : float := 0x1.47ae147ae147bp-7%float.

(** Reading [xs[i]] with Go's bounds check. *)
Definition readAt (xs : list float) (i : Z) : outcome float :=
  if (0 <=? i) && (i <? Z.of_nat (length xs)) then Done (at_ xs i)
  else Abort PanicIndexOutOfRange.

(** ** Result validation (montecarlo.go, lines 290-310) *)

(** The three errors of [ValidateSimulationResults], each with the index and
    the value that its message prints. *)
Inductive validationError : Type :=
  | InvalidSNR (i : Z) (snr : float)
      (* "invalid SNR at index %d: %f" *)
  | NegativeStdDev (i : Z) (stdDev : float)
      (* "negative standard deviation at index %d: %f" *)
  | SNROutOfBounds (i : Z) (snr : float).
      (* "SNR out of reasonable bounds at index %d: %f dB" *)

Definition errorIndex (e : validationError) : Z :=
  match e with
  | InvalidSNR i _ | NegativeStdDev i _ | SNROutOfBounds i _ => i
  end.

(** The loop of [ValidateSimulationResults] from index [i] on; [None] is
    the nil error. *)
Fixpoint validateFrom (i : Z) (results : list PerformanceResult)
    : option validationError :=
  match results with
  | [] => None
  | result :: rest =>
      let snr := PerformanceResult.OutputSNR_dB result in
      if IsNaN snr || IsInf snr then Some (InvalidSNR i snr)
      else if (PerformanceResult.StdDev result <? 0)%float
      then Some (NegativeStdDev i (PerformanceResult.StdDev result))
      else if (snr <? -100)%float || (100 <? snr)%float
      then Some (SNROutOfBounds i snr)
      else validateFrom (i + 1) rest
  end.

Definition ValidateSimulationResults (results : list PerformanceResult)
    : option validationError :=
  validateFrom 0 results.

(** ** Statistics of the noise tests (part_000, lines 367-409 and 459-487) *)

Definition calculateSignalPower (values : list float) : float :=
  if (length values =? 0)%nat then 0%float
  else (fold_left (fun power v => power + v * v) values 0
        / F64.of_int (Z.of_nat (length values)))%float.

(** The loop of [calculateAutocorrelation]: both reads of the first
    statement are bounds-checked, [centered[i]] first. *)
Fixpoint autocorrelationLoop (centered : list float) (lag : Z) (js : list Z)
    (numerator denominator : float) : outcome (float * float) :=
  match js with
  | [] => Done (numerator, denominator)
  | i :: rest =>
      a ← readAt centered i;
      b ← readAt centered (i + lag);
      autocorrelationLoop centered lag rest
        (numerator + a * b)%float (denominator + a * a)%float
  end.

Definition calculateAutocorrelation (values : list float) (lag : Z) : outcome float :=
  if Z.of_nat (length values) <=? lag then Done 0%float
  else
    let mean := calculateMean values in
    let centered := map (fun v => (v - mean)%float) values in
    let N := F64.wrap64 (Z.of_nat (length centered) - lag) in
    '(numerator, denominator) ←
      autocorrelationLoop centered lag (indices (Z.to_nat N)) 0%float 0%float;
    if (denominator =? 0)%float then Done 0%float
    else Done (numerator / denominator)%float.

Definition calculateSkewness (values : list float) (mean stdDev : float) : float :=
  if (length values =? 0)%nat || (stdDev =? 0)%float then 0%float
  else
    (fold_left (fun sum v =>
                  let normalized := (v - mean) / stdDev in
                  sum + normalized * normalized * normalized) values 0
     / F64.of_int (Z.of_nat (length values)))%float.

Definition calculateKurtosis (values : list float) (mean stdDev : float) : float :=
  if (length values =? 0)%nat || (stdDev =? 0)%float then 0%float
  else
    (fold_left (fun sum v =>
                  let normalized := (v - mean) / stdDev in
                  sum + normalized * normalized * normalized * normalized) values 0
     / F64.of_int (Z.of_nat (length values)))%float.

(** ** Statistics of the demodulation tests
    (phase7_demodulation_tests.go, lines 399-445) *)

Definition calculateCorrelation (x y : list float) : float :=
  if negb (length x =? length y)%nat || (length x =? 0)%nat then 0%float
  else
    let n := length x in
    let meanX := calculateMean x in
    let meanY := calculateMean y in
    let '(numerator, sumX2, sumY2) :=
      fold_left (fun '(numerator, sumX2, sumY2) i =>
                   let dx := (at_ x i - meanX)%float in
                   let dy := (at_ y i - meanY)%float in
                   ((numerator + dx * dy)%float, (sumX2 + dx * dx)%float,
                    (sumY2 + dy * dy)%float))
                (indices n) (0%float, 0%float, 0%float) in
    let denominator := sqrt (sumX2 * sumY2) in
    if (denominator =? 0)%float then 0%float
    else (numerator / denominator)%float.

Definition calculateRMS (values : list float) : float :=
  if (length values =? 0)%nat then 0%float
  else sqrt (fold_left (fun sum v => sum + v * v) values 0
             / F64.of_int (Z.of_nat (length values)))%float.

(** ** Signal analysis helpers (phase7_signal_tests.go, lines 146-218 and
    275-285) *)

(** [findMinMax]: the first result is the maximum, the second the minimum. *)
Definition findMinMax (values : list float) : float * float :=
  match values with
  | [] => (0%float, 0%float)
  | v0 :: _ =>
      fold_left (fun '(max, min) v =>
                   let max := if (max <? v)%float then v else max in
                   let min := if (v <? min)%float then v else min in
                   (max, min))
                values (v0, v0)
  end.

(** [countZeroCrossings]; the parameter [dt] is not used. *)
Definition countZeroCrossings (values : list float) (dt : float) : Z :=
  if Z.of_nat (length values) <? 2 then 0
  else
    fold_left (fun crossings i =>
                 if ((0 <=? at_ values (i - 1))%float && (at_ values i <? 0)%float)
                    || ((at_ values (i - 1) <? 0)%float && (0 <=? at_ values i)%float)
                 then crossings + 1 else crossings)
              (range 1 (Z.of_nat (length values) - 1)) 0.

(** One output sample of the moving average of [extractEnvelope], with the
    window size [w]. *)
Definition envelopeAt (w : Z) (rectified : list float) (i : Z) : float :=
  let start := i - w / 2 in
  let end_ := i + w / 2 in
  let start := if start <? 0 then 0 else start in
  let end_ := if end_ >=? Z.of_nat (length rectified)
              then Z.of_nat (length rectified) - 1 else end_ in
  let '(sum, count) :=
    fold_left (fun '(sum, count) j => ((sum + at_ rectified j)%float, count + 1))
              (range start end_) (0%float, 0) in
  (sum / F64.of_int count)%float.

Definition extractEnvelope (values : list float) : list float :=
  let windowSize := Z.of_nat (length values) / 100 in
  let windowSize := if windowSize <? 5 then 5 else windowSize in
  let rectified := map abs values in
  map (envelopeAt windowSize rectified) (indices (length values)).

Definition calculateFrequencyDeviation (instFreq : list float) (carrierFreq : float)
    : float :=
  fold_left (fun maxDev freq =>
               let dev := abs (freq - carrierFreq) in
               if (maxDev <? dev)%float then dev else maxDev)
            instFreq 0%float.

Section Drivers.

Context {math : MathLib} {rand : RandSource} {dflt : DefaultSource}.

(** ** Explicit-generator injector of montecarlo.go (lines 33-65 and
    258-288) *)

(** [ReproducibleRNG]: a generator and the seed it was made from (the
    fields [rng] and [seed] of the source).  The mutex guards each draw; it
    has no state that a sequence of calls could observe. *)
Record ReproducibleRNG : Type := {
  rrng : rng;
  rseed : Z
}.

Definition NewReproducibleRNG (seed : Z) : ReproducibleRNG :=
  {| rrng := NewSource seed; rseed := seed |}.

Definition ReproducibleRNG_NormFloat64 (r : ReproducibleRNG) : float * ReproducibleRNG :=
  let (z, g) := NormFloat64 (rrng r) in (z, {| rrng := g; rseed := rseed r |}).

Definition GetSeed (r : ReproducibleRNG) : Z := rseed r.

Fixpoint OptimizedAWGNWithSeed_loop (noiseStdDev : float) (values : list float)
    (r : ReproducibleRNG) : list float * ReproducibleRNG :=
  match values with
  | [] => ([], r)
  | val :: rest =>
      let (z, r1) := ReproducibleRNG_NormFloat64 r in
      let noise := (z * noiseStdDev)%float in
      let (out, r2) := OptimizedAWGNWithSeed_loop noiseStdDev rest r1 in
      ((val + noise)%float :: out, r2)
  end.

Definition OptimizedAWGNWithSeed (signal : Signal) (snrDB : float) (r : ReproducibleRNG)
    : Signal * ReproducibleRNG :=
  let signalPower :=
    (fold_left (fun signalPower val => signalPower + val * val) (Values signal) 0
     / F64.of_int (Z.of_nat (length (Values signal))))%float in
  let snrLinear := Pow 10 (snrDB / 10) in
  let noiseVariance := (signalPower / snrLinear)%float in
  let noiseStdDev := sqrt noiseVariance in
  let (values, r') := OptimizedAWGNWithSeed_loop noiseStdDev (Values signal) r in
  ({| Time := Time signal; Values := values |}, r').

(** ** The first Monte Carlo driver (main.go, lines 326-366) *)

(** One pass of the trial loop of [monteCarloSimulationSeparate]: the AM
    and the FM pipeline side by side, both injectors on the default
    generator, AM first. *)
Definition separateTrial (amParams fmParams : SignalParams) (inputSNR : float)
    (g : dstate) : outcome (float * float * dstate) :=
  originalAM ← generateBaseband amParams;
  originalFM ← generateBaseband fmParams;
  amSignal ← generateAM amParams;
  fmSignal ← generateFM fmParams;
  let (noisyAM, g1) := addAWGN amSignal inputSNR g in
  let (noisyFM, g2) := addAWGN fmSignal inputSNR g1 in
  let demodAM := demodulateAM noisyAM in
  demodFM ← demodulateFM noisyFM fmParams;
  amSNR ← calculateSNR originalAM demodAM;
  fmSNR ← calculateSNR originalFM demodFM;
  Done (amSNR, fmSNR, g2).

Fixpoint separateTrialLoop (amParams fmParams : SignalParams) (inputSNR : float)
    (numTrials : nat) (amSNRSum fmSNRSum : float) (g : dstate)
    : outcome (float * float * dstate) :=
  match numTrials with
  | O => Done (amSNRSum, fmSNRSum, g)
  | S k =>
      '(amSNR, fmSNR, g1) ← separateTrial amParams fmParams inputSNR g;
      separateTrialLoop amParams fmParams inputSNR k
        (amSNRSum + amSNR)%float (fmSNRSum + fmSNR)%float g1
  end.

Fixpoint separateLoop (amParams fmParams : SignalParams) (snrRange : list float)
    (numTrials : Z) (g : dstate) : outcome (list float * list float * dstate) :=
  match snrRange with
  | [] => Done ([], [], g)
  | inputSNR :: rest =>
      '(amSNRSum, fmSNRSum, g1) ←
        separateTrialLoop amParams fmParams inputSNR (Z.to_nat numTrials) 0%float 0%float g;
      '(amSNRs, fmSNRs, g2) ← separateLoop amParams fmParams rest numTrials g1;
      Done ((amSNRSum / F64.of_int numTrials)%float :: amSNRs,
            (fmSNRSum / F64.of_int numTrials)%float :: fmSNRs, g2)
  end.

Definition monteCarloSimulationSeparate (amParams fmParams : SignalParams)
    (snrRange : list float) (numTrials : Z) (g : dstate)
    : outcome (list float * list float * dstate) :=
  separateLoop amParams fmParams snrRange numTrials g.

Definition monteCarloSimulation (params : SignalParams) (snrRange : list float)
    (numTrials : Z) (g : dstate) : outcome (list float * list float * dstate) :=
  monteCarloSimulationSeparate params params snrRange numTrials g.

(** ** Trial series of the Monte Carlo tests
    (phase7_snr_montecarlo_tests.go, lines 408-460) *)

(** The guard of both series: the score is counted when it is neither NaN
    nor infinite and its magnitude is below 100. *)
Definition countedSNR (outputSNR : float) : bool :=
  negb (IsNaN outputSNR) && negb (IsInf outputSNR) && (abs outputSNR <? 100)%float.

(** One pass of the loop of [runMonteCarloTrial]. *)
Definition amSeriesTrial (params : SignalParams) (targetSNR : float) (g : dstate)
    : outcome (float * dstate) :=
  originalMessage ← generateBaseband params;
  amSignal ← generateAM params;
  let (noisySignal, g') := addAWGN amSignal targetSNR g in
  let demodulated := demodulateAM noisySignal in
  outputSNR ← calculateSNR originalMessage demodulated;
  Done (outputSNR, g').

(** One pass of the loop of [runMonteCarloTrialFM]: the demodulated values
    are aligned against the message before they are scored. *)
Definition fmSeriesTrial (params : SignalParams) (targetSNR : float) (g : dstate)
    : outcome (float * dstate) :=
  originalMessage ← generateBaseband params;
  fmSignal ← generateFM params;
  let (noisySignal, g') := addAWGN fmSignal targetSNR g in
  demodulated ← demodulateFM noisySignal params;
  let aligned := alignSignals (Values originalMessage) (Values demodulated) in
  let alignedSignal := {| Time := Time originalMessage; Values := aligned |} in
  outputSNR ← calculateSNR originalMessage alignedSignal;
  Done (outputSNR, g').

Fixpoint seriesLoop (trial : dstate -> outcome (float * dstate)) (numTrials : nat)
    (snrSum : float) (validTrials : Z) (g : dstate) : outcome (float * Z * dstate) :=
  match numTrials with
  | O => Done (snrSum, validTrials, g)
  | S k =>
      '(outputSNR, g1) ← trial g;
      if countedSNR outputSNR
      then seriesLoop trial k (snrSum + outputSNR)%float (validTrials + 1) g1
      else seriesLoop trial k snrSum validTrials g1
  end.

Definition runSeries (trial : dstate -> outcome (float * dstate)) (numTrials : Z)
    (g : dstate) : outcome (float * dstate) :=
  '(snrSum, validTrials, g') ← seriesLoop trial (Z.to_nat numTrials) 0%float 0 g;
  if validTrials =? 0 then Done (0%float, g')
  else Done ((snrSum / F64.of_int validTrials)%float, g').

Definition runMonteCarloTrial (params : SignalParams) (targetSNR : float)
    (numTrials : Z) (g : dstate) : outcome (float * dstate) :=
  runSeries (amSeriesTrial params targetSNR) numTrials g.

Definition runMonteCarloTrialFM (params : SignalParams) (targetSNR : float)
    (numTrials : Z) (g : dstate) : outcome (float * dstate) :=
  runSeries (fmSeriesTrial params targetSNR) numTrials g.

End Drivers.

(** ** The Phase 5 driver and the reproducibility checks (main.go, lines
    1020-1101 and 1304-1354; montecarlo.go, lines 137-177) *)

(** [SNRMeasurement] (part_000, lines 504-510). *)
Module SNRMeasurement.
Record t : Type := {
  InputSNR_dB : float;
  OutputSNR_dB : float;
  ModulationType : ModulationType;
  TrialNumber : Z
}.
End SNRMeasurement.
Abbreviation SNRMeasurement := SNRMeasurement.t.

Module Phase5Stats.
Record t : Type := {
  TotalTrials : Z;
  Duration : Z;                (* time.Duration, in nanoseconds *)
  TrialsPerSecond : float;
  MemoryUsed : Z;              (* uint64 *)
  WorkersUsed : Z;
  ReproducibilitySeed : Z;
  ParallelEfficiency : float
}.
End Phase5Stats.
Abbreviation Phase5Stats := Phase5Stats.t.

Module Phase5MonteCarloResults.
Record t : Type := {
  AMResults : list PerformanceResult;
  FMResults : list PerformanceResult;
  Config : MonteCarloConfig;
  Stats : Phase5Stats;
  DetailedTrials : list SNRMeasurement
}.
End Phase5MonteCarloResults.
Abbreviation Phase5MonteCarloResults := Phase5MonteCarloResults.t.

(** What one run reads from the clock and from the allocator. *)
Record Meter : Type := {
  since : Z;         (* time.Since(startTime), in nanoseconds *)
  allocStart : Z;    (* TotalAlloc at the start *)
  allocEnd : Z       (* TotalAlloc at the end *)
}.

(** The errors of the two reproducibility checks. *)
Inductive reproducibilityError (error : Type) : Type :=
  | FirstRunFailed (e : error)
  | SecondRunFailed (e : error)
  | AMResultsDiffer (i : nat)
  | FMResultsDiffer (i : nat).
Arguments FirstRunFailed {error} e.
Arguments SecondRunFailed {error} e.
Arguments AMResultsDiffer {error} i.
Arguments FMResultsDiffer {error} i.

(** [results[i]] with Go's bounds check. *)
Definition resultAt (results : list PerformanceResult) (i : nat)
    : outcome PerformanceResult :=
  match results !! i with
  | Some r => Done r
  | None => Abort PanicIndexOutOfRange
  end.

(** The comparison loop of [VerifyReproducibility]: the first index at
    which the output SNRs of the two runs differ by more than the
    tolerance. *)
Fixpoint firstDifference (tolerance : float) (i : nat)
    (results1 results2 : list PerformanceResult) (rest : list PerformanceResult)
    : outcome (option nat) :=
  match rest with
  | [] => Done None
  | _ :: rest' =>
      r1 ← resultAt results1 i;
      r2 ← resultAt results2 i;
      let diff := abs (PerformanceResult.OutputSNR_dB r1
                       - PerformanceResult.OutputSNR_dB r2)%float in
      if (tolerance <? diff)%float then Done (Some i)
      else firstDifference tolerance (S i) results1 results2 rest'
  end.

Section Phase5.

Context {math : MathLib} {rand : RandSource} {dflt : DefaultSource}.

(** Go's [error] values. *)
Variable error : Type.

Definition RunPhase5MonteCarloSimulation (amParams fmParams : SignalParams)
    (config : MonteCarloConfig) (meter : Meter) (sched : Schedule) (g : dstate)
    : outcome (Phase5MonteCarloResults * option error * dstate) :=
  let g' := defaultSeed (MonteCarloConfig.Seed config) g in
  '(amResults, fmResults) ←
    (if MonteCarloConfig.UseParallel config
     then runParallelMonteCarloSimulation amParams fmParams config sched
     else runSequentialMonteCarloSimulation amParams fmParams config);
  let duration := since meter in
  let totalTrials :=
    F64.wrap64 (MonteCarloConfig.NumIterations config
                * Z.of_nat (length (MonteCarloConfig.SNRRange config)) * 2) in
  let trialsPerSecond := (F64.of_int totalTrials / Seconds duration)%float in
  let memoryUsed := (allocEnd meter - allocStart meter) mod 2 ^ 64 in
  let stats :=
    {| Phase5Stats.TotalTrials := totalTrials;
       Phase5Stats.Duration := duration;
       Phase5Stats.TrialsPerSecond := trialsPerSecond;
       Phase5Stats.MemoryUsed := memoryUsed;
       Phase5Stats.WorkersUsed := MonteCarloConfig.NumWorkers config;
       Phase5Stats.ReproducibilitySeed := MonteCarloConfig.Seed config;
       Phase5Stats.ParallelEfficiency := 0 |} in
  Done ({| Phase5MonteCarloResults.AMResults := amResults;
           Phase5MonteCarloResults.FMResults := fmResults;
           Phase5MonteCarloResults.Config := config;
           Phase5MonteCarloResults.Stats := stats;
           Phase5MonteCarloResults.DetailedTrials := [] |}, None, g').

(** The configuration that [VerifyReproducibility] runs twice. *)
Definition reproducibilityConfig : MonteCarloConfig :=
  {| MonteCarloConfig.NumIterations := 50;
     MonteCarloConfig.SNRRange := [0; 10; 20]%float;
     MonteCarloConfig.Seed := 12345;
     MonteCarloConfig.UseParallel := false;
     MonteCarloConfig.NumWorkers := 1;
     MonteCarloConfig.ProgressReport := false;
     MonteCarloConfig.SaveDetailed := false |}.

Definition VerifyReproducibility (amParams fmParams : SignalParams)
    (meter1 meter2 : Meter) (sched1 sched2 : Schedule) (g : dstate)
    : outcome (option (reproducibilityError error) * dstate) :=
  let testConfig := reproducibilityConfig in
  '(results1, err, g1) ←
    RunPhase5MonteCarloSimulation amParams fmParams testConfig meter1 sched1 g;
  match err with
  | Some e => Done (Some (FirstRunFailed e), g1)
  | None =>
      '(results2, err, g2) ←
        RunPhase5MonteCarloSimulation amParams fmParams testConfig meter2 sched2 g1;
      match err with
      | Some e => Done (Some (SecondRunFailed e), g2)
      | None =>
          let tolerance := F64.threshold in
          am ← firstDifference tolerance 0
                 (Phase5MonteCarloResults.AMResults results1)
                 (Phase5MonteCarloResults.AMResults results2)
                 (Phase5MonteCarloResults.AMResults results1);
          match am with
          | Some i => Done (Some (AMResultsDiffer i), g2)
          | None =>
              fm ← firstDifference tolerance 0
                     (Phase5MonteCarloResults.FMResults results1)
                     (Phase5MonteCarloResults.FMResults results2)
                     (Phase5MonteCarloResults.FMResults results1);
              match fm with
              | Some i => Done (Some (FMResultsDiffer i), g2)
              | None => Done (None, g2)
              end
          end
      end
  end.

(** The loop of [ReproducibilityTest]: one pass compares the AM and then
    the FM result at the index. *)
Fixpoint firstDifferenceBoth (tolerance : float) (i : nat)
    (am1 am2 fm1 fm2 : list PerformanceResult) (rest : list PerformanceResult)
    : outcome (option (reproducibilityError error)) :=
  match rest with
  | [] => Done None
  | _ :: rest' =>
      a1 ← resultAt am1 i;
      a2 ← resultAt am2 i;
      if (tolerance <? abs (PerformanceResult.OutputSNR_dB a1
                            - PerformanceResult.OutputSNR_dB a2))%float
      then Done (Some (AMResultsDiffer i))
      else
        f1 ← resultAt fm1 i;
        f2 ← resultAt fm2 i;
        if (tolerance <? abs (PerformanceResult.OutputSNR_dB f1
                              - PerformanceResult.OutputSNR_dB f2))%float
        then Done (Some (FMResultsDiffer i))
        else firstDifferenceBoth tolerance (S i) am1 am2 fm1 fm2 rest'
  end.

(** The configuration that [ReproducibilityTest] runs twice. *)
Definition reproducibilityTestConfig (seed numTrials : Z) : SimulationConfig :=
  {| SimulationConfig.Seed := seed;
     SimulationConfig.NumTrials := numTrials;
     SimulationConfig.NumWorkers := 1;
     SimulationConfig.SNRRange := [0; 10; 20]%float;
     SimulationConfig.UseParallel := false;
     SimulationConfig.PrintProgress := false |}.

(** [ReproducibilityTest]; [env1] and [env2] are the surroundings of the
    first and of the second run (the second run finds the default generator
    as the first one left it). *)
Definition ReproducibilityTest (params : SignalParams) (seed numTrials : Z)
    (env1 env2 : Env error) : outcome (option (reproducibilityError error)) :=
  let config1 := reproducibilityTestConfig seed numTrials in
  let config2 := config1 in
  '(amResults1, fmResults1, _, err1) ←
    OptimizedMonteCarloSimulation error params params config1 env1;
  match err1 with
  | Some e => Done (Some (FirstRunFailed e))
  | None =>
      '(amResults2, fmResults2, _, err2) ←
        OptimizedMonteCarloSimulation error params params config2 env2;
      match err2 with
      | Some e => Done (Some (SecondRunFailed e))
      | None =>
          let tolerance := hundredth in
          firstDifferenceBoth tolerance 0 amResults1 amResults2 fmResults1 fmResults2
                              amResults1
      end
  end.

End Phase5.

(** ** Frequency estimates of the tests (phase7_signal_tests.go, lines
    220-273; phase7_demodulation_tests.go, lines 446-469) *)

(** [math.Cos], the one further function of Go's [math] package that the
    frequency estimates use. *)
Class TrigLib : Type := {
  Cos : float -> float
}.

Section FrequencyEstimates.

Context {math : MathLib} {trig : TrigLib}.

(** The sums [real] and [imag] of the one-bin DFT that
    [estimateCarrierPower] and [estimateFrequencyContent] both compute. *)
Definition dftBin (values : list float) (bin : Z) : float * float :=
  let N := Z.of_nat (length values) in
  fold_left (fun '(real, imag) n =>
               let x := at_ values n in
               let angle := (F64.twoPi * F64.of_int bin * F64.of_int n
                             / F64.of_int N)%float in
               ((real + x * Cos angle)%float, (imag + x * Sin angle)%float))
            (indices (length values)) (0%float, 0%float).

Definition estimateCarrierPower (values : list float) (carrierFreq samplingRate : float)
    : outcome float :=
  let N := Z.of_nat (length values) in
  match F64.to_int (carrierFreq * F64.of_int N / samplingRate) with
  | None => Abort ConversionUndefined
  | Some carrierBin =>
      let '(real, imag) := dftBin values carrierBin in
      let magnitude := (sqrt (real * real + imag * imag) / F64.of_int N)%float in
      Done magnitude
  end.

Definition estimateSidebandPower (values : list float)
    (carrierFreq messageFreq samplingRate : float) : outcome float :=
  upperSideband ← estimateCarrierPower values (carrierFreq + messageFreq) samplingRate;
  lowerSideband ← estimateCarrierPower values (carrierFreq - messageFreq) samplingRate;
  Done (upperSideband + lowerSideband)%float.

Definition estimateFrequencyContent (values : list float) (targetFreq samplingRate : float)
    : outcome float :=
  if (length values =? 0)%nat then Done 0%float
  else
    let N := Z.of_nat (length values) in
    match F64.to_int (targetFreq * F64.of_int N / samplingRate) with
    | None => Abort ConversionUndefined
    | Some freqBin =>
        if freqBin >=? N / 2 then Done 0%float
        else
          let '(real, imag) := dftBin values freqBin in
          let magnitude := (sqrt (real * real + imag * imag) / F64.of_int N)%float in
          Done magnitude
    end.

End FrequencyEstimates.

(** The first loop of [estimateInstantaneousFrequency]: the zero-crossing
    rate of the window around each interior index.  The loop bounds keep
    the slice expression [values[i-windowSize/2 : i+windowSize/2]] and the
    index [i] inside the arrays. *)
Definition crossingRates (values : list float) (windowSize : Z) (dt : float)
    (instFreq : list float) : list float :=
  fold_left (fun instFreq i =>
               let lo := i - windowSize / 2 in
               let hi := i + windowSize / 2 in
               let window := firstn (Z.to_nat (hi - lo)) (skipn (Z.to_nat lo) values) in
               let crossings := countZeroCrossings window dt in
               <[Z.to_nat i := (F64.of_int crossings
                               / (2 * F64.of_int windowSize * dt))%float]> instFreq)
            (range windowSize (Z.of_nat (length values) - windowSize - 1)) instFreq.

(** The two loops that fill the edges: each pass reads [instFreq[src]] and
    writes it to [instFreq[i]]. *)
Fixpoint fillFrom (src : Z) (js : list Z) (instFreq : list float)
    : outcome (list float) :=
  match js with
  | [] => Done instFreq
  | i :: rest =>
      v ← readAt instFreq src;
      if (0 <=? i) && (i <? Z.of_nat (length instFreq))
      then fillFrom src rest (<[Z.to_nat i := v]> instFreq)
      else Abort PanicIndexOutOfRange
  end.

Definition estimateInstantaneousFrequency (values : list float) (samplingRate : float)
    : outcome (list float) :=
  let N := Z.of_nat (length values) in
  let instFreq := repeat 0%float (length values) in
  let dt := (1 / samplingRate)%float in
  match F64.to_int (samplingRate * hundredth) with
  | None => Abort ConversionUndefined
  | Some windowSize =>
      let windowSize := if windowSize <? 10 then 10 else windowSize in
      let instFreq := crossingRates values windowSize dt instFreq in
      instFreq ← fillFrom windowSize (range 0 (windowSize - 1)) instFreq;
      fillFrom (N - windowSize - 1) (range (N - windowSize) (N - 1)) instFreq
  end.

Section Bandwidth.

Context {math : MathLib} {trig : TrigLib}.

(** The literal [0.99] of [estimateBandwidth], rounded to binary64. *)
Definition ninetyNineHundredths : float := 0x1.fae147ae147aep-1%float.

(** [estimateBandwidth] (phase7_signal_tests.go, lines 287-322): the power
    of each of the first [N/2] DFT bins. *)
Definition powerSpectrumOf (values : list float) : list float :=
  let N := Z.of_nat (length values) in
  map (fun k => let '(real, imag) := dftBin values k in
                ((real * real + imag * imag) / F64.of_int (F64.wrap64 (N * N)))%float)
      (indices (Z.to_nat (N / 2))).

(** The search loop from bin [k] on: the frequency of the first bin at
    which the cumulative power reaches the target. *)
Fixpoint bandwidthSearch (samplingRate : float) (N : Z) (targetPower : float)
    (k : Z) (powers : list float) (cumulativePower : float) : option float :=
  match powers with
  | [] => None
  | power :: rest =>
      let cumulativePower := (cumulativePower + power)%float in
      if (targetPower <=? cumulativePower)%float
      then Some (F64.of_int k * samplingRate / F64.of_int N)%float
      else bandwidthSearch samplingRate N targetPower (k + 1) rest cumulativePower
  end.

Definition estimateBandwidth (values : list float) (samplingRate : float) : float :=
  let N := Z.of_nat (length values) in
  let powerSpectrum := powerSpectrumOf values in
  let totalPower := fold_left (fun totalPower power => (totalPower + power)%float)
                              powerSpectrum 0%float in
  let targetPower := (totalPower * ninetyNineHundredths)%float in
  match bandwidthSearch samplingRate N targetPower 0 powerSpectrum 0%float with
  | Some frequency => frequency
  | None => (samplingRate / 2)%float
  end.

End Bandwidth.

(** A byte, as an [int] value. *)
Definition isByte (b : Z) : Prop := 0 <= b < 256.

(** * Reference definitions

    The quantities the specification speaks of, written in its own words, to
    be compared with what the code computes. *)

Section Reference.

Context {math : MathLib} {rand : RandSource} {dflt : DefaultSource}.

Local Open Scope float_scope.

(** The mean of the squared samples. *)
Definition meanSquare (xs : list float) : float :=
  fold_left PrimFloat.add (map (fun x => x * x) xs) 0
  / F64.of_int (Z.of_nat (length xs)).

(** The per-sample noise, corrupted minus original. *)
Definition noiseOf (original corrupted : list float) : list float :=
  zip_with (fun o c => c - o) original corrupted.

(** [10 log10 (signalPower / noisePower)], or [+Inf] on zero noise power. *)
Definition snrOf (original corrupted : list float) : float :=
  let signalPower := meanSquare original in
  let noisePower := meanSquare (noiseOf original corrupted) in
  if noisePower =? 0 then infinity else 10 * Log10 (signalPower / noisePower).

(** The first [n] draws of a generator, and the generator after them. *)
Fixpoint draws (n : nat) (r : rng) : list float * rng :=
  match n with
  | O => ([], r)
  | S k => let (z, r1) := NormFloat64 r in
           let (zs, r2) := draws k r1 in (z :: zs, r2)
  end.

Fixpoint defaultDraws (n : nat) (g : dstate) : list float * dstate :=
  match n with
  | O => ([], g)
  | S k => let (z, g1) := defaultNormFloat64 g in
           let (zs, g2) := defaultDraws k g1 in (z :: zs, g2)
  end.

(** The standard deviation of the injected noise for a target SNR in dB. *)
Definition sigmaOf (xs : list float) (snrDB : float) : float :=
  sqrt (meanSquare xs / Pow 10 (snrDB / 10)).

(** The trial as the specification describes it: the FM output is aligned
    against the baseband before it is scored, the AM output is not. *)
Definition alignedTrial (modType : ModulationType) (params : SignalParams)
    (targetSNR : float) (r : rng) : outcome (float * rng) :=
  originalMessage ← generateBaseband params;
  modulatedSignal ←
    (if String.eqb modType AM then generateAM params else generateFM params);
  let (noisySignal, r') := addAWGNWithRNG modulatedSignal targetSNR r in
  demodulatedSignal ←
    (if String.eqb modType AM then Done (demodulateAM noisySignal)
     else
       demodulated ← demodulateFM noisySignal params;
       Done {| Time := Time demodulated;
               Values := alignSignals (Values originalMessage) (Values demodulated) |});
  outputSNR ← calculateSNR originalMessage demodulatedSignal;
  Done (outputSNR, r').

(** The number of samples in the clamped window around an index of the
    slice: between 1 and [windowSize + 1]. *)
Definition windowCount (n i : Z) : Z :=
  let start := if (i - windowSize / 2 <? 0)%Z then 0%Z else (i - windowSize / 2)%Z in
  let end_ := if (i + windowSize / 2 >=? n)%Z then (n - 1)%Z else (i + windowSize / 2)%Z in
  (end_ - start + 1)%Z.

(** A signal of [n] samples on the time axis [float64(i) * (1/samplingRate)]. *)
Definition sampled (params : SignalParams) (n : Z) (s : Signal) : Prop :=
  Z.of_nat (length (Time s)) = n /\ Z.of_nat (length (Values s)) = n /\
  forall i, (0 <= i < n)%Z ->
    at_ (Time s) i = F64.of_int i * (1 / SamplingRate params).

(** The value the discriminator computes at [i >= 1], in terms of the input
    alone: I is the input, Q the input delayed by one sample (the first
    sample standing for its own predecessor). *)
Definition discriminatorFormula (params : SignalParams) (x : list float) (i : Z) : float :=
  let dt := 1 / SamplingRate params in
  let I := at_ x i in
  let Q := at_ x (i - 1) in
  let dI := I - at_ x (i - 1) in
  let dQ := Q - at_ x (Z.max 0 (i - 2)) in
  if F64.threshold <? I * I + Q * Q
  then (I * dQ - Q * dI) / (F64.twoPi * dt * (I * I + Q * Q)) / ModulationIdx params
  else 0.

(** The candidate shifted by the lag [d], out-of-range samples zero. *)
Definition shifted (signal : list float) (d : Z) : list float :=
  map (fun i => let j := (i + d)%Z in
                if (0 <=? j)%Z && (j <? Z.of_nat (length signal))%Z
                then at_ signal j else 0)
      (indices (length signal)).

(** The indices of the reference whose partner at lag [d] lies inside the
    candidate, the sum of the products over them, and the score of the lag:
    their mean (no score when nothing overlaps). *)
Definition overlap (n d : Z) : list Z :=
  List.filter (fun i => (0 <=? i + d)%Z && (i + d <? n)%Z) (indices (Z.to_nat n)).

Definition dotProduct (reference signal : list float) (d : Z) : float :=
  fold_left (fun acc i => acc + at_ reference i * at_ signal (i + d)%Z)
            (overlap (Z.of_nat (length reference)) d) 0.

Definition lagScore (reference signal : list float) (d : Z) : option float :=
  let count := Z.of_nat (length (overlap (Z.of_nat (length reference)) d)) in
  if (0 <? count)%Z then Some (dotProduct reference signal d / F64.of_int count)
  else None.

(** The lags the search visits for a reference of [n] samples. *)
Definition inWindow (n d : Z) : Prop := (Z.abs d <= n / 10)%Z /\ (Z.abs d <= 100)%Z.

(** The lag the search keeps.  Either some lag of the window has a score
    above -Inf; then it is the first lag, in ascending order, whose score no
    lag of the window exceeds: every earlier lag with a score that is a
    number scores strictly lower.  Or no lag has such a score (every score
    is NaN or -Inf); then it is the lag 0. *)
Definition firstMaximalLag (reference signal : list float) (best : Z) : Prop :=
  let n := Z.of_nat (length reference) in
  (exists cb,
     inWindow n best /\ lagScore reference signal best = Some cb /\
     (neg_infinity <? cb) = true /\
     (forall d c, inWindow n d -> lagScore reference signal d = Some c ->
                  (cb <? c) = false) /\
     (forall d c, inWindow n d -> (d < best)%Z -> lagScore reference signal d = Some c ->
                  is_nan c = false -> (c <? cb) = true))
  \/
  (best = 0%Z /\
   forall d c, inWindow n d -> lagScore reference signal d = Some c ->
               (neg_infinity <? c) = false).
(** The state of the search after the lags [lo .. hi-1]. *)
Definition searched (reference signal : list float) (lo hi : Z) (st : float * Z) : Prop :=
  let seen d := (lo <= d < hi)%Z in
  (st = (neg_infinity, 0%Z) /\
   forall d c, seen d -> lagScore reference signal d = Some c -> (neg_infinity <? c) = false)
  \/
  (seen (snd st) /\ lagScore reference signal (snd st) = Some (fst st) /\
   (neg_infinity <? fst st) = true /\
   (forall d c, seen d -> lagScore reference signal d = Some c -> (fst st <? c) = false) /\
   (forall d c, seen d -> (d < snd st)%Z -> lagScore reference signal d = Some c ->
                is_nan c = false -> (c <? fst st) = true)).

(** [runsOf r ms r']: the measurements [ms] are the outputs of successive
    runs of the trial runner, the first on the generator [r], each next one
    on the generator the previous run left, the last leaving [r']. *)
Inductive runsOf (modType : ModulationType) (params : SignalParams) (targetSNR : float)
    : rng -> list float -> rng -> Prop :=
  | runsOf_nil r : runsOf modType params targetSNR r [] r
  | runsOf_cons r outputSNR r1 rest r2 :
      runTrial modType params targetSNR r = Done (outputSNR, r1) ->
      runsOf modType params targetSNR r1 rest r2 ->
      runsOf modType params targetSNR r (outputSNR :: rest) r2.

(** The collector's assignment [results[index] = result]. *)
Definition store (results : list PerformanceResult) (m : message) : list PerformanceResult :=
  let '(index, result) := m in <[index := result]> results.

(** The fields of a result that do not depend on the draws. *)
Definition labelled (config : MonteCarloConfig) (modType : ModulationType)
    (snr : float) (result : PerformanceResult) : Prop :=
  PerformanceResult.InputSNR_dB result = snr /\
  PerformanceResult.ModulationType result = modType /\
  PerformanceResult.NumTrials result = MonteCarloConfig.NumIterations config.

(** The sweep indices of the jobs that worker [w] of [W] receives under the
    assignment [owner], in sweep order. *)
Definition jobsOfWorker (owner : nat -> nat) (W w n : nat) : list nat :=
  List.filter (fun k => (owner k mod W =? w)%nat) (seq 0 n).

(** The entries of a slice at the given indices. *)
Definition entriesAt {A : Type} (d : A) (xs : list A) (ks : list nat) : list A :=
  map (fun k => nth k xs d) ks.

End Reference.

(** ** Reference definitions for the helpers and drivers *)

(** A result that the validation lets pass: the mean output SNR lies in
    [-100, 100] and the standard deviation is not below zero. *)
Definition acceptable (r : PerformanceResult) : bool :=
  ((-100 <=? PerformanceResult.OutputSNR_dB r)%float
   && (PerformanceResult.OutputSNR_dB r <=? 100)%float)
  && negb (PerformanceResult.StdDev r <? 0)%float.

(** The mean of the counted scores of a series: the scores that are
    neither NaN nor infinite and lie strictly between -100 and 100 are
    summed in order and divided by their number; 0 when there is none. *)
Definition countedMean (ms : list float) : float :=
  let counted := List.filter countedSNR ms in
  if (length counted =? 0)%nat then 0%float
  else (fold_left (fun sum x => sum + x) counted 0
        / F64.of_int (Z.of_nat (length counted)))%float.

(** The scores of [n] successive runs of a trial on the default generator. *)
Fixpoint seriesScores {dflt : DefaultSource} (trial : dstate -> outcome (float * dstate))
    (n : nat) (g : dstate) : outcome (list float * dstate) :=
  match n with
  | O => Done ([], g)
  | S k =>
      '(outputSNR, g1) ← trial g;
      '(rest, g2) ← seriesScores trial k g1;
      Done (outputSNR :: rest, g2)
  end.

(** A configuration with another SNR sweep. *)
Definition withSNRRange (config : MonteCarloConfig) (snrRange : list float)
    : MonteCarloConfig :=
  {| MonteCarloConfig.NumIterations := MonteCarloConfig.NumIterations config;
     MonteCarloConfig.SNRRange := snrRange;
     MonteCarloConfig.Seed := MonteCarloConfig.Seed config;
     MonteCarloConfig.UseParallel := MonteCarloConfig.UseParallel config;
     MonteCarloConfig.NumWorkers := MonteCarloConfig.NumWorkers config;
     MonteCarloConfig.ProgressReport := MonteCarloConfig.ProgressReport config;
     MonteCarloConfig.SaveDetailed := MonteCarloConfig.SaveDetailed config |}.

(** The output SNRs of two runs at index [i] agree within the tolerance, as
    the reproducibility tests read it: the magnitude of their difference is
    not above the tolerance (a NaN difference is not). *)
Definition outputsAgree (tolerance : float) (results1 results2 : list PerformanceResult)
    (i : nat) : bool :=
  match results1 !! i, results2 !! i with
  | Some r1, Some r2 =>
      negb (tolerance <? abs (PerformanceResult.OutputSNR_dB r1
                              - PerformanceResult.OutputSNR_dB r2))%float
  | _, _ => false
  end.

(** The verdict on the first [n] points of two runs: nil when the AM and
    the FM outputs agree at every point; otherwise the first point at which
    one of them does not, the AM output looked at first. *)
Definition firstMismatch {error : Type} (tolerance : float)
    (am1 am2 fm1 fm2 : list PerformanceResult) (n : nat)
    (verdict : option (reproducibilityError error)) : Prop :=
  let agree j := outputsAgree tolerance am1 am2 j = true
                 /\ outputsAgree tolerance fm1 fm2 j = true in
  match verdict with
  | None => forall j, (j < n)%nat -> agree j
  | Some (AMResultsDiffer i) =>
      (i < n)%nat /\ (forall j, (j < i)%nat -> agree j)
      /\ outputsAgree tolerance am1 am2 i = false
  | Some (FMResultsDiffer i) =>
      (i < n)%nat /\ (forall j, (j < i)%nat -> agree j)
      /\ outputsAgree tolerance am1 am2 i = true
      /\ outputsAgree tolerance fm1 fm2 i = false
  | Some _ => False
  end.

(** Classes of binary64 values, on the kernel's specification type. *)
Module SF.
Definition signed (s : bool) (x : spec_float) : Prop :=
  match x with
  | S754_zero s' | S754_infinity s' | S754_finite s' _ _ => s' = s
  | S754_nan => False
  end.

Definition nonneg (x : spec_float) : Prop :=
  match x with
  | S754_zero _ | S754_infinity false | S754_finite false _ _ => True
  | _ => False
  end.

Definition notnan (x : spec_float) : Prop :=
  match x with S754_nan => False | _ => True end.

Definition finite (x : spec_float) : Prop :=
  match x with S754_zero _ | S754_finite _ _ _ => True | _ => False end.

Definition positive (x : spec_float) : Prop :=
  match x with S754_finite false _ _ => True | _ => False end.

(** A key that orders the numbers as the comparison does: the class first
    (-Inf, negative, zero, positive, +Inf), then exponent and mantissa. *)
Definition key (x : spec_float) : Z * Z * Z :=
  match x with
  | S754_infinity true => (-2, 0, 0)%Z
  | S754_finite true m e => (-1, - e, Zneg m)%Z
  | S754_zero _ => (0, 0, 0)%Z
  | S754_nan => (0, 0, 0)%Z
  | S754_finite false m e => (1, e, Zpos m)%Z
  | S754_infinity false => (2, 0, 0)%Z
  end.

Definition lexlt (a b : Z * Z * Z) : Prop :=
  let '(a1, a2, a3) := a in
  let '(b1, b2, b3) := b in
  (a1 < b1 \/ (a1 = b1 /\ (a2 < b2 \/ (a2 = b2 /\ a3 < b3))))%Z.

End SF.

(** Sign classes that admit NaN. *)
Module SFSign.
(** A number that is not negative: NaN, a zero, or a positive number. *)
Definition unsigned (x : spec_float) : Prop := SF.notnan x -> SF.nonneg x.

(** The sign bit is clear (NaN excluded). *)
Definition plus (x : spec_float) : Prop := SF.signed false x.
End SFSign.

(** Decimal literals below denote the nearest binary64 number, as they do in
    Go. *)
#[local] Set Warnings "-inexact-float".

(** The parameters of the repository's robustness test
    (phase7_comprehensive_tests.go, lines 47-54). *)
Definition invalidParams : SignalParams :=
  {| SamplingRate := -1000; Duration := 0.1; MessageFreq := 100; CarrierFreq := 1000;
     MessageAmp := 1; CarrierAmp := 1; ModulationIdx := 0 |}.

(** The parameters of the repository's zero-duration test
    (phase7_signal_tests.go, lines 366-371). *)
Definition zeroDurationParams : SignalParams :=
  {| SamplingRate := 1000; Duration := 0; MessageFreq := 10; CarrierFreq := 100;
     MessageAmp := 0; CarrierAmp := 0; ModulationIdx := 0 |}.

(** The configuration of a sequential run with a supplied seed, one trial at
    one SNR point. *)
Definition oneTrialConfig : SimulationConfig :=
  {| SimulationConfig.Seed := 12345; SimulationConfig.NumTrials := 1;
     SimulationConfig.NumWorkers := 1; SimulationConfig.SNRRange := [0%float];
     SimulationConfig.UseParallel := false; SimulationConfig.PrintProgress := false |}.

Local Open Scope float_scope.

(** Ten samples at 10 Hz, and a negative duration at 8 kHz. *)
Definition tenHertz : SignalParams :=
  {| SamplingRate := 10; Duration := 1; MessageFreq := 1; CarrierFreq := 1;
     MessageAmp := 1; CarrierAmp := 1; ModulationIdx := 1 |}.

Definition negativeDuration : SignalParams :=
  {| SamplingRate := 8000; Duration := -0.1; MessageFreq := 100; CarrierFreq := 1000;
     MessageAmp := 1; CarrierAmp := 1; ModulationIdx := 0.5 |}.

(** The parameters of the repository's test scenario (8 kHz for 0.1 s): 800
    samples. *)
Definition testParams : SignalParams :=
  {| SamplingRate := 8000; Duration := 0.1; MessageFreq := 100; CarrierFreq := 1000;
     MessageAmp := 1; CarrierAmp := 1; ModulationIdx := 0.5 |}.

(** Ten samples of the constant 1. *)
Definition tenOnes : list float := repeat 1 10.

(** A parallel configuration that starts no worker. *)
Definition withoutWorkers : MonteCarloConfig :=
  {| MonteCarloConfig.NumIterations := 2%Z;
     MonteCarloConfig.SNRRange := [0; 10];
     MonteCarloConfig.Seed := 42%Z; MonteCarloConfig.UseParallel := true;
     MonteCarloConfig.NumWorkers := 0%Z; MonteCarloConfig.ProgressReport := false;
     MonteCarloConfig.SaveDetailed := false |}.

(** The readings of one run: 1.5 s elapsed, two allocation counters. *)
Definition sampleMeter : Meter :=
  {| since := 1500000000%Z; allocStart := 1000%Z; allocEnd := 5000%Z |}.

(** Two samples, both finite. *)
Definition twoSamples : Signal := {| Time := [0; 1]; Values := [1; 2] |}.

(** ** Stand-in libraries

    To run the model on concrete inputs, the library interfaces need
    instances.  The ones below are stand-ins, not Go's functions: the Taylor
    polynomial of degree 5 for the sine, the first terms of the area-tangent
    series for the logarithm, the chord of x^y between y = 0 and y = 1 (so
    that 10^0 = 1 and 10^1 = 10 are exact, as in Go), and a linear
    congruential generator.  Every theorem of the development is stated for
    all instances; the stand-ins serve the concrete runs at the end. *)

Module Standin.

Local Open Scope float_scope.

Definition sin (x : float) : float :=
  x - x * x * x / 6 + x * x * x * x * x / 120.

Definition log10 (x : float) : float :=
  let z := (x - 1) / (x + 1) in
  0.8685889638065036 * (z + z * z * z / 3 + z * z * z * z * z / 5).

Definition pow (x y : float) : float := 1 + y * (x - 1).

Definition math : MathLib := {| Sin := sin; Log10 := log10; Pow := pow |}.

(** A linear congruential generator whose draws lie in [-1, 1]. *)
Definition next (s : Z) : Z := ((1103515245 * s + 12345) mod 2147483648)%Z.
Definition draw (s : Z) : float := F64.of_int (s mod 2001 - 1000) / 1000.

Definition rand : RandSource :=
  {| rng := Z; NewSource := fun seed => (seed mod 2147483648)%Z;
     NormFloat64 := fun s => (draw s, next s) |}.

Definition dflt : DefaultSource :=
  {| dstate := Z; defaultSeed := fun seed _ => (seed mod 2147483648)%Z;
     defaultNormFloat64 := fun s => (draw s, next s) |}.

(** A default generator that [rand.Seed] leaves as it is. *)
Definition unseeded : DefaultSource :=
  {| dstate := Z; defaultSeed := fun _ s => s;
     defaultNormFloat64 := fun s => (draw s, next s) |}.

(** Twenty samples: 20 Hz for one second, a 0.05 Hz message on a 0.2 Hz
    carrier. *)
Definition params : SignalParams :=
  {| SamplingRate := 20; Duration := 1; MessageFreq := 0.05; CarrierFreq := 0.2;
     MessageAmp := 1; CarrierAmp := 1; ModulationIdx := 0.5 |}.

End Standin.

(** Three schedules of a run with two jobs. *)

(** Worker 0 receives both jobs; results arrive in sending order. *)
Definition allToFirst : Schedule :=
  {| owner := fun _ => 0%nat; amArrival := fun l => l; fmArrival := fun l => l |}.

(** The same assignment, the results arriving in reverse order. *)
Definition allToFirstReversed : Schedule :=
  {| owner := fun _ => 0%nat; amArrival := @rev _; fmArrival := @rev _ |}.

(** Job k goes to worker k; results arrive in sending order. *)
Definition oneEach : Schedule :=
  {| owner := fun k => k; amArrival := fun l => l; fmArrival := fun l => l |}.

(** A sweep of two SNR points on two workers. *)
Definition twoPoints (seed numIterations : Z) (snr0 snr1 : float) : MonteCarloConfig :=
  {| MonteCarloConfig.NumIterations := numIterations;
     MonteCarloConfig.SNRRange := [snr0; snr1];
     MonteCarloConfig.Seed := seed; MonteCarloConfig.UseParallel := true;
     MonteCarloConfig.NumWorkers := 2%Z; MonteCarloConfig.ProgressReport := false;
     MonteCarloConfig.SaveDetailed := false |}.

(** A parallel run on the stand-ins: four workers, a seed from the secure
    source. *)
Definition parallelConfig : SimulationConfig :=
  {| SimulationConfig.Seed := 0%Z; SimulationConfig.NumTrials := 2%Z;
     SimulationConfig.NumWorkers := 4%Z; SimulationConfig.SNRRange := [0; 10];
     SimulationConfig.UseParallel := true; SimulationConfig.PrintProgress := false |}.

Definition sampleEnv : Env (dflt := Standin.dflt) string :=
  Build_Env (dflt := Standin.dflt) string
    (inr [1; 2; 3; 4; 5; 6; 7; 8]%Z)     (* the secure source delivers eight bytes *)
    1500000000%Z 1000%Z 5000%Z           (* 1.5 s elapsed, allocation counters *)
    (7%Z : dstate (DefaultSource := Standin.dflt))
    (fun _ k t i => Standin.draw (Z.of_nat (k + 3 * t + 7 * i))).

(** The surroundings of a run that finds the unseeded default generator in
    the state [g]. *)
Definition unseededEnv (g : Z) : Env (dflt := Standin.unseeded) string :=
  Build_Env (dflt := Standin.unseeded) string
    (inr [1; 2; 3; 4; 5; 6; 7; 8]%Z) 1500000000%Z 1000%Z 5000%Z
    (g : dstate (DefaultSource := Standin.unseeded))
    (fun _ k t i => Standin.draw (Z.of_nat (k + 3 * t + 7 * i))).

Local Close Scope float_scope.

(** * Facts about binary64 arithmetic

    The kernel specifies the primitive operations on [float] through
    [Prim2SF] and the operations on [spec_float].  What the program's
    properties need are sign facts: a sum of non-negative numbers is
    non-negative, a square is non-negative, none of them is NaN. *)

Module SFFacts.

Import SF.

Lemma signed_notnan s x : signed s x -> notnan x.
Proof. destruct x; simpl; auto. Qed.

Lemma signed_false_nonneg x : signed false x -> nonneg x.
Proof. destruct x as [s|s| |s m e]; simpl; intros H; try subst s; auto. Qed.

Lemma shr_1_nonneg r : 0 <= shr_m r -> 0 <= shr_m (shr_1 r).
Proof.
  destruct r as [m r s]; simpl.
  destruct m as [|p|p]; simpl; try lia; destruct p; simpl; lia.
Qed.

Lemma iter_shr_1_nonneg p : forall r, 0 <= shr_m r -> 0 <= shr_m (SpecFloat.iter_pos shr_1 p r).
Proof.
  induction p as [p IH|p IH|]; intros r Hr; simpl.
  - apply IH, IH, shr_1_nonneg, Hr.
  - apply IH, IH, Hr.
  - apply shr_1_nonneg, Hr.
Qed.

Lemma shr_fexp_nonneg m e l :
  0 <= m -> 0 <= shr_m (fst (shr_fexp prec emax m e l)).
Proof.
  intros Hm. unfold shr_fexp, shr.
  assert (H0 : 0 <= shr_m (shr_record_of_loc m l)) by (destruct l as [|[]]; exact Hm).
  destruct (fexp prec emax (Zdigits2 m + e) - e); simpl; auto.
  apply iter_shr_1_nonneg, H0.
Qed.

Lemma round_nearest_even_nonneg m l : 0 <= m -> 0 <= round_nearest_even m l.
Proof.
  intros Hm. destruct l as [|[]]; simpl; try lia.
  destruct (Z.even m); lia.
Qed.

Lemma binary_round_aux_signed sx mx ex lx :
  0 <= mx -> signed sx (binary_round_aux prec emax sx mx ex lx).
Proof.
  intros Hm. unfold binary_round_aux.
  pose proof (shr_fexp_nonneg mx ex lx Hm) as H1.
  destruct (shr_fexp prec emax mx ex lx) as [mrs' e']. simpl in H1.
  pose proof (shr_fexp_nonneg _ e' loc_Exact
                (round_nearest_even_nonneg _ (loc_of_shr_record mrs') H1)) as H2.
  destruct (shr_fexp prec emax _ e' loc_Exact) as [mrs'' e'']. simpl in H2.
  destruct (shr_m mrs'') as [|p|p]; simpl; try reflexivity; try lia.
  match goal with |- context [if ?b then _ else _] => destruct b end; reflexivity.
Qed.

Lemma binary_round_signed s m e : signed s (binary_round prec emax s m e).
Proof.
  unfold binary_round.
  destruct (shl_align m e _) as [mz ez].
  apply binary_round_aux_signed. lia.
Qed.

Lemma binary_normalize_notnan m e sz : notnan (binary_normalize prec emax m e sz).
Proof.
  destruct m; simpl; auto; eapply signed_notnan, binary_round_signed.
Qed.

Lemma binary_normalize_nonneg m e : 0 <= m -> nonneg (binary_normalize prec emax m e false).
Proof.
  destruct m; simpl; intros; auto; try lia.
  apply signed_false_nonneg, binary_round_signed.
Qed.

(** Products, sums, quotients and square roots. *)
Lemma mul_self_nonneg x : notnan x -> nonneg (SF64mul x x).
Proof.
  destruct x as [s|s| |s m e]; try (simpl; tauto); try (destruct s; simpl; tauto).
  intros _. unfold SF64mul, SFmul.
  replace (xorb s s) with false by (destruct s; reflexivity).
  apply signed_false_nonneg, binary_round_aux_signed. lia.
Qed.

Lemma add_nonneg x y : nonneg x -> nonneg y -> nonneg (SF64add x y).
Proof.
  destruct x as [sx|[]| |[] mx ex], y as [sy|[]| |[] my ey];
    try (simpl; tauto); try (destruct sx, sy; simpl; tauto).
  intros _ _. unfold SF64add, SFadd. apply binary_normalize_nonneg.
  cbv [cond_Zopp]. lia.
Qed.

Lemma add_finite_notnan x y : notnan x -> finite y -> notnan (SF64add x y).
Proof.
  destruct x as [sx|sx| |sx mx ex], y as [sy|sy| |sy my ey];
    try (simpl; tauto); try (destruct sx, sy; simpl; tauto).
  intros _ _. unfold SF64add, SFadd. apply binary_normalize_notnan.
Qed.

Lemma sub_finite_notnan x y : finite x -> notnan y -> notnan (SF64sub x y).
Proof.
  destruct x as [sx|sx| |sx mx ex], y as [sy|sy| |sy my ey];
    try (simpl; tauto); try (destruct sx, sy; simpl; tauto).
  intros _ _. unfold SF64sub, SFsub. apply binary_normalize_notnan.
Qed.

Lemma div_core_nonneg m1 e1 m2 e2 :
  0 <= fst (fst (SFdiv_core_binary prec emax (Zpos m1) e1 (Zpos m2) e2)).
Proof.
  unfold SFdiv_core_binary.
  set (s := _ - _ - Z.min _ _).
  set (m' := match s with Z0 => _ | Zpos _ => _ | Zneg _ => _ end).
  assert (Hm' : 0 <= m').
  { subst m'. destruct s; try lia. apply Z.shiftl_nonneg. lia. }
  pose proof (Z.div_pos m' (Zpos m2) Hm' ltac:(lia)) as Hq.
  unfold Z.div in Hq.
  destruct (Z.div_eucl m' (Zpos m2)) as [q r]. simpl. exact Hq.
Qed.

Lemma div_positive_notnan x y : notnan x -> positive y -> notnan (SF64div x y).
Proof.
  destruct x as [sx|sx| |sx mx ex], y as [sy|sy| |[] my ey]; try (simpl; tauto).
  intros _ _. unfold SF64div, SFdiv.
  pose proof (div_core_nonneg mx ex my ey) as H.
  destruct (SFdiv_core_binary prec emax (Zpos mx) ex (Zpos my) ey) as [[mz ez] lz].
  simpl in H. eapply signed_notnan, binary_round_aux_signed, H.
Qed.

Lemma div_positive_nonneg x y : nonneg x -> positive y -> nonneg (SF64div x y).
Proof.
  destruct x as [sx|[]| |[] mx ex], y as [sy|sy| |[] my ey]; try (simpl; tauto).
  intros _ _. unfold SF64div, SFdiv.
  pose proof (div_core_nonneg mx ex my ey) as H.
  destruct (SFdiv_core_binary prec emax (Zpos mx) ex (Zpos my) ey) as [[mz ez] lz].
  simpl in H. apply signed_false_nonneg, binary_round_aux_signed, H.
Qed.

Lemma sqrt_nonneg x : nonneg x -> nonneg (SF64sqrt x).
Proof.
  destruct x as [sx|[]| |[] mx ex]; try (simpl; tauto).
  intros _. unfold SF64sqrt, SFsqrt, SFsqrt_core_binary.
  match goal with |- context [Z.sqrtrem ?m] => set (m' := m) end.
  pose proof (Z.sqrt_nonneg m') as Hq.
  rewrite <- Z.sqrtrem_sqrt in Hq.
  destruct (Z.sqrtrem m') as [q r]. simpl in Hq.
  apply signed_false_nonneg, binary_round_aux_signed, Hq.
Qed.

Lemma abs_nonneg x : notnan x -> nonneg (SFabs x).
Proof. destruct x; simpl; auto. Qed.

Lemma shr_1_div2 r : 0 <= shr_m r -> shr_m (shr_1 r) = shr_m r / 2.
Proof.
  destruct r as [m r s]; simpl. intros Hm.
  destruct m as [|p|p]; try lia; [reflexivity|].
  destruct p as [p|p|]; simpl.
  - rewrite Pos2Z.inj_xI. apply Z.div_unique with (r := 1); lia.
  - rewrite Pos2Z.inj_xO. apply Z.div_unique with (r := 0); lia.
  - reflexivity.
Qed.

Lemma pow2_double p : 2 ^ Zpos p * 2 ^ Zpos p = 2 ^ Zpos (xO p).
Proof. rewrite <- Z.pow_add_r by lia. f_equal. lia. Qed.

Lemma iter_shr_1_div p : forall r,
  0 <= shr_m r -> shr_m (SpecFloat.iter_pos shr_1 p r) = shr_m r / 2 ^ Zpos p.
Proof.
  induction p as [p IH|p IH|]; intros r Hr; simpl SpecFloat.iter_pos.
  - rewrite IH by (apply iter_shr_1_nonneg, shr_1_nonneg, Hr).
    rewrite IH by (apply shr_1_nonneg, Hr).
    rewrite shr_1_div2 by exact Hr.
    assert (0 < 2 ^ Zpos p) by (apply Z.pow_pos_nonneg; lia).
    rewrite !Z.div_div by lia.
    f_equal. rewrite pow2_double.
    change (Zpos p~1) with (Z.succ (Zpos p~0)).
    rewrite Z.pow_succ_r by lia. reflexivity.
  - rewrite IH by (apply iter_shr_1_nonneg, Hr).
    rewrite IH by exact Hr.
    assert (0 < 2 ^ Zpos p) by (apply Z.pow_pos_nonneg; lia).
    rewrite !Z.div_div by lia.
    f_equal. apply pow2_double.
  - rewrite shr_1_div2 by exact Hr. reflexivity.
Qed.

Lemma digits2_pos_lb p : 2 ^ (Zpos (digits2_pos p) - 1) <= Zpos p.
Proof.
  induction p as [p IH|p IH|]; simpl digits2_pos.
  - rewrite Pos2Z.inj_succ. replace (Z.succ (Zpos (digits2_pos p)) - 1)
      with (Z.succ (Zpos (digits2_pos p) - 1)) by lia.
    rewrite Z.pow_succ_r by lia. lia.
  - rewrite Pos2Z.inj_succ. replace (Z.succ (Zpos (digits2_pos p)) - 1)
      with (Z.succ (Zpos (digits2_pos p) - 1)) by lia.
    rewrite Z.pow_succ_r by lia. lia.
  - simpl. lia.
Qed.

Lemma digits2_pos_ub p k : 0 <= k -> Zpos p < 2 ^ k -> Zpos (digits2_pos p) <= k.
Proof.
  intros Hk Hp. pose proof (digits2_pos_lb p) as Hlb.
  destruct (Z_le_gt_dec (Zpos (digits2_pos p)) k) as [|Hgt]; [assumption|].
  exfalso.
  assert (2 ^ k <= 2 ^ (Zpos (digits2_pos p) - 1)) by (apply Z.pow_le_mono_r; lia).
  lia.
Qed.

(** One shifting stage of the rounding: in the normal range a positive
    mantissa stays positive and the exponent grows by at most the number of
    digits. *)
Lemma shr_fexp_stage m e l :
  0 < m -> -1021 <= Zdigits2 m + e ->
  exists r e', shr_fexp prec emax m e l = (r, e') /\
               0 < shr_m r <= m /\ e <= e' <= e + Zdigits2 m.
Proof.
  intros Hm He. destruct m as [|p|p]; try lia.
  unfold shr_fexp, shr. simpl Zdigits2 in *.
  set (d := Zpos (digits2_pos p)) in *.
  assert (Hf : fexp prec emax (d + e) - e = d - 53).
  { unfold fexp, emin. change prec with 53. change emax with 1024. lia. }
  rewrite Hf.
  assert (H0 : shr_m (shr_record_of_loc (Zpos p) l) = Zpos p) by (destruct l as [|[]]; reflexivity).
  destruct (d - 53) as [|k|k] eqn:Hk.
  - eexists _, _. split; [reflexivity|]. rewrite H0. lia.
  - eexists _, _. split; [reflexivity|].
    rewrite iter_shr_1_div by (rewrite H0; lia). rewrite H0.
    pose proof (digits2_pos_lb p) as Hlb. fold d in Hlb.
    assert (Hpow : 2 ^ Zpos k <= 2 ^ (d - 1)) by (apply Z.pow_le_mono_r; lia).
    assert (Hpos : 0 < 2 ^ Zpos k) by (apply Z.pow_pos_nonneg; lia).
    split; [split|lia].
    + apply Z.div_str_pos. lia.
    + apply Z.div_le_upper_bound; [lia|]. nia.
  - eexists _, _. split; [reflexivity|]. rewrite H0. lia.
Qed.

Lemma round_nearest_even_bounds m l : 0 < m -> m <= round_nearest_even m l <= m + 1.
Proof. intros Hm. destruct l as [|[]]; simpl; try lia. destruct (Z.even m); lia. Qed.

Lemma Zdigits2_ub m k : 0 < m -> 0 <= k -> m < 2 ^ k -> 0 < Zdigits2 m <= k.
Proof.
  intros Hm Hk Hlt. destruct m as [|p|p]; try lia. simpl.
  split; [lia|]. apply digits2_pos_ub; assumption.
Qed.

Lemma binary_round_aux_positive m e l :
  0 < m < 2 ^ 120 -> -60 <= e <= 100 ->
  positive (binary_round_aux prec emax false m e l).
Proof.
  intros Hm He. unfold binary_round_aux.
  pose proof (Zdigits2_ub m 120 ltac:(lia) ltac:(lia) ltac:(lia)) as Hd.
  destruct (shr_fexp_stage m e l ltac:(lia) ltac:(lia)) as (r1 & e1 & -> & Hr1 & He1).
  set (m2 := round_nearest_even (shr_m r1) (loc_of_shr_record r1)).
  pose proof (round_nearest_even_bounds (shr_m r1) (loc_of_shr_record r1) ltac:(lia)) as Hm2.
  fold m2 in Hm2.
  assert (Hm2' : m2 < 2 ^ 121).
  { replace (2 ^ 121) with (2 * 2 ^ 120) by (rewrite <- Z.pow_succ_r by lia; reflexivity). lia. }
  pose proof (Zdigits2_ub m2 121 ltac:(lia) ltac:(lia) Hm2') as Hd2.
  destruct (shr_fexp_stage m2 e1 loc_Exact ltac:(lia) ltac:(lia)) as (r2 & e2 & -> & Hr2 & He2).
  destruct (shr_m r2) as [|q|q] eqn:Hq; try lia.
  replace (e2 <=? emax - prec) with true; [exact I|].
  symmetry. apply Z.leb_le. change (emax - prec) with 971. lia.
Qed.

Lemma shl_align_value mx ex ex' :
  let '(mz, ez) := shl_align mx ex ex' in
  ez <= ex /\ Zpos mz = Zpos mx * 2 ^ (ex - ez) /\ (ez = ex \/ ez = ex').
Proof.
  unfold shl_align. destruct (ex' - ex) as [|d|d] eqn:Hd.
  - rewrite Z.sub_diag. simpl. lia.
  - rewrite Z.sub_diag. simpl. lia.
  - split; [lia|]. split; [|lia].
    replace (ex - ex') with (Zpos d) by lia.
    clear Hd. induction d as [|d IH] using Pos.peano_ind.
    + simpl. lia.
    + rewrite Pos.iter_succ, Pos2Z.inj_xO, Pos2Z.inj_succ, Z.pow_succ_r by lia.
      lia.
Qed.

(** [float64(z)] is a positive finite number for every [z] from 1 up to
    the largest [int]. *)
Lemma binary_normalize_positive z :
  1 <= z < 2 ^ 63 -> positive (binary_normalize prec emax z 0 false).
Proof.
  intros Hz. destruct z as [|p|p]; try lia. simpl binary_normalize.
  unfold binary_round.
  pose proof (digits2_pos_ub p 63 ltac:(lia) ltac:(lia)) as Hd.
  pose proof (shl_align_value p 0 (fexp prec emax (Zpos (digits2_pos p) + 0))) as Hs.
  assert (Hf : fexp prec emax (Zpos (digits2_pos p) + 0) = Zpos (digits2_pos p) - 53).
  { unfold fexp, emin. change prec with 53. change emax with 1024. lia. }
  rewrite Hf in *.
  destruct (shl_align p 0 _) as [mz ez]. destruct Hs as (Hez & Hmz & Hcase).
  apply binary_round_aux_positive; [|lia].
  rewrite Hmz. split; [lia|].
  assert (2 ^ (0 - ez) <= 2 ^ 52) by (apply Z.pow_le_mono_r; lia).
  assert (0 < 2 ^ (0 - ez)) by (apply Z.pow_pos_nonneg; lia).
  replace (2 ^ 120) with (2 ^ 63 * 2 ^ 57) by (rewrite <- Z.pow_add_r by lia; reflexivity).
  assert (2 ^ 52 < 2 ^ 57) by (apply Z.pow_lt_mono_r; lia).
  nia.
Qed.

(** The comparison is the lexicographic order of the keys. *)
Lemma SFltb_key (x y : spec_float) :
  SFltb x y = true <-> notnan x /\ notnan y /\ lexlt (key x) (key y).
Proof.
  unfold SFltb.
  destruct x as [[]|[]| |[] mx ex], y as [[]|[]| |[] my ey];
    cbn [SFcompare key lexlt notnan];
    try (split; [discriminate | intros (_ & _ & Hlex); lia]);
    try (split; [reflexivity || (intros _; repeat split; lia) | reflexivity]);
    try (split; [intros _; repeat split; lia | reflexivity]);
    try (split; [discriminate | tauto]).
  - change (Pos.compare_cont Eq mx my) with (Pos.compare mx my).
    destruct (Z.compare_spec ex ey), (Pos.compare_spec mx my); simpl;
      (split; [discriminate || (intros _; repeat split; lia) | ]);
      try reflexivity; intros (_ & _ & Hlex); lia.
  - change (Pos.compare_cont Eq mx my) with (Pos.compare mx my).
    destruct (Z.compare_spec ex ey), (Pos.compare_spec mx my); simpl;
      (split; [discriminate || (intros _; repeat split; lia) | ]);
      try reflexivity; intros (_ & _ & Hlex); lia.
Qed.
End SFFacts.

Module F64Facts.

Local Open Scope float_scope.

Lemma Prim2SF_zero : Prim2SF 0 = S754_zero false.
Proof. reflexivity. Qed.

Lemma Prim2SF_infinity : Prim2SF infinity = S754_infinity false.
Proof. reflexivity. Qed.

Lemma SFcompare_refl x : SF.notnan x -> SFcompare x x = Some Eq.
Proof.
  destruct x as [s|s| |s m e]; simpl; try tauto; intros _.
  - destruct s; reflexivity.
  - rewrite Z.compare_refl, Pos.compare_cont_refl. destruct s; reflexivity.
Qed.

Lemma is_nan_false x : is_nan x = false <-> SF.notnan (Prim2SF x).
Proof.
  unfold is_nan. rewrite FloatAxioms.eqb_spec. unfold SFeqb. split.
  - intros H. destruct (Prim2SF x); simpl in *; auto; discriminate.
  - intros H. rewrite SFcompare_refl by assumption. reflexivity.
Qed.

Lemma is_finite_true x : is_finite x = true -> SF.finite (Prim2SF x).
Proof.
  unfold is_finite, is_nan, is_infinity.
  rewrite !FloatAxioms.eqb_spec, FloatAxioms.abs_spec, Prim2SF_infinity.
  destruct (Prim2SF x) as [s|[]| |s m e]; try (intros _; exact I);
    cbv; discriminate.
Qed.

Lemma leb_zero x : (0 <=? x) = true <-> SF.nonneg (Prim2SF x).
Proof.
  rewrite FloatAxioms.leb_spec, Prim2SF_zero. unfold SFleb.
  destruct (Prim2SF x) as [s|[]| |[] m e]; cbv; split; auto; discriminate.
Qed.

Lemma nonneg_notnan x : SF.nonneg x -> SF.notnan x.
Proof. destruct x; simpl; auto. Qed.

Lemma finite_notnan x : SF.finite x -> SF.notnan x.
Proof. destruct x; simpl; auto. Qed.

Lemma positive_of_int z :
  (1 <= z < 2 ^ 63)%Z -> SF.positive (Prim2SF (F64.of_int z)).
Proof.
  intros Hz. unfold F64.of_int.
  replace (z <? 0)%Z with false by (symmetry; apply Z.ltb_ge; lia).
  rewrite FloatAxioms.of_uint63_spec, Uint63.of_Z_spec.
  rewrite Z.mod_small by (change Uint63.wB with (2 ^ 63)%Z; lia).
  apply SFFacts.binary_normalize_positive, Hz.
Qed.

(** A running sum of non-negative terms, started at a non-negative value. *)
Lemma fold_add_nonneg {A : Type} (term : A -> float) (xs : list A) :
  Forall (fun x => SF.nonneg (Prim2SF (term x))) xs ->
  forall acc, SF.nonneg (Prim2SF acc) ->
  SF.nonneg (Prim2SF (fold_left (fun acc x => acc + term x) xs acc)).
Proof.
  induction 1 as [|x xs Hx _ IH]; intros acc Hacc; simpl; [exact Hacc|].
  apply IH. rewrite FloatAxioms.add_spec. apply SFFacts.add_nonneg; assumption.
Qed.

(** A running sum of finite terms is never NaN. *)
Lemma fold_add_notnan (xs : list float) :
  Forall (fun x => SF.finite (Prim2SF x)) xs ->
  forall acc, SF.notnan (Prim2SF acc) ->
  SF.notnan (Prim2SF (fold_left (fun acc x => acc + x) xs acc)).
Proof.
  induction 1 as [|x xs Hx _ IH]; intros acc Hacc; simpl; [exact Hacc|].
  apply IH. rewrite FloatAxioms.add_spec. apply SFFacts.add_finite_notnan; assumption.
Qed.

(** The strict order of binary64. *)
Lemma ltb_irrefl (x : float) : (x <? x) = false.
Proof.
  rewrite FloatAxioms.ltb_spec.
  destruct (SFltb (Prim2SF x) (Prim2SF x)) eqn:E; [|reflexivity].
  apply SFFacts.SFltb_key in E. destruct E as (_ & _ & E).
  unfold SF.lexlt in E. destruct (SF.key (Prim2SF x)) as [[a b] c]. lia.
Qed.

Lemma ltb_trans (a b c : float) :
  (a <? b) = true -> (b <? c) = true -> (a <? c) = true.
Proof.
  rewrite !FloatAxioms.ltb_spec, !SFFacts.SFltb_key.
  intros (Ha & _ & Hab) (_ & Hc & Hbc). repeat split; try assumption.
  unfold SF.lexlt in *.
  destruct (SF.key (Prim2SF a)) as [[a1 a2] a3], (SF.key (Prim2SF b)) as [[b1 b2] b3],
           (SF.key (Prim2SF c)) as [[c1 c2] c3]. lia.
Qed.

Lemma ltb_not_above (m m' x : float) :
  (m <? m') = true -> (m <? x) = false -> (m' <? x) = false.
Proof.
  intros Hm Hx. destruct (m' <? x) eqn:E; [|reflexivity].
  rewrite (ltb_trans _ _ _ Hm E) in Hx. discriminate.
Qed.

(** What is not above -Inf (-Inf itself, or NaN) is above nothing. *)
Lemma ltb_neg_infinity (x y : float) :
  (neg_infinity <? x) = false -> (y <? x) = false.
Proof.
  rewrite !FloatAxioms.ltb_spec.
  change (Prim2SF neg_infinity) with (S754_infinity true).
  destruct (Prim2SF x) as [[]|[]| |[] mx ex], (Prim2SF y) as [[]|[]| |[] my ey];
    cbn; congruence.
Qed.

Lemma ltb_notnan (x y : float) : (x <? y) = true -> is_nan x = false /\ is_nan y = false.
Proof.
  rewrite FloatAxioms.ltb_spec, SFFacts.SFltb_key, !F64Facts.is_nan_false. tauto.
Qed.

(** [c <= m < c'] gives [c < c'], for a number [c]. *)
Lemma not_above_ltb (m c c' : float) :
  is_nan c = false -> (m <? c) = false -> (m <? c') = true -> (c <? c') = true.
Proof.
  intros Hc Hmc Hmc'. pose proof Hmc' as Hm. apply ltb_notnan in Hm as [Hm _].
  apply F64Facts.is_nan_false in Hc, Hm.
  rewrite FloatAxioms.ltb_spec in Hmc, Hmc' |- *.
  apply SFFacts.SFltb_key in Hmc' as (_ & Hc' & Hlt).
  apply SFFacts.SFltb_key. repeat split; try assumption.
  assert (Hnot : ~ SF.lexlt (SF.key (Prim2SF m)) (SF.key (Prim2SF c))).
  { intros H. rewrite (proj2 (SFFacts.SFltb_key _ _)) in Hmc by tauto. discriminate. }
  unfold SF.lexlt in *.
  destruct (SF.key (Prim2SF m)) as [[m1 m2] m3], (SF.key (Prim2SF c)) as [[c1 c2] c3],
           (SF.key (Prim2SF c')) as [[d1 d2] d3]. lia.
Qed.
End F64Facts.

(** ** Signs and order with NaN admitted *)

Module SFSignFacts.
Import SF SFSign.

Lemma add_notnan_inv x y : notnan (SF64add x y) -> notnan x /\ notnan y.
Proof.
  destruct x as [sx|sx| |sx mx ex], y as [sy|sy| |sy my ey]; simpl; tauto.
Qed.

Lemma mul_notnan_inv x y : notnan (SF64mul x y) -> notnan x /\ notnan y.
Proof.
  destruct x as [sx|sx| |sx mx ex], y as [sy|sy| |sy my ey]; simpl; tauto.
Qed.

Lemma div_notnan_inv x y : notnan (SF64div x y) -> notnan x /\ notnan y.
Proof.
  destruct x as [sx|sx| |sx mx ex], y as [sy|sy| |sy my ey]; simpl; tauto.
Qed.

Lemma sqrt_notnan_inv x : notnan (SF64sqrt x) -> notnan x.
Proof. destruct x as [sx|sx| |sx mx ex]; simpl; tauto. Qed.

Lemma mul_self_unsigned x : unsigned (SF64mul x x).
Proof.
  intros H. apply SFFacts.mul_self_nonneg. now apply mul_notnan_inv in H.
Qed.

Lemma add_unsigned x y : unsigned x -> unsigned y -> unsigned (SF64add x y).
Proof.
  intros Hx Hy H. destruct (add_notnan_inv _ _ H) as [Nx Ny].
  apply SFFacts.add_nonneg; auto.
Qed.

Lemma sqrt_unsigned x : unsigned x -> unsigned (SF64sqrt x).
Proof.
  intros Hx H. apply SFFacts.sqrt_nonneg, Hx, sqrt_notnan_inv, H.
Qed.

Lemma abs_unsigned x : unsigned (SFabs x).
Proof. intros H. destruct x; simpl in *; auto. Qed.

(** The sign of a product. *)
Lemma mul_signed sx sy x y :
  signed sx x -> signed sy y -> notnan (SF64mul x y) -> signed (xorb sx sy) (SF64mul x y).
Proof.
  destruct x as [s1|s1| |s1 mx ex], y as [s2|s2| |s2 my ey]; simpl;
    try tauto; try (intros -> -> _; reflexivity).
  intros -> -> _. apply SFFacts.binary_round_aux_signed. lia.
Qed.

(** Division by a number whose sign bit is clear. *)
Lemma div_plus_unsigned x y : unsigned x -> plus y -> unsigned (SF64div x y).
Proof.
  intros Hx Hy H. destruct (div_notnan_inv _ _ H) as [Nx _].
  specialize (Hx Nx). revert Hx Hy H.
  destruct x as [sx|[]| |[] mx ex], y as [sy|sy| |sy my ey]; simpl; try tauto;
    try (intros _ -> _; exact I).
  intros _ -> _. unfold SF64div, SFdiv.
  pose proof (SFFacts.div_core_nonneg mx ex my ey) as H0.
  destruct (SFdiv_core_binary prec emax (Zpos mx) ex (Zpos my) ey) as [[mz ez] lz].
  simpl in H0. apply SFFacts.signed_false_nonneg, SFFacts.binary_round_aux_signed, H0.
Qed.

Lemma binary_normalize_plus m e : 0 <= m -> plus (binary_normalize prec emax m e false).
Proof.
  destruct m; simpl; intros; try lia; try reflexivity.
  apply SFFacts.binary_round_signed.
Qed.

Lemma SFcompare_antisym x y : SFcompare y x = option_map CompOpp (SFcompare x y).
Proof.
  destruct x as [[]|[]| |[] mx ex], y as [[]|[]| |[] my ey]; simpl; try reflexivity;
    change (Pos.compare_cont Eq my mx) with (Pos.compare my mx);
    change (Pos.compare_cont Eq mx my) with (Pos.compare mx my);
    rewrite (Z.compare_antisym ex ey), (Pos.compare_antisym mx my);
    destruct (ex ?= ey); simpl; try reflexivity;
    destruct (Pos.compare mx my); reflexivity.
Qed.

Lemma SFleb_ltb x y :
  SFleb x y = true <-> notnan x /\ notnan y /\ SFltb y x = false.
Proof.
  unfold SFleb, SFltb. rewrite (SFcompare_antisym x y).
  destruct x as [[]|[]| |[] mx ex], y as [[]|[]| |[] my ey]; simpl;
    try (split; [intros; repeat split; auto; discriminate | reflexivity]);
    try (split; [discriminate | intros (_ & _ & ?); discriminate]);
    try (split; [discriminate | tauto]);
    destruct (ex ?= ey); simpl;
    try (split; [intros; repeat split; auto; discriminate | reflexivity]);
    try (split; [discriminate | intros (_ & _ & ?); discriminate]);
    destruct (Pos.compare_cont Eq mx my); simpl;
    try (split; [intros; repeat split; auto; discriminate | reflexivity]);
    try (split; [discriminate | intros (_ & _ & ?); discriminate]).
Qed.
End SFSignFacts.

Module F64SignFacts.
Import SF SFSign.
Local Open Scope float_scope.

Lemma ltb_zero_unsigned (x : float) : unsigned (Prim2SF x) -> (x <? 0) = false.
Proof.
  intros H. rewrite FloatAxioms.ltb_spec. change (Prim2SF 0) with (S754_zero false).
  unfold unsigned in H.
  destruct (Prim2SF x) as [s|[]| |[] m e]; try reflexivity; simpl in H; exfalso; tauto.
Qed.

Lemma leb_ltb (x y : float) :
  (x <=? y) = true <-> is_nan x = false /\ is_nan y = false /\ (y <? x) = false.
Proof.
  rewrite FloatAxioms.leb_spec, FloatAxioms.ltb_spec, SFSignFacts.SFleb_ltb,
    !F64Facts.is_nan_false. tauto.
Qed.

(** A number minus itself is +0, or NaN (for NaN and the infinities). *)
Lemma sub_self (x : float) :
  Prim2SF (x - x) = S754_zero false \/ Prim2SF (x - x) = S754_nan.
Proof.
  rewrite FloatAxioms.sub_spec.
  destruct (Prim2SF x) as [[]|[]| |s m e]; simpl; auto.
  left. unfold SF64sub, SFsub. cbv zeta. now rewrite Z.sub_diag.
Qed.

Lemma abs_sub_self_small (tolerance x : float) :
  (0 <=? tolerance) = true -> (tolerance <? abs (x - x)) = false.
Proof.
  intros H. apply F64Facts.leb_zero in H. revert H.
  rewrite FloatAxioms.ltb_spec, FloatAxioms.abs_spec.
  destruct (sub_self x) as [-> | ->]; simpl;
    destruct (Prim2SF tolerance) as [[]|[]| |[] m e]; simpl; tauto.
Qed.

Lemma SFmul_comm (x y : spec_float) : SF64mul x y = SF64mul y x.
Proof.
  destruct x as [sx|sx| |sx mx ex], y as [sy|sy| |sy my ey]; simpl;
    try reflexivity; try (now rewrite xorb_comm).
  unfold SF64mul, SFmul. now rewrite xorb_comm, Pos.mul_comm, Z.add_comm.
Qed.

Lemma mul_comm (x y : float) : x * y = y * x.
Proof.
  apply Prim2SF_inj. rewrite !FloatAxioms.mul_spec. apply SFmul_comm.
Qed.

Lemma plus_of_int (z : Z) : (0 <= z)%Z -> plus (Prim2SF (F64.of_int z)).
Proof.
  intros Hz. unfold F64.of_int.
  replace (z <? 0)%Z with false by (symmetry; apply Z.ltb_ge; lia).
  rewrite FloatAxioms.of_uint63_spec.
  apply SFSignFacts.binary_normalize_plus. apply Uint63.to_Z_bounded.
Qed.

(** A running sum of terms that are not negative. *)
Lemma fold_add_unsigned {A : Type} (term : A -> float) (xs : list A) :
  (forall x, unsigned (Prim2SF (term x))) ->
  forall acc, unsigned (Prim2SF acc) ->
  unsigned (Prim2SF (fold_left (fun acc x => acc + term x) xs acc)).
Proof.
  intros Hterm. induction xs as [|x xs IH]; intros acc Hacc; simpl; [exact Hacc|].
  apply IH. rewrite FloatAxioms.add_spec. apply SFSignFacts.add_unsigned; auto.
Qed.

Lemma zero_unsigned : unsigned (Prim2SF 0).
Proof. intros _. exact I. Qed.

End F64SignFacts.

(** * Properties *)

Section Properties.

Context {math : MathLib} {rand : RandSource} {dflt : DefaultSource}.

Local Open Scope float_scope.

(** ** Waveform generators on degenerate parameters *)

(** C6.  Claimed: every generator returns on degenerate parameters, a
    negative sampling rate included.  On the parameters of the repository's
    own robustness test (sampling rate -1000 Hz, duration 0.1 s) the sample
    count is [int(-100)], and [make] panics with a negative length in each
    of the four generators. *)
Theorem C6_negative_sampling_rate_panics :
  generateBaseband invalidParams = Abort PanicMakesliceLen /\
  generateCarrier invalidParams = Abort PanicMakesliceLen /\
  generateAM invalidParams = Abort PanicMakesliceLen /\
  generateFM invalidParams = Abort PanicMakesliceLen.
Proof. repeat split; reflexivity. Qed.

(** ** FM demodulator *)

(** C4.  Claimed: for every input of length n the FM demodulator returns
    an output of length n.  On the empty signal the unguarded assignment
    [quadSignal[0] = signal.Values[0]] panics. *)
Theorem C4_demodulateFM_empty_panics (time : list float) (params : SignalParams) :
  demodulateFM {| Time := time; Values := [] |} params = Abort PanicIndexOutOfRange.
Proof. reflexivity. Qed.

(** ** Signal metrics *)

Lemma fold_left_map_add {A : Type} (f : A -> float) (xs : list A) (acc : float) :
  fold_left PrimFloat.add (map f xs) acc = fold_left (fun a x => a + f x) xs acc.
Proof. revert acc. induction xs as [|x xs IH]; intros acc; simpl; auto. Qed.

Lemma signalPowerOf_meanSquare (xs : list float) : signalPowerOf xs = meanSquare xs.
Proof. unfold signalPowerOf, meanSquare. now rewrite fold_left_map_add. Qed.

Lemma snrLoop_sums (original noisy : list float) :
  length original = length noisy ->
  forall signalPower noisePower,
    snrLoop original noisy signalPower noisePower =
    Done (fold_left PrimFloat.add (map (fun x => x * x) original) signalPower,
          fold_left PrimFloat.add
            (map (fun x => x * x) (noiseOf original noisy)) noisePower).
Proof.
  revert noisy. induction original as [|o original IH]; intros [|c noisy] Hlen sp np;
    simpl in *; try discriminate; [reflexivity|].
  apply IH. congruence.
Qed.

Lemma length_noiseOf (original noisy : list float) :
  length original = length noisy -> length (noiseOf original noisy) = length original.
Proof. intros H. unfold noiseOf. rewrite length_zip_with. lia. Qed.

(** C7.  For equal-length signals the SNR metric returns
    [10 * log10 (signalPower / noisePower)], the powers being the means of
    the squares of the original samples and of the per-sample differences
    corrupted minus original, and [+Inf] when the noise power is zero; it
    does not panic.  [computeInputSNR] computes the same. *)
Theorem C7_calculateSNR_spec (original corrupted : Signal) :
  length (Values original) = length (Values corrupted) ->
  calculateSNR original corrupted = Done (snrOf (Values original) (Values corrupted)) /\
  computeInputSNR original corrupted = Done (snrOf (Values original) (Values corrupted)).
Proof.
  intros Hlen. unfold calculateSNR, computeInputSNR, snrOf, meanSquare.
  rewrite (snrLoop_sums _ _ Hlen). simpl.
  rewrite (length_noiseOf _ _ Hlen).
  split; destruct (_ =? 0); reflexivity.
Qed.

(** ** Noise injector *)

Lemma addAWGNWithRNG_loop_draws (sigma : float) (values : list float) (r : rng) :
  addAWGNWithRNG_loop sigma values r =
  (zip_with (fun v z => v + z * sigma) values (fst (draws (length values) r)),
   snd (draws (length values) r)).
Proof.
  revert r. induction values as [|v values IH]; intros r; simpl; [reflexivity|].
  destruct (NormFloat64 r) as [z r1]. rewrite IH.
  destruct (draws (length values) r1) as [zs r2]. reflexivity.
Qed.

Lemma addAWGN_loop_draws (sigma : float) (values : list float) (g : dstate) :
  addAWGN_loop sigma values g =
  (zip_with (fun v z => v + (z * sigma + 0)) values
            (fst (defaultDraws (length values) g)),
   snd (defaultDraws (length values) g)).
Proof.
  revert g. induction values as [|v values IH]; intros g; simpl; [reflexivity|].
  unfold Normal_Rand. destruct (defaultNormFloat64 g) as [z g1]. rewrite IH.
  destruct (defaultDraws (length values) g1) as [zs g2]. reflexivity.
Qed.

Lemma length_draws (n : nat) (r : rng) : length (fst (draws n r)) = n.
Proof.
  revert r. induction n as [|n IH]; intros r; simpl; [reflexivity|].
  destruct (NormFloat64 r) as [z r1]. specialize (IH r1).
  destruct (draws n r1). simpl in *. congruence.
Qed.

Lemma length_defaultDraws (n : nat) (g : dstate) : length (fst (defaultDraws n g)) = n.
Proof.
  revert g. induction n as [|n IH]; intros g; simpl; [reflexivity|].
  destruct (defaultNormFloat64 g) as [z g1]. specialize (IH g1).
  destruct (defaultDraws n g1). simpl in *. congruence.
Qed.

Lemma noiseStdDevOf_sigmaOf (xs : list float) (snrDB : float) :
  noiseStdDevOf xs snrDB = sigmaOf xs snrDB.
Proof. unfold noiseStdDevOf, sigmaOf. now rewrite signalPowerOf_meanSquare. Qed.

(** C3.  Both entry points of the noise injector return a new signal with
    the time axis of the input and as many samples; sample i is input
    sample i plus the i-th draw of the generator scaled by
    sigma = sqrt (meanSquare input / 10^(T/10)) (the generator's draws are
    the standard normal samples; the default-generator entry point adds the
    mean 0 to the scaled draw).  The generator is advanced by exactly one
    draw per sample.  The input is a value of the embedding and is not
    changed. *)
Theorem C3_noise_injector_spec (signal : Signal) (snrDB : float) (r : rng) (g : dstate) :
  let n := length (Values signal) in
  let sigma := sigmaOf (Values signal) snrDB in
  addAWGNWithRNG signal snrDB r =
    ({| Time := Time signal;
        Values := zip_with (fun v z => v + z * sigma) (Values signal) (fst (draws n r)) |},
     snd (draws n r)) /\
  addAWGN signal snrDB g =
    ({| Time := Time signal;
        Values := zip_with (fun v z => v + (z * sigma + 0)) (Values signal)
                           (fst (defaultDraws n g)) |},
     snd (defaultDraws n g)) /\
  length (Values (fst (addAWGNWithRNG signal snrDB r))) = n /\
  length (Values (fst (addAWGN signal snrDB g))) = n.
Proof.
  intros n sigma. unfold addAWGNWithRNG, addAWGN.
  rewrite noiseStdDevOf_sigmaOf, addAWGNWithRNG_loop_draws, addAWGN_loop_draws.
  fold n sigma. simpl.
  rewrite !length_zip_with, length_draws, length_defaultDraws.
  repeat split; lia.
Qed.

(** ** AM envelope detector *)

Lemma length_indices (n : nat) : length (indices n) = n.
Proof. unfold indices. now rewrite length_map, length_seq. Qed.

Lemma length_range (lo hi : Z) : length (range lo hi) = Z.to_nat (hi - lo + 1).
Proof. unfold range. now rewrite length_map, length_seq. Qed.

Lemma in_indices (n : nat) (i : Z) : In i (indices n) <-> (0 <= i < Z.of_nat n)%Z.
Proof.
  unfold indices. rewrite in_map_iff. split.
  - intros (k & <- & Hk). apply in_seq in Hk. lia.
  - intros Hi. exists (Z.to_nat i). split; [lia|]. apply in_seq. lia.
Qed.

Lemma window_fold (xs : list float) (js : list Z) (sum : float) (count : Z) :
  fold_left (fun '(sum, count) j => (sum + at_ xs j, (count + 1)%Z)) js (sum, count) =
  (fold_left (fun sum j => sum + at_ xs j) js sum, (count + Z.of_nat (length js))%Z).
Proof.
  revert sum count. induction js as [|j js IH]; intros sum count; simpl.
  - f_equal. lia.
  - rewrite IH. f_equal. lia.
Qed.

Lemma windowCount_bounds (n i : Z) :
  (0 <= i < n)%Z -> (1 <= windowCount n i <= windowSize + 1)%Z.
Proof.
  intros Hi. unfold windowCount, windowSize. change (20 / 2)%Z with 10%Z.
  destruct (Z.ltb_spec (i - 10) 0), (Z.geb_spec (i + 10) n); lia.
Qed.

Lemma movingAverageAt_unfold (xs : list float) (i : Z) :
  let n := Z.of_nat (length xs) in
  let start := if (i - windowSize / 2 <? 0)%Z then 0%Z else (i - windowSize / 2)%Z in
  let end_ := if (i + windowSize / 2 >=? n)%Z then (n - 1)%Z else (i + windowSize / 2)%Z in
  (0 <= i < n)%Z ->
  movingAverageAt xs i =
  fold_left (fun sum j => sum + at_ xs j) (range start end_) 0
  / F64.of_int (windowCount n i).
Proof.
  intros n start end_ Hi. unfold movingAverageAt. fold n start end_.
  rewrite window_fold, length_range. unfold windowCount. fold start end_.
  pose proof (windowCount_bounds n i Hi) as Hc. unfold windowCount in Hc.
  fold start end_ in Hc. do 2 f_equal. lia.
Qed.

Lemma at_nonneg (xs : list float) (j : Z) :
  Forall (fun x => SF.nonneg (Prim2SF x)) xs -> SF.nonneg (Prim2SF (at_ xs j)).
Proof.
  intros H. unfold at_. revert xs H. induction (Z.to_nat j) as [|k IH]; intros xs H.
  - destruct H; simpl; auto; exact I.
  - destruct H; simpl; auto; exact I.
Qed.

Lemma movingAverageAt_nonneg (xs : list float) (i : Z) :
  Forall (fun x => SF.nonneg (Prim2SF x)) xs ->
  (0 <= i < Z.of_nat (length xs))%Z ->
  (0 <=? movingAverageAt xs i) = true.
Proof.
  intros Hxs Hi. rewrite movingAverageAt_unfold by exact Hi.
  apply F64Facts.leb_zero. rewrite FloatAxioms.div_spec.
  apply SFFacts.div_positive_nonneg.
  - apply (F64Facts.fold_add_nonneg (at_ xs)); [|exact I].
    apply List.Forall_forall. intros j _. apply at_nonneg, Hxs.
  - apply F64Facts.positive_of_int.
    pose proof (windowCount_bounds _ i Hi). unfold windowSize in *. lia.
Qed.

(** C10 (as amended).  For every input signal without NaN samples, every
    output sample of the AM envelope detector is >= 0: it is a sum of
    absolute values divided by a positive count. *)
Theorem C10_demodulateAM_nonneg (signal : Signal) :
  Forall (fun v => is_nan v = false) (Values signal) ->
  Forall (fun y => (0 <=? y) = true) (Values (demodulateAM signal)).
Proof.
  intros Hnan. unfold demodulateAM. simpl.
  assert (Hrect : Forall (fun x => SF.nonneg (Prim2SF x)) (map abs (Values signal))).
  { apply List.Forall_map. eapply List.Forall_impl; [|exact Hnan].
    intros v Hv. simpl. rewrite FloatAxioms.abs_spec.
    apply SFFacts.abs_nonneg, F64Facts.is_nan_false, Hv. }
  apply List.Forall_map, List.Forall_forall. intros i Hi. simpl.
  apply movingAverageAt_nonneg; [exact Hrect|].
  rewrite length_map. apply in_indices, Hi.
Qed.

(** ** Trial runner and aggregator *)

Lemma length_fmLoop (params : SignalParams) (time : list float) :
  forall dt integral prev, length (fmLoop params dt integral prev time) = length time.
Proof. induction time as [|t time IH]; intros; simpl; [reflexivity|]. now rewrite IH. Qed.

(** What a generator returns once the time vector is known. *)
Lemma generators_of_time (params : SignalParams) (time : list float) :
  generateTimeVector params = Done time ->
  (exists s, generateBaseband params = Done s /\ Time s = time /\
             length (Values s) = length time) /\
  (exists s, generateCarrier params = Done s /\ Time s = time /\
             length (Values s) = length time) /\
  (exists s, generateAM params = Done s /\ Time s = time /\
             length (Values s) = length time) /\
  (exists s, generateFM params = Done s /\ Time s = time /\
             length (Values s) = length time).
Proof.
  intros Ht. unfold generateBaseband, generateCarrier, generateAM, generateFM.
  rewrite Ht. simpl.
  repeat split; eexists; (split; [reflexivity|]); simpl;
    rewrite ?length_map, ?length_fmLoop; auto.
Qed.

Lemma length_addAWGNWithRNG (signal : Signal) (snrDB : float) (r : rng) :
  length (Values (fst (addAWGNWithRNG signal snrDB r))) = length (Values signal).
Proof.
  unfold addAWGNWithRNG. rewrite addAWGNWithRNG_loop_draws. simpl.
  rewrite length_zip_with, length_draws. lia.
Qed.

Lemma length_demodulateAM (signal : Signal) :
  length (Values (demodulateAM signal)) = length (Values signal).
Proof. unfold demodulateAM. simpl. now rewrite length_map, length_indices. Qed.

Lemma demodulateFM_nonempty (signal : Signal) (params : SignalParams) :
  Values signal <> [] ->
  exists out, demodulateFM signal params = Done out /\ Time out = Time signal /\
              length (Values out) = length (Values signal).
Proof.
  intros Hne. unfold demodulateFM, quadSignalOf.
  destruct (Values signal) as [|v0 vs] eqn:Hv; [congruence|].
  eexists. split; [reflexivity|]. split; [reflexivity|].
  cbn [Values]. unfold discriminatorOutput.
  now repeat (rewrite length_map || rewrite length_indices).
Qed.

Lemma calculateSNR_equal_length (original corrupted : Signal) :
  length (Values original) = length (Values corrupted) ->
  calculateSNR original corrupted = Done (snrOf (Values original) (Values corrupted)).
Proof.
  intros Hlen. unfold calculateSNR, snrOf, meanSquare.
  rewrite (snrLoop_sums _ _ Hlen). simpl.
  rewrite (length_noiseOf _ _ Hlen).
  destruct (_ =? 0); reflexivity.
Qed.

(** A trial returns on every parameter set whose time vector exists, with
    at least one sample when the scheme is FM. *)
Lemma runTrial_total (modType : ModulationType) (params : SignalParams)
    (targetSNR : float) (time : list float) (r : rng) :
  modType = AM \/ modType = FM ->
  generateTimeVector params = Done time ->
  (modType = FM -> time <> []) ->
  exists outputSNR r', runTrial modType params targetSNR r = Done (outputSNR, r').
Proof.
  intros Hmod Ht Hne.
  destruct (generators_of_time params time Ht)
    as ((b & Hb & _ & Lb) & _ & (a & Ha & _ & La) & (f & Hf & _ & Lf)).
  unfold runTrial. rewrite Hb. simpl.
  destruct Hmod as [-> | ->]; simpl.
  - rewrite Ha. simpl.
    pose proof (length_addAWGNWithRNG a targetSNR r) as Ln.
    destruct (addAWGNWithRNG a targetSNR r) as [noisy r']. simpl in *.
    unfold computeOutputSNR. rewrite calculateSNR_equal_length.
    + simpl. eauto.
    + rewrite length_demodulateAM. congruence.
  - rewrite Hf. simpl.
    pose proof (length_addAWGNWithRNG f targetSNR r) as Ln.
    destruct (addAWGNWithRNG f targetSNR r) as [noisy r']. simpl in *.
    destruct (demodulateFM_nonempty noisy params) as (out & -> & _ & Lo).
    { intros E. apply (Hne eq_refl). apply length_zero_iff_nil.
      rewrite E in Ln. simpl in Ln. lia. }
    simpl. unfold computeOutputSNR. rewrite calculateSNR_equal_length.
    + simpl. eauto.
    + congruence.
Qed.

Lemma trialLoop_total (modType : ModulationType) (params : SignalParams)
    (targetSNR : float) (time : list float) :
  modType = AM \/ modType = FM ->
  generateTimeVector params = Done time ->
  (modType = FM -> time <> []) ->
  forall n r, exists ms r',
    trialLoop modType params targetSNR n r = Done (ms, r') /\
    length ms = n /\ runsOf modType params targetSNR r ms r'.
Proof.
  intros Hmod Ht Hne. induction n as [|n IH]; intros r; simpl.
  - exists [], r. repeat split. constructor.
  - destruct (runTrial_total modType params targetSNR time r Hmod Ht Hne) as (x & r1 & Hx).
    destruct (IH r1) as (ms & r2 & Hms & Hlen & Hruns).
    rewrite Hx. simpl. rewrite Hms. simpl.
    exists (x :: ms), r2. repeat split; [simpl; congruence|].
    econstructor; eassumption.
Qed.

Lemma calculateStdDev_nonneg (ms : list float) (mean : float) :
  (2 <= Z.of_nat (length ms) < 2 ^ 63)%Z ->
  Forall (fun x => is_finite x = true) ms ->
  SF.notnan (Prim2SF mean) ->
  (0 <=? calculateStdDev ms mean) = true.
Proof.
  intros Hn Hfin Hmean. unfold calculateStdDev.
  apply F64Facts.leb_zero. rewrite FloatAxioms.sqrt_spec. apply SFFacts.sqrt_nonneg.
  rewrite FloatAxioms.div_spec. apply SFFacts.div_positive_nonneg.
  - apply (F64Facts.fold_add_nonneg (fun val => (val - mean) * (val - mean)));
      [|exact I].
    eapply List.Forall_impl; [|exact Hfin]. intros x Hx. simpl.
    rewrite FloatAxioms.mul_spec. apply SFFacts.mul_self_nonneg.
    rewrite FloatAxioms.sub_spec. apply SFFacts.sub_finite_notnan; [|exact Hmean].
    apply F64Facts.is_finite_true, Hx.
  - apply F64Facts.positive_of_int. lia.
Qed.

Lemma calculateMean_notnan (ms : list float) :
  (1 <= Z.of_nat (length ms) < 2 ^ 63)%Z ->
  Forall (fun x => is_finite x = true) ms ->
  SF.notnan (Prim2SF (calculateMean ms)).
Proof.
  intros Hn Hfin. unfold calculateMean.
  rewrite FloatAxioms.div_spec. apply SFFacts.div_positive_notnan.
  - apply F64Facts.fold_add_notnan; [|exact I].
    eapply List.Forall_impl; [|exact Hfin]. intros x Hx.
    apply F64Facts.is_finite_true, Hx.
  - apply F64Facts.positive_of_int. lia.
Qed.

(** C8.  For parameters on which a trial returns (the time vector exists,
    with at least one sample for FM) and a trial count N >= 0, the
    aggregator returns one PerformanceResult, computed from exactly N
    successive runs of the trial runner on the given generator: its mean
    output SNR is the sum of all N measurements (none is dropped) divided
    by N, its standard deviation is the square root of the sum of squared
    deviations divided by N-1, and that standard deviation is >= 0 when the
    measurements are finite and N >= 2. *)
Theorem C8_aggregator_spec (modType : ModulationType) (params : SignalParams)
    (targetSNR : float) (numIterations : Z) (time : list float) (r : rng) :
  modType = AM \/ modType = FM ->
  generateTimeVector params = Done time ->
  (modType = FM -> time <> []) ->
  (0 <= numIterations < 2 ^ 63)%Z ->
  exists ms r' result,
    runSingleSNRSimulation modType params targetSNR numIterations r = Done (result, r') /\
    runsOf modType params targetSNR r ms r' /\
    Z.of_nat (length ms) = numIterations /\
    let mean := fold_left PrimFloat.add ms 0 / F64.of_int numIterations in
    PerformanceResult.OutputSNR_dB result = mean /\
    PerformanceResult.StdDev result =
      sqrt (fold_left PrimFloat.add (map (fun x => (x - mean) * (x - mean)) ms) 0
            / F64.of_int (numIterations - 1)) /\
    PerformanceResult.InputSNR_dB result = targetSNR /\
    PerformanceResult.ModulationType result = modType /\
    PerformanceResult.NumTrials result = numIterations /\
    ((2 <= numIterations)%Z -> Forall (fun x => is_finite x = true) ms ->
     (0 <=? PerformanceResult.StdDev result) = true).
Proof.
  intros Hmod Ht Hne Hn.
  destruct (trialLoop_total modType params targetSNR time Hmod Ht Hne
              (Z.to_nat numIterations) r) as (ms & r' & Hloop & Hlen & Hruns).
  assert (HlenZ : Z.of_nat (length ms) = numIterations) by lia.
  exists ms, r'. eexists. unfold runSingleSNRSimulation, make_floats.
  replace (numIterations <? 0)%Z with false by (symmetry; apply Z.ltb_ge; lia).
  simpl. rewrite repeat_length, Hloop. simpl.
  split; [reflexivity|]. split; [exact Hruns|]. split; [exact HlenZ|].
  simpl. unfold calculateMean at 1. rewrite HlenZ.
  split; [reflexivity|].
  split.
  { unfold calculateStdDev, calculateMean. rewrite HlenZ, fold_left_map_add. reflexivity. }
  repeat split.
  intros H2 Hfin. apply calculateStdDev_nonneg; [lia|exact Hfin|].
  apply calculateMean_notnan; [lia|exact Hfin].
Qed.

(** ** Waveform generators: sample count and timestamps *)

Lemma to_int_nonneg_floor (f : float) (n : Z) :
  (0 <=? f) = true -> F64.to_int f = Some n -> (0 <= n)%Z /\ F64.floor f = Some n.
Proof.
  intros Hpos Hint. apply F64Facts.leb_zero in Hpos.
  unfold F64.to_int, F64.trunc, F64.floor in *.
  destruct (Prim2SF f) as [s|[]| |[] m e]; simpl in Hpos; try tauto; try discriminate.
  - destruct (_ && _); inversion Hint. split; [lia|reflexivity].
  - destruct (0 <=? e)%Z eqn:He.
    + destruct (_ && _); inversion Hint. subst n. split; [|reflexivity].
      apply Z.shiftl_nonneg. lia.
    + destruct (_ && _); inversion Hint. subst n.
      rewrite Z.shiftr_div_pow2 by (apply Z.leb_gt in He; lia).
      split; [|reflexivity]. apply Z.div_pos; [lia|].
      apply Z.pow_pos_nonneg; [lia|]. apply Z.leb_gt in He. lia.
Qed.

Lemma generateTimeVector_of_count (params : SignalParams) (n : Z) :
  F64.to_int (SamplingRate params * Duration params) = Some n -> (0 <= n)%Z ->
  generateTimeVector params =
  Done (map (fun i => F64.of_int i * (1 / SamplingRate params)) (indices (Z.to_nat n))).
Proof.
  intros Hint Hn. unfold generateTimeVector, make_floats. rewrite Hint.
  replace (n <? 0)%Z with false by (symmetry; apply Z.ltb_ge; lia).
  simpl. now rewrite repeat_length.
Qed.

Lemma at_map_indices (f : Z -> float) (n : nat) (i : Z) :
  (0 <= i < Z.of_nat n)%Z -> at_ (map f (indices n)) i = f i.
Proof.
  intros Hi. unfold at_, indices. rewrite map_map.
  rewrite (nth_indep _ 0 (f (Z.of_nat 0))) by (rewrite length_map, length_seq; lia).
  rewrite (map_nth (fun k => f (Z.of_nat k))), seq_nth by lia.
  f_equal. lia.
Qed.

Lemma generators_sampled (params : SignalParams) (n : Z) :
  F64.to_int (SamplingRate params * Duration params) = Some n -> (0 <= n)%Z ->
  (exists s, generateBaseband params = Done s /\ sampled params n s) /\
  (exists s, generateCarrier params = Done s /\ sampled params n s) /\
  (exists s, generateAM params = Done s /\ sampled params n s) /\
  (exists s, generateFM params = Done s /\ sampled params n s).
Proof.
  intros Hint Hn.
  pose proof (generateTimeVector_of_count params n Hint Hn) as Ht.
  destruct (generators_of_time params _ Ht)
    as ((b & Hb & Tb & Lb) & (c & Hc & Tc & Lc) & (a & Ha & Ta & La) & (f & Hf & Tf & Lf)).
  assert (Hs : forall s, Time s = map (fun i => F64.of_int i * (1 / SamplingRate params))
                                      (indices (Z.to_nat n)) ->
               length (Values s) = length (Time s) -> sampled params n s).
  { intros s HT HL. unfold sampled. rewrite HL, HT, length_map, length_indices.
    repeat split; try lia. intros i Hi.
    apply (at_map_indices (fun i => F64.of_int i * (1 / SamplingRate params))). lia. }
  repeat split; eexists; (split; [eassumption|]); apply Hs; congruence.
Qed.

Lemma to_int_mul_zero (x : float) (n : Z) : F64.to_int (x * 0) = Some n -> n = 0%Z.
Proof.
  unfold F64.to_int, F64.trunc.
  rewrite FloatAxioms.mul_spec, F64Facts.Prim2SF_zero.
  destruct (Prim2SF x) as [[]|[]| |[] m e]; vm_compute; intros H; congruence.
Qed.

(** C5 (as amended).  When samplingRate * duration is >= 0 and converts to
    the int n, then n is the floor of the product, and each of the four
    generators returns a signal with exactly n timestamps and n samples,
    the i-th timestamp being the float64 product float64(i) * (1 /
    samplingRate); with a duration of 0, n is 0 and the signals are empty. *)
Theorem C5_generators_sample_count (params : SignalParams) (n : Z) :
  (0 <=? SamplingRate params * Duration params) = true ->
  F64.to_int (SamplingRate params * Duration params) = Some n ->
  F64.floor (SamplingRate params * Duration params) = Some n /\
  (Duration params = 0 -> n = 0%Z) /\
  (exists s, generateBaseband params = Done s /\ sampled params n s) /\
  (exists s, generateCarrier params = Done s /\ sampled params n s) /\
  (exists s, generateAM params = Done s /\ sampled params n s) /\
  (exists s, generateFM params = Done s /\ sampled params n s).
Proof.
  intros Hpos Hint.
  destruct (to_int_nonneg_floor _ _ Hpos Hint) as [Hn Hfloor].
  split; [exact Hfloor|]. split; [|apply generators_sampled; assumption].
  intros Hdur. rewrite Hdur in Hint. apply (to_int_mul_zero _ _ Hint).
Qed.

Lemma mul_zero_finite (x : float) :
  is_finite x = true -> exists s, Prim2SF (x * 0) = S754_zero s.
Proof.
  intros Hx. apply F64Facts.is_finite_true in Hx.
  rewrite FloatAxioms.mul_spec, F64Facts.Prim2SF_zero.
  destruct (Prim2SF x) as [s|s| |s m e]; simpl in Hx; try tauto; cbn; eauto.
Qed.

(** Zero duration: with a finite sampling rate every generator returns the
    zero-length signal (the boundary case of the repository's edge-case
    test). *)
Theorem zero_duration_empty (params : SignalParams) :
  is_finite (SamplingRate params) = true -> Duration params = 0 ->
  generateBaseband params = Done {| Time := []; Values := [] |} /\
  generateCarrier params = Done {| Time := []; Values := [] |} /\
  generateAM params = Done {| Time := []; Values := [] |} /\
  generateFM params = Done {| Time := []; Values := [] |}.
Proof.
  intros Hfin Hdur.
  assert (Ht : generateTimeVector params = Done []).
  { destruct (mul_zero_finite _ Hfin) as [s Hs].
    rewrite (generateTimeVector_of_count params 0); [reflexivity| |lia].
    rewrite Hdur. unfold F64.to_int, F64.trunc. now rewrite Hs. }
  unfold generateBaseband, generateCarrier, generateAM, generateFM.
  rewrite Ht. repeat split.
Qed.

(** ** FM discriminator on a non-empty input *)

Lemma discriminatorAt_formula (params : SignalParams) (v0 : float) (vs : list float) (i : Z) :
  let x := v0 :: vs in
  let quadSignal := map (fun i => if (i =? 0)%Z then v0 else at_ x (i - 1))
                        (indices (length x)) in
  (1 <= i < Z.of_nat (length x))%Z ->
  discriminatorAt params (1 / SamplingRate params) x quadSignal i =
  discriminatorFormula params x i.
Proof.
  intros x quadSignal Hi. unfold discriminatorAt, discriminatorFormula.
  assert (Hq : forall j, (0 <= j < Z.of_nat (length x))%Z ->
               at_ quadSignal j = at_ x (Z.max 0 (j - 1))).
  { intros j Hj. unfold quadSignal.
    rewrite (at_map_indices (fun i => if (i =? 0)%Z then v0 else at_ x (i - 1))) by exact Hj.
    destruct (Z.eqb_spec j 0) as [->|Hne]; [reflexivity|].
    f_equal. lia. }
  rewrite !Hq by lia.
  replace (Z.max 0 (i - 1)) with (i - 1)%Z by lia.
  replace (Z.max 0 (i - 1 - 1)) with (Z.max 0 (i - 2)) by lia.
  reflexivity.
Qed.

(** On every non-empty input the FM demodulator returns a signal of the
    same length on the same time axis: the moving average (the filter of
    the AM detector, [movingAverageAt]) of a sequence that is zero at index
    0 and follows the cross-product formula at every index i >= 1, with
    zero where I^2 + Q^2 does not exceed 1e-10. *)
Theorem demodulateFM_nonempty_spec (signal : Signal) (params : SignalParams) :
  Values signal <> [] ->
  exists unfiltered,
    demodulateFM signal params =
      Done {| Time := Time signal;
              Values := map (movingAverageAt unfiltered)
                            (indices (length (Values signal))) |} /\
    length unfiltered = length (Values signal) /\
    at_ unfiltered 0 = 0 /\
    (forall i, (1 <= i < Z.of_nat (length (Values signal)))%Z ->
       at_ unfiltered i = discriminatorFormula params (Values signal) i) /\
    Values (demodulateAM signal) =
      map (movingAverageAt (map abs (Values signal))) (indices (length (Values signal))).
Proof.
  intros Hne. unfold demodulateFM, quadSignalOf.
  destruct (Values signal) as [|v0 vs] eqn:Hv; [congruence|].
  set (x := v0 :: vs) in *.
  set (quadSignal := map (fun i => if (i =? 0)%Z then v0 else at_ x (i - 1))
                         (indices (length x))).
  exists (discriminatorOutput params x quadSignal).
  assert (Hlen : length (discriminatorOutput params x quadSignal) = length x).
  { unfold discriminatorOutput. now rewrite length_map, length_indices. }
  split; [cbn [mbind outcome_bind]; now rewrite Hlen|].
  split; [exact Hlen|].
  split; [reflexivity|].
  split.
  - intros i Hi. unfold discriminatorOutput.
    rewrite (at_map_indices (fun i => if (i =? 0)%Z then 0 else _)) by lia.
    destruct (Z.eqb_spec i 0) as [->|_]; [lia|].
    apply discriminatorAt_formula. exact Hi.
  - unfold demodulateAM. cbn [Values]. now rewrite Hv.
Qed.

(** ** Alignment helper and the scoring step of a trial *)

Lemma in_range (lo hi d : Z) : In d (range lo hi) -> (lo <= d <= hi)%Z.
Proof.
  unfold range. rewrite in_map_iff. intros (k & <- & Hk). apply in_seq in Hk. lia.
Qed.

Lemma searchStep_delay (reference signal : list float) (n : Z) (st : float * Z) (d : Z) :
  snd (searchStep reference signal n st d) = snd st \/
  snd (searchStep reference signal n st d) = d.
Proof.
  unfold searchStep. destruct st as [maxCorr bestDelay].
  destruct (correlationAt reference signal n d) as [correlation count].
  destruct (0 <? count)%Z; [|now left].
  destruct (maxCorr <? _); [now right|now left].
Qed.

Lemma search_delay_bound (reference signal : list float) (n M : Z) (ds : list Z) :
  (forall d, In d ds -> (- M <= d <= M)%Z) ->
  forall st, (- M <= snd st <= M)%Z ->
  (- M <= snd (fold_left (searchStep reference signal n) ds st) <= M)%Z.
Proof.
  induction ds as [|d ds IH]; intros Hds st Hst; simpl; [exact Hst|].
  apply IH; [intros; apply Hds; now right|].
  destruct (searchStep_delay reference signal n st d) as [-> | ->];
    [exact Hst|apply Hds; now left].
Qed.

Lemma maxDelayOf_bounds (n : Z) :
  (0 <= n)%Z -> (0 <= maxDelayOf n <= 100)%Z /\ (maxDelayOf n <= n / 10)%Z.
Proof.
  intros Hn. unfold maxDelayOf. pose proof (Z.div_pos n 10 Hn ltac:(lia)).
  destruct (Z.ltb_spec 100 (n / 10)); lia.
Qed.

Lemma bestDelayOf_bound (reference signal : list float) :
  (Z.abs (bestDelayOf reference signal) <= maxDelayOf (Z.of_nat (length reference)))%Z.
Proof.
  unfold bestDelayOf.
  pose proof (maxDelayOf_bounds (Z.of_nat (length reference)) ltac:(lia)) as [HM _].
  pose proof (search_delay_bound reference signal (Z.of_nat (length reference))
                (maxDelayOf (Z.of_nat (length reference)))
                (range (- maxDelayOf (Z.of_nat (length reference)))
                       (maxDelayOf (Z.of_nat (length reference))))
                (fun d => in_range _ _ d) (neg_infinity, 0%Z)) as H.
  simpl in H. specialize (H ltac:(lia)). lia.
Qed.

Lemma range_in (lo hi d : Z) : (lo <= d <= hi)%Z -> In d (range lo hi).
Proof.
  intros H. unfold range. apply in_map_iff. exists (Z.to_nat (d - lo)).
  split; [lia|]. apply in_seq. lia.
Qed.

(** The inner loop computes the sum over the overlap and its size. *)
Lemma correlationAt_fold (reference signal : list float) (n d : Z) (l : list Z) :
  forall (c : float) (k : Z),
  fold_left (fun '(correlation, count) i =>
               let j := (i + d)%Z in
               if (0 <=? j)%Z && (j <? n)%Z
               then (correlation + at_ reference i * at_ signal j, (count + 1)%Z)
               else (correlation, count)) l (c, k) =
  (fold_left (fun acc i => acc + at_ reference i * at_ signal (i + d)%Z)
             (List.filter (fun i => (0 <=? i + d)%Z && (i + d <? n)%Z) l) c,
   (k + Z.of_nat (length (List.filter (fun i => (0 <=? i + d)%Z && (i + d <? n)%Z) l)))%Z).
Proof.
  induction l as [|i l IH]; intros c k; simpl; [f_equal; lia|].
  destruct ((0 <=? i + d)%Z && (i + d <? n)%Z); simpl; rewrite IH; f_equal; lia.
Qed.

(** A step of the search keeps the state unless the lag scores higher. *)
Lemma searchStep_lagScore (reference signal : list float) (st : float * Z) (d : Z) :
  searchStep reference signal (Z.of_nat (length reference)) st d =
  match lagScore reference signal d with
  | Some c => if fst st <? c then (c, d) else st
  | None => st
  end.
Proof.
  unfold searchStep, lagScore, correlationAt, dotProduct, overlap.
  destruct st as [maxCorr bestDelay]. rewrite correlationAt_fold. simpl.
  destruct (0 <? _)%Z; reflexivity.
Qed.

Lemma search_not_above (reference signal : list float) (ds : list Z) :
  forall (st : float * Z) (x : float),
  (fst st <? x) = false ->
  (fst (fold_left (searchStep reference signal (Z.of_nat (length reference))) ds st) <? x)
    = false.
Proof.
  induction ds as [|d ds IH]; intros st x Hx; simpl; [exact Hx|].
  apply IH. rewrite searchStep_lagScore.
  destruct (lagScore reference signal d) as [c|]; [|exact Hx].
  destruct (fst st <? c) eqn:E; [|exact Hx].
  simpl. exact (F64Facts.ltb_not_above _ _ _ E Hx).
Qed.

Lemma search_maximal (reference signal : list float) (ds : list Z) :
  forall (st : float * Z) (d : Z) (c : float),
  In d ds -> lagScore reference signal d = Some c ->
  (fst (fold_left (searchStep reference signal (Z.of_nat (length reference))) ds st) <? c)
    = false.
Proof.
  induction ds as [|d' ds IH]; intros st d c Hin Hc; [destruct Hin|].
  simpl. destruct Hin as [-> | Hin]; [|now apply (IH _ d)].
  apply search_not_above. rewrite searchStep_lagScore, Hc.
  destruct (fst st <? c) eqn:E; [simpl; apply F64Facts.ltb_irrefl|exact E].
Qed.

Lemma search_attained (reference signal : list float) (ds : list Z) :
  forall st : float * Z,
  let st' := fold_left (searchStep reference signal (Z.of_nat (length reference))) ds st in
  st' = st \/ (In (snd st') ds /\ lagScore reference signal (snd st') = Some (fst st')).
Proof.
  induction ds as [|d ds IH]; intros st; simpl; [now left|].
  destruct (IH (searchStep reference signal (Z.of_nat (length reference)) st d))
    as [-> | [Hin Hs]]; [|right; split; [now right|exact Hs]].
  rewrite searchStep_lagScore.
  destruct (lagScore reference signal d) as [c|] eqn:Hc; [|now left].
  destruct (fst st <? c); [|now left].
  right. simpl. split; [now left|exact Hc].
Qed.

(** No lag of the window scores higher than the lag the search returns. *)
Lemma bestDelayOf_maximal (reference signal : list float) (d : Z) (c cb : float) :
  (Z.abs d <= maxDelayOf (Z.of_nat (length reference)))%Z ->
  lagScore reference signal d = Some c ->
  lagScore reference signal (bestDelayOf reference signal) = Some cb ->
  (cb <? c) = false.
Proof.
  intros Hd Hc Hb. unfold bestDelayOf in Hb. cbv zeta in Hb.
  set (n := Z.of_nat (length reference)) in *.
  set (ds := range (- maxDelayOf n) (maxDelayOf n)) in *.
  assert (Hin : In d ds) by (apply range_in; lia).
  pose proof (search_maximal reference signal ds (neg_infinity, 0%Z) d c Hin Hc) as Hmax.
  destruct (search_attained reference signal ds (neg_infinity, 0%Z)) as [Hsame | [_ Hs]];
    fold n in Hmax.
  - fold n in Hsame. rewrite Hsame in Hmax. simpl in Hmax.
    now apply F64Facts.ltb_neg_infinity.
  - fold n in Hs. rewrite Hb in Hs. inversion Hs; subst cb. exact Hmax.
Qed.

Lemma alignSignals_spec (reference signal : list float) :
  length (alignSignals reference signal) = length signal /\
  (length reference <> length signal -> alignSignals reference signal = signal) /\
  (length reference = length signal ->
   exists best,
     (Z.abs best <= Z.of_nat (length signal) / 10)%Z /\ (Z.abs best <= 100)%Z /\
     alignSignals reference signal = shifted signal best /\
     forall d c cb,
       (Z.abs d <= Z.of_nat (length signal) / 10)%Z -> (Z.abs d <= 100)%Z ->
       lagScore reference signal d = Some c ->
       lagScore reference signal best = Some cb ->
       (cb <? c) = false).
Proof.
  unfold alignSignals.
  destruct (Nat.eqb_spec (length reference) (length signal)) as [Heq|Hne]; simpl.
  - split; [now rewrite length_map, length_indices, Nat2Z.id|].
    split; [congruence|]. intros _.
    exists (bestDelayOf reference signal).
    pose proof (bestDelayOf_bound reference signal) as Hb.
    pose proof (maxDelayOf_bounds (Z.of_nat (length reference)) ltac:(lia)) as [HM HM'].
    rewrite <- Heq. split; [lia|]. split; [lia|]. split.
    + unfold shifted. now rewrite Nat2Z.id, Heq.
    + intros d c cb Hd Hd'. apply bestDelayOf_maximal.
      unfold maxDelayOf. destruct (Z.ltb_spec 100 (Z.of_nat (length reference) / 10)); lia.
  - split; [reflexivity|]. split; [reflexivity|]. congruence.
Qed.

Lemma searchStep_searched (reference signal : list float) (lo hi : Z) (st : float * Z) :
  (lo <= hi)%Z ->
  searched reference signal lo hi st ->
  searched reference signal lo (hi + 1)
    (searchStep reference signal (Z.of_nat (length reference)) st hi).
Proof.
  intros Hlo Hst. rewrite searchStep_lagScore.
  destruct (lagScore reference signal hi) as [c0|] eqn:Hc0.
  - destruct (fst st <? c0) eqn:Hup.
    + right. cbn [fst snd]. split; [lia|]. split; [exact Hc0|].
      destruct Hst as [[-> Hlow] | (Hb & Hsb & Hinf & Hmax & Hfirst)]; cbn [fst snd] in *.
      * split; [exact Hup|]. split.
        -- intros d c Hd Hc. destruct (Z.eq_dec d hi) as [->|Hne].
           ++ rewrite Hc0 in Hc. inversion Hc; subst. apply F64Facts.ltb_irrefl.
           ++ apply F64Facts.ltb_neg_infinity. apply (Hlow d); [lia|exact Hc].
        -- intros d c Hd Hlt Hc Hnan.
           apply (F64Facts.not_above_ltb neg_infinity); [exact Hnan| |exact Hup].
           apply (Hlow d); [lia|exact Hc].
      * split; [exact (F64Facts.ltb_trans _ _ _ Hinf Hup)|]. split.
        -- intros d c Hd Hc. destruct (Z.eq_dec d hi) as [->|Hne].
           ++ rewrite Hc0 in Hc. inversion Hc; subst. apply F64Facts.ltb_irrefl.
           ++ apply (F64Facts.ltb_not_above (fst st)); [exact Hup|].
              apply (Hmax d); [lia|exact Hc].
        -- intros d c Hd Hlt Hc Hnan.
           apply (F64Facts.not_above_ltb (fst st)); [exact Hnan| |exact Hup].
           apply (Hmax d); [lia|exact Hc].
    + destruct Hst as [[-> Hlow] | (Hb & Hsb & Hinf & Hmax & Hfirst)]; cbn [fst snd] in *.
      * left. split; [reflexivity|]. intros d c Hd Hc.
        destruct (Z.eq_dec d hi) as [->|Hne].
        -- rewrite Hc0 in Hc. inversion Hc; subst. exact Hup.
        -- apply (Hlow d); [lia|exact Hc].
      * right. split; [lia|]. split; [exact Hsb|]. split; [exact Hinf|]. split.
        -- intros d c Hd Hc. destruct (Z.eq_dec d hi) as [->|Hne].
           ++ rewrite Hc0 in Hc. inversion Hc; subst. exact Hup.
           ++ apply (Hmax d); [lia|exact Hc].
        -- intros d c Hd Hlt Hc Hnan. apply (Hfirst d); try assumption. lia.
  - destruct Hst as [[-> Hlow] | (Hb & Hsb & Hinf & Hmax & Hfirst)]; cbn [fst snd] in *.
    + left. split; [reflexivity|]. intros d c Hd Hc.
      destruct (Z.eq_dec d hi) as [->|Hne]; [congruence|]. apply (Hlow d); [lia|exact Hc].
    + right. split; [lia|]. split; [exact Hsb|]. split; [exact Hinf|]. split.
      * intros d c Hd Hc. destruct (Z.eq_dec d hi) as [->|Hne]; [congruence|].
        apply (Hmax d); [lia|exact Hc].
      * intros d c Hd Hlt Hc Hnan. apply (Hfirst d); try assumption. lia.
Qed.

Lemma search_searched (reference signal : list float) (lo : Z) (len : nat) :
  forall (s : nat) (st : float * Z),
  searched reference signal lo (lo + Z.of_nat s) st ->
  searched reference signal lo (lo + Z.of_nat (s + len))
    (fold_left (searchStep reference signal (Z.of_nat (length reference)))
               (map (fun k => (lo + Z.of_nat k)%Z) (seq s len)) st).
Proof.
  induction len as [|len IH]; intros s st Hst; simpl.
  - now rewrite Nat.add_0_r.
  - replace (s + S len)%nat with (S s + len)%nat by lia. apply IH.
    replace (lo + Z.of_nat (S s))%Z with (lo + Z.of_nat s + 1)%Z by lia.
    apply searchStep_searched; [lia|exact Hst].
Qed.

Lemma inWindow_maxDelayOf (n d : Z) :
  (0 <= n)%Z -> inWindow n d <-> (- maxDelayOf n <= d < maxDelayOf n + 1)%Z.
Proof.
  intros Hn. unfold inWindow, maxDelayOf.
  destruct (Z.ltb_spec 100 (n / 10)); lia.
Qed.

Lemma bestDelayOf_first (reference signal : list float) :
  firstMaximalLag reference signal (bestDelayOf reference signal).
Proof.
  unfold firstMaximalLag, bestDelayOf. cbv zeta.
  set (n := Z.of_nat (length reference)).
  pose proof (maxDelayOf_bounds n ltac:(lia)) as [HM _].
  pose proof (search_searched reference signal (- maxDelayOf n)
                (Z.to_nat (maxDelayOf n - - maxDelayOf n + 1)) 0 (neg_infinity, 0%Z)) as H.
  fold n in H. unfold range.
  replace (- maxDelayOf n + Z.of_nat (0 + Z.to_nat (maxDelayOf n - - maxDelayOf n + 1)))%Z
    with (maxDelayOf n + 1)%Z in H by lia.
  set (st := fold_left _ _ _) in *.
  destruct H as [[Hst Hlow] | (Hb & Hsb & Hinf & Hmax & Hfirst)].
  - left. split; [reflexivity|]. intros d c Hd. simpl in Hd. lia.
  - right. rewrite Hst. split; [reflexivity|].
    intros d c Hd. apply Hlow. apply inWindow_maxDelayOf; [lia|exact Hd].
  - left. exists (fst st). split; [apply inWindow_maxDelayOf; [lia|exact Hb]|].
    split; [exact Hsb|]. split; [exact Hinf|]. split.
    + intros d c Hd. apply Hmax. apply inWindow_maxDelayOf; [lia|exact Hd].
    + intros d c Hd. apply Hfirst. apply inWindow_maxDelayOf; [lia|exact Hd].
Qed.

Lemma firstMaximalLag_unique (reference signal : list float) (b1 b2 : Z) :
  firstMaximalLag reference signal b1 -> firstMaximalLag reference signal b2 -> b1 = b2.
Proof.
  unfold firstMaximalLag. cbv zeta.
  intros [(c1 & W1 & S1 & I1 & M1 & F1) | [-> L1]] [(c2 & W2 & S2 & I2 & M2 & F2) | [-> L2]].
  - destruct (Z.lt_trichotomy b1 b2) as [Hlt | [Heq | Hgt]]; [|exact Heq|].
    + pose proof (F2 b1 c1 W1 Hlt S1 (proj2 (F64Facts.ltb_notnan _ _ I1))) as H.
      rewrite (M1 b2 c2 W2 S2) in H. discriminate.
    + pose proof (F1 b2 c2 W2 ltac:(lia) S2 (proj2 (F64Facts.ltb_notnan _ _ I2))) as H.
      rewrite (M2 b1 c1 W1 S1) in H. discriminate.
  - rewrite (L2 b1 c1 W1 S1) in I1. discriminate.
  - rewrite (L1 b2 c2 W2 S2) in I2. discriminate.
  - reflexivity.
Qed.


(** The stages of a trial keep the number of samples. *)
Lemma trial_lengths (modType : ModulationType) (params : SignalParams)
    (targetSNR : float) (r : rng) (original modulated demodulated : Signal) :
  modType = AM \/ modType = FM ->
  generateBaseband params = Done original ->
  (if String.eqb modType AM then generateAM params else generateFM params)
    = Done modulated ->
  (if String.eqb modType AM
   then Done (demodulateAM (fst (addAWGNWithRNG modulated targetSNR r)))
   else demodulateFM (fst (addAWGNWithRNG modulated targetSNR r)) params)
    = Done demodulated ->
  length (Values original) = length (Values demodulated).
Proof.
  intros Hmod Hb Hm Hd.
  assert (Ht : exists time, generateTimeVector params = Done time).
  { unfold generateBaseband in Hb.
    destruct (generateTimeVector params) as [time|e]; [eauto|discriminate]. }
  destruct Ht as [time Ht].
  destruct (generators_of_time params time Ht)
    as ((b & Hb' & _ & Lb) & _ & (a & Ha & _ & La) & (f & Hf & _ & Lf)).
  rewrite Hb in Hb'. inversion Hb'; subst b. clear Hb'.
  pose proof (length_addAWGNWithRNG modulated targetSNR r) as Ln.
  destruct Hmod as [-> | ->]; cbn [String.eqb AM FM] in *; simpl in Hm, Hd.
  - rewrite Ha in Hm. inversion Hm; subst a. inversion Hd; subst demodulated.
    rewrite length_demodulateAM. congruence.
  - rewrite Hf in Hm. inversion Hm; subst f.
    destruct (Values (fst (addAWGNWithRNG modulated targetSNR r))) as [|v vs] eqn:Hv.
    + unfold demodulateFM, quadSignalOf in Hd. rewrite Hv in Hd. discriminate.
    + destruct (demodulateFM_nonempty (fst (addAWGNWithRNG modulated targetSNR r)) params)
        as (out & Hout & _ & Lo); [rewrite Hv; discriminate|].
      rewrite Hout in Hd. inversion Hd; subst out. rewrite Hv in Lo. congruence.
Qed.

(** C2 (as amended).  A trial scores the demodulated output directly
    against the baseband, for FM as for AM: whenever the stages return, the
    output SNR of the trial is [calculateSNR] of the baseband and the
    demodulator's output as it is -- [10 log10] of the ratio of the mean
    square of the baseband to the mean square of the sample-by-sample
    difference of the two, no sample shifted.  The alignment helper of the
    test suite returns, for equal lengths, the candidate shifted by a lag of
    at most a tenth of the length and at most 100 samples, zero-filled; no
    lag of that window has a higher mean product over its overlap than the
    lag chosen, and the lag chosen is the first such lag in ascending order
    (the lag 0 when no score is above -Inf), which determines it.  The
    candidate itself is returned when the lengths differ. *)
Theorem C2_trial_scores_unaligned (modType : ModulationType) (params : SignalParams)
    (targetSNR : float) (r : rng) (original modulated demodulated : Signal) :
  modType = AM \/ modType = FM ->
  generateBaseband params = Done original ->
  (if String.eqb modType AM then generateAM params else generateFM params)
    = Done modulated ->
  (if String.eqb modType AM
   then Done (demodulateAM (fst (addAWGNWithRNG modulated targetSNR r)))
   else demodulateFM (fst (addAWGNWithRNG modulated targetSNR r)) params)
    = Done demodulated ->
  runTrial modType params targetSNR r =
    (outputSNR ← calculateSNR original demodulated;
     Done (outputSNR, snd (addAWGNWithRNG modulated targetSNR r))) /\
  runTrial modType params targetSNR r =
    Done (snrOf (Values original) (Values demodulated),
          snd (addAWGNWithRNG modulated targetSNR r)) /\
  (forall reference signal : list float,
     length (alignSignals reference signal) = length signal /\
     (length reference <> length signal -> alignSignals reference signal = signal) /\
     (length reference = length signal ->
      exists best,
        (Z.abs best <= Z.of_nat (length signal) / 10)%Z /\ (Z.abs best <= 100)%Z /\
        alignSignals reference signal = shifted signal best /\
        (forall d c cb,
           (Z.abs d <= Z.of_nat (length signal) / 10)%Z -> (Z.abs d <= 100)%Z ->
           lagScore reference signal d = Some c ->
           lagScore reference signal best = Some cb ->
           (cb <? c) = false) /\
        firstMaximalLag reference signal best /\
        (forall best', firstMaximalLag reference signal best' -> best' = best))).
Proof.
  intros Hmod Hb Hm Hd.
  assert (Hrun : runTrial modType params targetSNR r =
                 (outputSNR ← calculateSNR original demodulated;
                  Done (outputSNR, snd (addAWGNWithRNG modulated targetSNR r)))).
  { unfold runTrial. rewrite Hb. cbn [mbind outcome_bind].
    destruct Hmod as [-> | ->]; cbn [String.eqb AM FM] in *; simpl in Hm, Hd |- *.
    - rewrite Hm. cbn [mbind outcome_bind].
      destruct (addAWGNWithRNG modulated targetSNR r) as [noisy r']. simpl in *.
      inversion Hd; subst. reflexivity.
    - rewrite Hm. cbn [mbind outcome_bind].
      destruct (addAWGNWithRNG modulated targetSNR r) as [noisy r']. simpl in *.
      rewrite Hd. reflexivity. }
  split; [exact Hrun|]. split.
  - rewrite Hrun, calculateSNR_equal_length; [reflexivity|].
    exact (trial_lengths modType params targetSNR r _ _ _ Hmod Hb Hm Hd).
  - intros reference signal.
    destruct (alignSignals_spec reference signal) as (Hlen & Hne & Heq).
    split; [exact Hlen|]. split; [exact Hne|]. intros Hl.
    clear Heq. exists (bestDelayOf reference signal).
    pose proof (bestDelayOf_bound reference signal) as Hbd.
    pose proof (maxDelayOf_bounds (Z.of_nat (length reference)) ltac:(lia)) as [HM HM'].
    rewrite <- Hl. split; [lia|]. split; [lia|]. split.
    + unfold alignSignals. rewrite Hl, Nat.eqb_refl. cbn [negb].
      unfold shifted. now rewrite Nat2Z.id.
    + split.
      * intros d c cb Hd1 Hd2. apply bestDelayOf_maximal.
        unfold maxDelayOf. destruct (Z.ltb_spec 100 (Z.of_nat (length reference) / 10)); lia.
      * split; [apply bestDelayOf_first|].
        intros best' H'. apply (firstMaximalLag_unique reference signal);
          [exact H'|apply bestDelayOf_first].
Qed.


(** ** Parallel sweep *)

Lemma collect_store (n : nat) (msgs : list message) :
  collect n msgs = fold_left store msgs (repeat PerformanceResult.zero n).
Proof. reflexivity. Qed.

(** Messages for distinct indices can be stored in any order. *)
Lemma store_permutation (l l' : list message) :
  Permutation l l' -> NoDup (map fst l) ->
  forall init, fold_left store l init = fold_left store l' init.
Proof.
  induction 1 as [|x l l' Hp IH|[i x] [j y] l|l l1 l2 Hp1 IH1 Hp2 IH2];
    intros Hnd init; simpl.
  - reflexivity.
  - apply IH. simpl in Hnd. now apply NoDup_cons in Hnd.
  - f_equal. simpl in Hnd. apply NoDup_cons in Hnd as [Hij _].
    apply list_insert_insert_ne. intros ->. apply Hij. now left.
  - rewrite IH1 by exact Hnd. apply IH2.
    apply NoDup_ListNoDup.
    eapply Permutation_NoDup; [apply Permutation_map, Hp1|].
    apply NoDup_ListNoDup, Hnd.
Qed.

(** Messages for the indices [|pre|, |pre|+1, ...] fill the slice in order. *)
Lemma store_in_order (msgs : list message) :
  forall pre init,
    map fst msgs = seq (length pre) (length msgs) -> length init = length msgs ->
    fold_left store msgs (pre ++ init) = pre ++ map snd msgs.
Proof.
  induction msgs as [|[i x] msgs IH]; intros pre init Hidx Hlen; simpl in *.
  - destruct init; [reflexivity|discriminate].
  - destruct init as [|y init]; [discriminate|].
    injection Hidx as -> Hidx. injection Hlen as Hlen.
    replace (<[length pre := x]> (pre ++ y :: init)) with ((pre ++ [x]) ++ init).
    + rewrite IH; [now rewrite <- app_assoc| |exact Hlen].
      rewrite length_app. simpl. now rewrite Nat.add_1_r.
    + rewrite <- app_assoc. simpl.
      replace (length pre) with (length pre + 0)%nat at 1 by lia.
      now rewrite insert_app_r.
Qed.

Lemma collect_in_order (n : nat) (msgs : list message) :
  map fst msgs = seq 0 n -> length msgs = n -> collect n msgs = map snd msgs.
Proof.
  intros Hidx Hlen. rewrite collect_store.
  apply (store_in_order msgs [] (repeat PerformanceResult.zero n)).
  - simpl. now rewrite Hlen.
  - now rewrite repeat_length.
Qed.

Lemma jobsOf_indices (snrRange : list float) :
  map fst (jobsOf snrRange) = seq 0 (length snrRange) /\
  map snd (jobsOf snrRange) = snrRange /\
  length (jobsOf snrRange) = length snrRange.
Proof.
  unfold jobsOf. generalize 0%nat as k.
  induction snrRange as [|snr rest IH]; intros k; simpl; [auto|].
  destruct (IH (S k)) as (H1 & H2 & H3). repeat split; congruence.
Qed.

Lemma workerPhase_no_worker (amParams fmParams : SignalParams) (config : MonteCarloConfig)
    (o : nat -> nat) (jobs : list (nat * float)) :
  workerPhase amParams fmParams config o jobs [] = Done ([], []).
Proof. destruct jobs as [|[k snr] jobs]; reflexivity. Qed.

Lemma workerPhase_indices (amParams fmParams : SignalParams) (config : MonteCarloConfig)
    (o : nat -> nat) (jobs : list (nat * float)) :
  forall rands ams fms,
    (0 < length rands)%nat ->
    workerPhase amParams fmParams config o jobs rands = Done (ams, fms) ->
    map fst ams = map fst jobs /\ map fst fms = map fst jobs.
Proof.
  induction jobs as [|[k snr] jobs IH]; intros rands ams fms Hne Hw; simpl in Hw.
  - inversion Hw. auto.
  - destruct (rands !! (o k mod length rands)%nat) as [r|] eqn:Hr.
    + destruct (runPoint amParams fmParams config snr r) as [[[am fm] r']|e];
        simpl in Hw; [|discriminate].
      destruct (workerPhase amParams fmParams config o jobs _)
        as [[ams' fms']|e] eqn:Hrest; simpl in Hw; [|discriminate].
      inversion Hw; subst. simpl.
      apply IH in Hrest as [-> ->]; [auto|].
      now rewrite length_insert.
    + exfalso. apply lookup_ge_None in Hr.
      pose proof (Nat.mod_upper_bound (o k) (length rands)). lia.
Qed.

Lemma workerPhase_ext (amParams fmParams : SignalParams) (config : MonteCarloConfig)
    (o o' : nat -> nat) (jobs : list (nat * float)) :
  (forall k, o k = o' k) ->
  forall rands, workerPhase amParams fmParams config o jobs rands =
                workerPhase amParams fmParams config o' jobs rands.
Proof.
  intros Ho. induction jobs as [|[k snr] jobs IH]; intros rands; simpl; [reflexivity|].
  rewrite Ho. destruct (rands !! _); [|reflexivity].
  destruct (runPoint _ _ _ _ _) as [[[am fm] r']|e]; simpl; [|reflexivity].
  now rewrite IH.
Qed.

Lemma length_workerRands (config : MonteCarloConfig) :
  length (workerRands config) = Z.to_nat (MonteCarloConfig.NumWorkers config).
Proof. unfold workerRands. now rewrite length_map, length_indices. Qed.

Lemma workerRands_lookup (config : MonteCarloConfig) (w : Z) :
  (0 <= w < MonteCarloConfig.NumWorkers config)%Z ->
  workerRands config !! Z.to_nat w =
  Some (NewSource (F64.wrap64 (MonteCarloConfig.Seed config + w))).
Proof.
  intros Hw. unfold workerRands, indices. rewrite map_map.
  rewrite list_lookup_fmap, lookup_seq_lt by lia. simpl. do 3 f_equal. lia.
Qed.

(** With admissible arrival orders, the arrays hold the results of the
    jobs in sweep order (all zero values when no worker runs). *)
Lemma runParallel_in_order (amParams fmParams : SignalParams) (config : MonteCarloConfig)
    (sched : Schedule) :
  fair sched ->
  runParallelMonteCarloSimulation amParams fmParams config sched =
  ('(ams, fms) ← workerPhase amParams fmParams config (owner sched)
                   (jobsOf (MonteCarloConfig.SNRRange config)) (workerRands config);
   if (0 <? MonteCarloConfig.NumWorkers config)%Z
   then Done (map snd ams, map snd fms)
   else Done (repeat PerformanceResult.zero (length (MonteCarloConfig.SNRRange config)),
              repeat PerformanceResult.zero (length (MonteCarloConfig.SNRRange config)))).
Proof.
  intros [Ham Hfm]. unfold runParallelMonteCarloSimulation.
  destruct (jobsOf_indices (MonteCarloConfig.SNRRange config)) as (Hidx & _ & Hlen).
  destruct (Z.ltb_spec 0 (MonteCarloConfig.NumWorkers config)) as [Hw|Hw].
  - destruct (workerPhase _ _ _ _ _ _) as [[ams fms]|e] eqn:Hphase; [|reflexivity].
    cbn [mbind outcome_bind].
    assert (Hlw : (0 < length (workerRands config))%nat)
      by (rewrite length_workerRands; lia).
    destruct (workerPhase_indices _ _ _ _ _ _ _ _ Hlw Hphase) as [Ia If].
    rewrite Hidx in Ia, If.
    assert (La : length ams = length (MonteCarloConfig.SNRRange config))
      by (apply (f_equal length) in Ia; now rewrite length_map, length_seq in Ia).
    assert (Lf : length fms = length (MonteCarloConfig.SNRRange config))
      by (apply (f_equal length) in If; now rewrite length_map, length_seq in If).
    rewrite !collect_store.
    rewrite (store_permutation _ _ (Ham ams)), (store_permutation _ _ (Hfm fms)).
    + rewrite <- !collect_store, !collect_in_order; auto.
    + rewrite (Permutation_map fst (Hfm fms)), If. apply NoDup_ListNoDup, List.seq_NoDup.
    + rewrite (Permutation_map fst (Ham ams)), Ia. apply NoDup_ListNoDup, List.seq_NoDup.
  - assert (Hr : workerRands config = []).
    { apply length_zero_iff_nil. rewrite length_workerRands. lia. }
    rewrite Hr, workerPhase_no_worker. cbn [mbind outcome_bind].
    rewrite (proj1 (Permutation_nil_r _) (Ham [])), (proj1 (Permutation_nil_r _) (Hfm [])).
    reflexivity.
Qed.

Lemma runSingleSNRSimulation_fields (modType : ModulationType) (params : SignalParams)
    (targetSNR : float) (numIterations : Z) (r r' : rng) (result : PerformanceResult) :
  runSingleSNRSimulation modType params targetSNR numIterations r = Done (result, r') ->
  PerformanceResult.ModulationType result = modType /\
  PerformanceResult.NumTrials result = numIterations.
Proof.
  unfold runSingleSNRSimulation. destruct (make_floats numIterations); [|discriminate].
  cbn [mbind outcome_bind].
  destruct (trialLoop _ _ _ _ _) as [[ms r1]|e]; [|discriminate].
  cbn [mbind outcome_bind]. intros H. inversion H. subst. auto.
Qed.

Lemma runPoint_fields (amParams fmParams : SignalParams) (config : MonteCarloConfig)
    (snr : float) (r r' : rng) (am fm : PerformanceResult) :
  runPoint amParams fmParams config snr r = Done (am, fm, r') ->
  labelled config AM snr am /\ labelled config FM snr fm.
Proof.
  unfold runPoint.
  destruct (runSingleSNRSimulation AM _ _ _ _) as [[a r1]|e] eqn:Ha; [|discriminate].
  cbn [mbind outcome_bind].
  destruct (runSingleSNRSimulation FM _ _ _ _) as [[f r2]|e] eqn:Hf; [|discriminate].
  cbn [mbind outcome_bind]. intros H. inversion H. subst.
  apply runSingleSNRSimulation_fields in Ha as [? ?], Hf as [? ?].
  unfold labelled. simpl. auto.
Qed.

Lemma workerPhase_fields (amParams fmParams : SignalParams) (config : MonteCarloConfig)
    (o : nat -> nat) (jobs : list (nat * float)) :
  forall rands ams fms,
    (0 < length rands)%nat ->
    workerPhase amParams fmParams config o jobs rands = Done (ams, fms) ->
    Forall2 (labelled config AM) (map snd jobs) (map snd ams) /\
    Forall2 (labelled config FM) (map snd jobs) (map snd fms).
Proof.
  induction jobs as [|[k snr] jobs IH]; intros rands ams fms Hne Hw; simpl in Hw.
  - inversion Hw. split; constructor.
  - destruct (rands !! (o k mod length rands)%nat) as [r|] eqn:Hr.
    + destruct (runPoint amParams fmParams config snr r) as [[[am fm] r']|e] eqn:Hp;
        simpl in Hw; [|discriminate].
      destruct (workerPhase amParams fmParams config o jobs _)
        as [[ams' fms']|e] eqn:Hrest; simpl in Hw; [|discriminate].
      inversion Hw; subst. simpl.
      apply runPoint_fields in Hp as [? ?].
      apply IH in Hrest as [? ?]; [|now rewrite length_insert].
      split; constructor; assumption.
    + exfalso. apply lookup_ge_None in Hr.
      pose proof (Nat.mod_upper_bound (o k) (length rands)). lia.
Qed.

Lemma sequentialLoop_length (amParams fmParams : SignalParams) (config : MonteCarloConfig)
    (snrs : list float) :
  forall r ams fms,
    sequentialLoop amParams fmParams config snrs r = Done (ams, fms) ->
    length ams = length snrs /\ length fms = length snrs.
Proof.
  induction snrs as [|snr snrs IH]; intros r ams fms H; simpl in H.
  - inversion H. auto.
  - destruct (runPoint _ _ _ _ _) as [[[am fm] r']|e]; simpl in H; [|discriminate].
    destruct (sequentialLoop _ _ _ _ _) as [[ams' fms']|e] eqn:Hrest; simpl in H;
      [|discriminate].
    inversion H; subst. apply IH in Hrest as [? ?]. simpl. auto.
Qed.

Lemma map_snd_combine {A B : Type} (xs : list A) (ys : list B) :
  length xs = length ys -> map snd (combine xs ys) = ys.
Proof.
  revert ys. induction xs as [|x xs IH]; intros [|y ys] H; simpl in *;
    try discriminate; [reflexivity|]. f_equal. apply IH. congruence.
Qed.

(** A single worker handles the jobs as the sequential loop does. *)
Lemma workerPhase_single (amParams fmParams : SignalParams) (config : MonteCarloConfig)
    (o : nat -> nat) (jobs : list (nat * float)) :
  forall r,
    workerPhase amParams fmParams config o jobs [r] =
    ('(ams, fms) ← sequentialLoop amParams fmParams config (map snd jobs) r;
     Done (combine (map fst jobs) ams, combine (map fst jobs) fms)).
Proof.
  induction jobs as [|[k snr] jobs IH]; intros r; [reflexivity|].
  cbn [workerPhase]. change (length [r]) with 1%nat. rewrite Nat.mod_1_r.
  change ([r] !! 0%nat) with (Some r). cbn [map fst snd sequentialLoop].
  destruct (runPoint _ _ _ _ _) as [[[am fm] r']|e]; [|reflexivity].
  cbn [mbind outcome_bind]. change (<[0%nat := r']> [r]) with [r'].
  rewrite IH.
  destruct (sequentialLoop _ _ _ _ _) as [[ams fms]|e]; reflexivity.
Qed.

Lemma wrap64_id (z : Z) : (- 2 ^ 63 <= z < 2 ^ 63)%Z -> F64.wrap64 z = z.
Proof. intros H. unfold F64.wrap64. rewrite Z.mod_small; lia. Qed.

Lemma runParallel_single_worker (amParams fmParams : SignalParams)
    (config : MonteCarloConfig) (sched : Schedule) :
  fair sched ->
  MonteCarloConfig.NumWorkers config = 1%Z ->
  (- 2 ^ 63 <= MonteCarloConfig.Seed config < 2 ^ 63)%Z ->
  runParallelMonteCarloSimulation amParams fmParams config sched =
  runSequentialMonteCarloSimulation amParams fmParams config.
Proof.
  intros Hfair Hw Hseed. rewrite runParallel_in_order by exact Hfair.
  unfold runSequentialMonteCarloSimulation, workerRands.
  rewrite Hw. change (indices (Z.to_nat 1)) with [0%Z]. cbn [map].
  change (0 <? 1)%Z with true. cbv iota.
  rewrite Z.add_0_r, wrap64_id by exact Hseed.
  rewrite workerPhase_single.
  destruct (jobsOf_indices (MonteCarloConfig.SNRRange config)) as (Hidx & Hsnr & Hlen).
  rewrite Hsnr.
  destruct (sequentialLoop _ _ _ _ _) as [[ams fms]|e] eqn:Hseq; [|reflexivity].
  cbn [mbind outcome_bind].
  apply sequentialLoop_length in Hseq as [La Lf].
  rewrite !map_snd_combine; [reflexivity| |];
    rewrite length_map, Hlen; congruence.
Qed.

(** The messages of the jobs that satisfy [P], in terms of the slice they
    fill. *)
Lemma filter_indexed {A : Type} (P : nat -> bool) (d : A) (ms : list (nat * A)) :
  forall s,
    map fst ms = seq s (length ms) ->
    map snd (List.filter (fun m => P (fst m)) ms) =
    map (fun k => nth (k - s) (map snd ms) d) (List.filter P (seq s (length ms))).
Proof.
  induction ms as [|[i x] ms IH]; intros s Hidx; [reflexivity|].
  cbn [map fst length seq] in Hidx. injection Hidx as -> Hidx.
  specialize (IH (S s) Hidx).
  assert (Hrest : map (fun k => nth (k - s) (x :: map snd ms) d)
                      (List.filter P (seq (S s) (length ms)))
                  = map (fun k => nth (k - S s) (map snd ms) d)
                        (List.filter P (seq (S s) (length ms)))).
  { apply map_ext_in. intros k Hk. apply filter_In in Hk as [Hk _].
    apply in_seq in Hk. replace (k - s)%nat with (S (k - S s)) by lia. reflexivity. }
  cbn [List.filter fst snd map length seq].
  destruct (P s); cbn [map snd].
  - rewrite Hrest, Nat.sub_diag, IH. reflexivity.
  - rewrite Hrest. exact IH.
Qed.

Lemma filter_indexed_0 {A : Type} (P : nat -> bool) (d : A) (ms : list (nat * A)) (n : nat) :
  map fst ms = seq 0 n ->
  map snd (List.filter (fun m => P (fst m)) ms) =
  entriesAt d (map snd ms) (List.filter P (seq 0 n)).
Proof.
  intros Hidx.
  assert (Hn : length ms = n)
    by (apply (f_equal length) in Hidx; now rewrite length_map, length_seq in Hidx).
  subst n. rewrite (filter_indexed P d ms 0 Hidx). unfold entriesAt.
  apply map_ext. intros k. now rewrite Nat.sub_0_r.
Qed.

(** Each worker handles its jobs as the sequential loop does, on its own
    generator. *)
Lemma workerPhase_worker (amParams fmParams : SignalParams) (config : MonteCarloConfig)
    (o : nat -> nat) (W : nat) (jobs : list (nat * float)) :
  forall rands ams fms,
    length rands = W ->
    workerPhase amParams fmParams config o jobs rands = Done (ams, fms) ->
    forall w r, rands !! w = Some r ->
      sequentialLoop amParams fmParams config
        (map snd (List.filter (fun j => (o (fst j) mod W =? w)%nat) jobs)) r
      = Done (map snd (List.filter (fun m => (o (fst m) mod W =? w)%nat) ams),
              map snd (List.filter (fun m => (o (fst m) mod W =? w)%nat) fms)).
Proof.
  induction jobs as [|[k snr] jobs IH]; intros rands ams fms HW Hphase w r Hr;
    simpl in Hphase.
  - inversion Hphase. reflexivity.
  - rewrite HW in Hphase.
    destruct (rands !! (o k mod W)%nat) as [r0|] eqn:Hr0.
    + destruct (runPoint amParams fmParams config snr r0) as [[[am fm] r']|e] eqn:Hp;
        simpl in Hphase; [|discriminate].
      destruct (workerPhase amParams fmParams config o jobs _)
        as [[ams' fms']|e] eqn:Hrest; simpl in Hphase; [|discriminate].
      inversion Hphase; subst ams fms. clear Hphase.
      assert (Hlt : (o k mod W < length rands)%nat) by (eapply lookup_lt_Some, Hr0).
      cbn [List.filter fst].
      destruct (Nat.eqb_spec (o k mod W) w) as [Heq|Hne].
      * subst w. rewrite Hr0 in Hr. inversion Hr; subst r0.
        cbn [map snd sequentialLoop]. rewrite Hp. cbn [mbind outcome_bind].
        rewrite (IH _ _ _ ltac:(rewrite length_insert; exact HW) Hrest (o k mod W)%nat r');
          [reflexivity|].
        apply list_lookup_insert_eq. exact Hlt.
      * apply (IH _ _ _ ltac:(rewrite length_insert; exact HW) Hrest w r).
        rewrite list_lookup_insert_ne by exact Hne. exact Hr.
    + apply lookup_ge_None in Hr0. apply lookup_lt_Some in Hr.
      pose proof (Nat.mod_upper_bound (o k) W). lia.
Qed.

Lemma runParallel_worker (amParams fmParams : SignalParams) (config : MonteCarloConfig)
    (sched : Schedule) (amResults fmResults : list PerformanceResult) (w : Z) :
  fair sched ->
  runParallelMonteCarloSimulation amParams fmParams config sched
    = Done (amResults, fmResults) ->
  (0 <= w < MonteCarloConfig.NumWorkers config)%Z ->
  let jobs := jobsOfWorker (owner sched) (Z.to_nat (MonteCarloConfig.NumWorkers config))
                (Z.to_nat w) (length (MonteCarloConfig.SNRRange config)) in
  sequentialLoop amParams fmParams config
    (entriesAt 0 (MonteCarloConfig.SNRRange config) jobs)
    (NewSource (F64.wrap64 (MonteCarloConfig.Seed config + w)))
  = Done (entriesAt PerformanceResult.zero amResults jobs,
          entriesAt PerformanceResult.zero fmResults jobs).
Proof.
  intros Hfair Hrun Hw jobs.
  rewrite runParallel_in_order in Hrun by exact Hfair.
  destruct (workerPhase _ _ _ _ _ _) as [[ams fms]|e] eqn:Hphase; [|discriminate].
  cbn [mbind outcome_bind] in Hrun.
  replace (0 <? MonteCarloConfig.NumWorkers config)%Z with true in Hrun
    by (symmetry; apply Z.ltb_lt; lia).
  inversion Hrun; subst amResults fmResults. clear Hrun.
  destruct (jobsOf_indices (MonteCarloConfig.SNRRange config)) as (Hidx & Hsnr & Hlen).
  assert (Hlw : (0 < length (workerRands config))%nat)
    by (rewrite length_workerRands; lia).
  destruct (workerPhase_indices _ _ _ _ _ _ _ _ Hlw Hphase) as [Ia If].
  rewrite Hidx in Ia, If.
  pose proof (workerPhase_worker _ _ _ _ _ _ _ _ _ (length_workerRands config) Hphase
                (Z.to_nat w) _ (workerRands_lookup config w Hw)) as H.
  rewrite (filter_indexed_0 (fun k => (owner sched k mod _ =? Z.to_nat w)%nat) 0 _ _ Hidx),
          (filter_indexed_0 (fun k => (owner sched k mod _ =? Z.to_nat w)%nat)
             PerformanceResult.zero _ _ Ia),
          (filter_indexed_0 (fun k => (owner sched k mod _ =? Z.to_nat w)%nat)
             PerformanceResult.zero _ _ If), Hsnr in H.
  exact H.
Qed.

(** Under an assignment every job belongs to the list of exactly one
    worker. *)
Lemma jobsOfWorker_owner (o : nat -> nat) (W w n k : nat) :
  In k (jobsOfWorker o W w n) <-> (k < n)%nat /\ w = (o k mod W)%nat.
Proof.
  unfold jobsOfWorker. rewrite filter_In, in_seq, Nat.eqb_eq. intuition lia.
Qed.

(** C1 (as amended).  For a fixed base seed, trial count, SNR sweep and
    job-to-worker assignment, the parallel sweep returns the same AM and FM
    arrays whatever the order in which the results arrive.  Worker w draws
    from its own generator, seeded base seed + w, through each whole job
    (AM then FM) it receives: the entries of the two arrays at the sweep
    indices of its jobs are what the sequential loop returns on the SNR
    points of those jobs, in sweep order, started on that generator; every
    job is in the list of exactly one worker.  Entry k of each array is the
    result of job k (its input SNR is the k-th SNR of the sweep); with a
    single worker the arrays are those of the sequential sweep. *)
Theorem C1_parallel_sweep_fixed_assignment (amParams fmParams : SignalParams)
    (config : MonteCarloConfig) (sched sched' : Schedule) :
  fair sched -> fair sched' ->
  (forall k, owner sched k = owner sched' k) ->
  runParallelMonteCarloSimulation amParams fmParams config sched =
    runParallelMonteCarloSimulation amParams fmParams config sched' /\
  (forall w, (0 <= w < MonteCarloConfig.NumWorkers config)%Z ->
     workerRands config !! Z.to_nat w =
     Some (NewSource (F64.wrap64 (MonteCarloConfig.Seed config + w)))) /\
  (forall amResults fmResults,
     (0 < MonteCarloConfig.NumWorkers config)%Z ->
     runParallelMonteCarloSimulation amParams fmParams config sched
       = Done (amResults, fmResults) ->
     Forall2 (labelled config AM) (MonteCarloConfig.SNRRange config) amResults /\
     Forall2 (labelled config FM) (MonteCarloConfig.SNRRange config) fmResults) /\
  (MonteCarloConfig.NumWorkers config = 1%Z ->
   (- 2 ^ 63 <= MonteCarloConfig.Seed config < 2 ^ 63)%Z ->
   runParallelMonteCarloSimulation amParams fmParams config sched =
     runSequentialMonteCarloSimulation amParams fmParams config) /\
  (forall amResults fmResults w,
     runParallelMonteCarloSimulation amParams fmParams config sched
       = Done (amResults, fmResults) ->
     (0 <= w < MonteCarloConfig.NumWorkers config)%Z ->
     let jobs := jobsOfWorker (owner sched)
                   (Z.to_nat (MonteCarloConfig.NumWorkers config)) (Z.to_nat w)
                   (length (MonteCarloConfig.SNRRange config)) in
     sequentialLoop amParams fmParams config
       (entriesAt 0 (MonteCarloConfig.SNRRange config) jobs)
       (NewSource (F64.wrap64 (MonteCarloConfig.Seed config + w)))
     = Done (entriesAt PerformanceResult.zero amResults jobs,
             entriesAt PerformanceResult.zero fmResults jobs)) /\
  (forall k w,
     In k (jobsOfWorker (owner sched) (Z.to_nat (MonteCarloConfig.NumWorkers config)) w
             (length (MonteCarloConfig.SNRRange config)))
     <-> (k < length (MonteCarloConfig.SNRRange config))%nat /\
         w = (owner sched k mod Z.to_nat (MonteCarloConfig.NumWorkers config))%nat).
Proof.
  intros Hfair Hfair' Hown. split; [|split; [|split; [|split; [|split]]]].
  - rewrite !runParallel_in_order by assumption.
    now rewrite (workerPhase_ext _ _ _ _ _ _ Hown).
  - intros w Hw. apply workerRands_lookup, Hw.
  - intros amResults fmResults Hw Hrun.
    rewrite runParallel_in_order in Hrun by assumption.
    destruct (workerPhase _ _ _ _ _ _) as [[ams fms]|e] eqn:Hphase; [|discriminate].
    cbn [mbind outcome_bind] in Hrun.
    replace (0 <? MonteCarloConfig.NumWorkers config)%Z with true in Hrun
      by (symmetry; apply Z.ltb_lt; assumption).
    inversion Hrun; subst.
    apply workerPhase_fields in Hphase as [Ha Hf];
      [|rewrite length_workerRands; lia].
    now rewrite (proj1 (proj2 (jobsOf_indices _))) in Ha, Hf.
  - intros. apply runParallel_single_worker; assumption.
  - intros amResults fmResults w Hrun Hw.
    exact (runParallel_worker amParams fmParams config sched _ _ w Hfair Hrun Hw).
  - intros k w. apply jobsOfWorker_owner.
Qed.

(** ** Sweep on the default generator *)

Lemma length_addAWGN (signal : Signal) (snrDB : float) (g : dstate) :
  length (Values (fst (addAWGN signal snrDB g))) = length (Values signal).
Proof.
  unfold addAWGN. rewrite addAWGN_loop_draws. simpl.
  rewrite length_zip_with, length_defaultDraws. lia.
Qed.

Lemma computeInputSNR_equal_length (clean noisy : Signal) :
  length (Values clean) = length (Values noisy) ->
  computeInputSNR clean noisy = Done (snrOf (Values clean) (Values noisy)).
Proof.
  intros Hlen. unfold computeInputSNR, snrOf, meanSquare.
  rewrite (snrLoop_sums _ _ Hlen). simpl.
  rewrite (length_noiseOf _ _ Hlen).
  destruct (_ =? 0); reflexivity.
Qed.

Lemma defaultTrial_total (verifyInput : bool) (modType : ModulationType)
    (params : SignalParams) (targetSNR : float) (time : list float) (g : dstate) :
  modType = AM \/ modType = FM ->
  generateTimeVector params = Done time ->
  (modType = FM -> time <> []) ->
  exists outputSNR g',
    defaultTrial verifyInput modType params targetSNR g = Done (outputSNR, g').
Proof.
  intros Hmod Ht Hne.
  destruct (generators_of_time params time Ht)
    as ((b & Hb & _ & Lb) & _ & (a & Ha & _ & La) & (f & Hf & _ & Lf)).
  unfold defaultTrial. rewrite Hb. simpl.
  destruct Hmod as [-> | ->]; simpl.
  - rewrite Ha. simpl.
    pose proof (length_addAWGN a targetSNR g) as Ln.
    destruct (addAWGN a targetSNR g) as [noisy g']. simpl in *.
    assert (Hv : exists v, (if verifyInput then computeInputSNR a noisy else Done 0)
                           = Done v).
    { destruct verifyInput; [|eauto].
      rewrite computeInputSNR_equal_length by congruence. eauto. }
    destruct Hv as [v ->]. simpl.
    unfold computeOutputSNR. rewrite calculateSNR_equal_length.
    + simpl. eauto.
    + rewrite length_demodulateAM. congruence.
  - rewrite Hf. simpl.
    pose proof (length_addAWGN f targetSNR g) as Ln.
    destruct (addAWGN f targetSNR g) as [noisy g']. simpl in *.
    assert (Hv : exists v, (if verifyInput then computeInputSNR f noisy else Done 0)
                           = Done v).
    { destruct verifyInput; [|eauto].
      rewrite computeInputSNR_equal_length by congruence. eauto. }
    destruct Hv as [v ->]. simpl.
    destruct (demodulateFM_nonempty noisy params) as (out & -> & _ & Lo).
    { intros E. apply (Hne eq_refl). apply length_zero_iff_nil.
      rewrite E in Ln. simpl in Ln. lia. }
    simpl. unfold computeOutputSNR. rewrite calculateSNR_equal_length.
    + simpl. eauto.
    + congruence.
Qed.

Lemma defaultTrialLoop_total (verifyInput : bool) (modType : ModulationType)
    (params : SignalParams) (targetSNR : float) (time : list float) :
  modType = AM \/ modType = FM ->
  generateTimeVector params = Done time ->
  (modType = FM -> time <> []) ->
  forall n g, exists ms g',
    defaultTrialLoop verifyInput modType params targetSNR n g = Done (ms, g').
Proof.
  intros Hmod Ht Hne. induction n as [|n IH]; intros g; simpl; [eauto|].
  destruct (defaultTrial_total verifyInput modType params targetSNR time g Hmod Ht Hne)
    as (x & g1 & ->).
  destruct (IH g1) as (ms & g2 & Hms). simpl. rewrite Hms. simpl. eauto.
Qed.

Lemma simulateSNRPerformance_total (modType : ModulationType) (params : SignalParams)
    (snrRange : list float) (numTrials : Z) (time : list float) :
  modType = AM \/ modType = FM ->
  generateTimeVector params = Done time ->
  (modType = FM -> time <> []) ->
  (0 <= numTrials)%Z ->
  forall g, exists results g',
    simulateSNRPerformance modType params snrRange numTrials g = Done (results, g') /\
    length results = length snrRange.
Proof.
  intros Hmod Ht Hne Hn. unfold simulateSNRPerformance.
  induction snrRange as [|snr rest IH]; intros g; simpl; [eauto|].
  unfold make_floats.
  replace (numTrials <? 0)%Z with false by (symmetry; apply Z.ltb_ge; lia).
  cbn [mbind outcome_bind].
  destruct (defaultTrialLoop_total true modType params snr time Hmod Ht Hne
              (length (repeat 0 (Z.to_nat numTrials))) g) as (ms & g1 & ->).
  cbn [mbind outcome_bind].
  destruct (IH g1) as (results & g2 & -> & Hlen).
  cbn [mbind outcome_bind]. eexists _, _. split; [reflexivity|]. simpl. congruence.
Qed.

End Properties.

(** ** The run-sweep operation *)

Section RunSweepProperties.

Context {math : MathLib} {dflt : DefaultSource}.
Variable error : Type.

Local Open Scope float_scope.

(** C9.  Claimed: with a non-zero seed the run-sweep operation completes
    and returns a nil error.  With the zero-duration parameters of the
    repository's own edge-case test and a supplied seed, the AM sweep
    completes on empty signals and the first FM trial panics in
    [demodulateFM]: the operation does not return. *)
Theorem C9_zero_duration_sweep_panics (env : Env error) :
  OptimizedMonteCarloSimulation error zeroDurationParams zeroDurationParams
    oneTrialConfig env = Abort PanicIndexOutOfRange.
Proof. reflexivity. Qed.

(** The operation returns a non-nil error exactly when the configured seed
    is zero and the secure random source fails; the error is the source's,
    and the results are then empty. *)
Theorem run_sweep_error_iff (amParams fmParams : SignalParams)
    (config : SimulationConfig) (env : Env error)
    (amResults fmResults : list PerformanceResult) (stats : SimulationStats) (e : error) :
  OptimizedMonteCarloSimulation error amParams fmParams config env
    = Done (amResults, fmResults, stats, Some e) <->
  SimulationConfig.Seed config = 0%Z /\ cryptoRead error env = inl e /\
  amResults = [] /\ fmResults = [] /\ stats = SimulationStats.zero.
Proof.
  unfold OptimizedMonteCarloSimulation, generateCryptoSeed.
  destruct (Z.eqb_spec (SimulationConfig.Seed config) 0) as [Hz|Hnz].
  - destruct (cryptoRead error env) as [err|bytes].
    + split.
      * intros H. inversion H. auto.
      * intros (_ & H & -> & -> & ->). inversion H. reflexivity.
    + split.
      * intros H. exfalso.
        destruct (_ : outcome (list PerformanceResult * list PerformanceResult))
          as [[a f]|ab]; simpl in H; discriminate.
      * intros (_ & H & _). discriminate.
  - split.
    + intros H. exfalso.
      destruct (_ : outcome (list PerformanceResult * list PerformanceResult))
        as [[a f]|ab]; simpl in H; discriminate.
    + intros (H & _). contradiction.
Qed.

Lemma parallelTrialLoop_total (modType : ModulationType) (params : SignalParams)
    (targetSNR : float) (time : list float) (draws : nat -> nat -> float) :
  modType = AM \/ modType = FM ->
  generateTimeVector params = Done time ->
  (modType = FM -> time <> []) ->
  forall n trial, exists ms,
    parallelTrialLoop modType params targetSNR draws trial n = Done ms.
Proof.
  intros Hmod Ht Hne. induction n as [|n IH]; intros trial; simpl; [eauto|].
  destruct (defaultTrial_total (dflt := replaySource) false modType params targetSNR
              time (draws trial) Hmod Ht Hne) as (x & g1 & ->).
  destruct (IH (S trial)) as (ms & ->). simpl. eauto.
Qed.

Lemma simulateSNRPerformanceParallel_total (modType : ModulationType)
    (params : SignalParams) (snrRange : list float) (numTrials numWorkers : Z)
    (time : list float) (draws : nat -> nat -> nat -> float) :
  modType = AM \/ modType = FM ->
  generateTimeVector params = Done time ->
  (modType = FM -> time <> []) ->
  (0 <= numTrials)%Z ->
  exists results,
    simulateSNRPerformanceParallel modType params snrRange numTrials numWorkers draws
      = Done results /\
    length results = length snrRange.
Proof.
  intros Hmod Ht Hne Hn. unfold simulateSNRPerformanceParallel.
  destruct (numWorkers <=? 0)%Z.
  { eexists. split; [reflexivity|]. apply repeat_length. }
  unfold jobsOf. generalize 0%nat as k.
  induction snrRange as [|snr rest IH]; intros k; simpl; [eauto|].
  unfold make_floats.
  replace (numTrials <? 0)%Z with false by (symmetry; apply Z.ltb_ge; lia).
  cbn [mbind outcome_bind].
  destruct (parallelTrialLoop_total modType params snr time (draws k) Hmod Ht Hne
              (length (repeat 0 (Z.to_nat numTrials))) 0%nat) as (ms & ->).
  cbn [mbind outcome_bind].
  destruct (IH (S k)) as (results & -> & Hlen).
  cbn [mbind outcome_bind]. eexists. split; [reflexivity|]. simpl. congruence.
Qed.

(** With a seed at hand (supplied, or generated by the secure source),
    parameters whose time vectors exist (non-empty for FM) and a
    non-negative trial count, the operation completes with a nil error and
    one result per SNR point and scheme. *)
Theorem run_sweep_completes (amParams fmParams : SignalParams)
    (config : SimulationConfig) (env : Env error) (amTime fmTime : list float) :
  SimulationConfig.Seed config <> 0%Z \/ (exists bytes, cryptoRead error env = inr bytes) ->
  generateTimeVector amParams = Done amTime ->
  generateTimeVector fmParams = Done fmTime ->
  fmTime <> [] ->
  (0 <= SimulationConfig.NumTrials config)%Z ->
  exists amResults fmResults stats,
    OptimizedMonteCarloSimulation error amParams fmParams config env
      = Done (amResults, fmResults, stats, None) /\
    length amResults = length (SimulationConfig.SNRRange config) /\
    length fmResults = length (SimulationConfig.SNRRange config).
Proof.
  intros Hseed Ha Hf Hne Hn. unfold OptimizedMonteCarloSimulation.
  set (seeded := if (SimulationConfig.Seed config =? 0)%Z then generateCryptoSeed error env
                 else (SimulationConfig.Seed config, None)).
  assert (Hs : exists seed, seeded = (seed, None)).
  { subst seeded. unfold generateCryptoSeed.
    destruct (Z.eqb_spec (SimulationConfig.Seed config) 0) as [Hz|Hnz]; [|eauto].
    destruct Hseed as [Hnz|[bytes ->]]; [contradiction|eauto]. }
  destruct Hs as [seed ->].
  destruct (SimulationConfig.UseParallel config && _).
  - destruct (simulateSNRPerformanceParallel_total AM amParams
                (SimulationConfig.SNRRange config) (SimulationConfig.NumTrials config)
                (SimulationConfig.NumWorkers config) amTime (grants error env AM)
                (or_introl eq_refl) Ha ltac:(discriminate) Hn) as (a & -> & La).
    destruct (simulateSNRPerformanceParallel_total FM fmParams
                (SimulationConfig.SNRRange config) (SimulationConfig.NumTrials config)
                (SimulationConfig.NumWorkers config) fmTime (grants error env FM)
                (or_intror eq_refl) Hf (fun _ => Hne) Hn) as (f & -> & Lf).
    cbn [mbind outcome_bind]. eauto 10.
  - destruct (simulateSNRPerformance_total AM amParams
                (SimulationConfig.SNRRange config) (SimulationConfig.NumTrials config)
                amTime (or_introl eq_refl) Ha ltac:(discriminate) Hn
                (defaultSeed seed (default0 error env))) as (a & g1 & -> & La).
    cbn [mbind outcome_bind].
    destruct (simulateSNRPerformance_total FM fmParams
                (SimulationConfig.SNRRange config) (SimulationConfig.NumTrials config)
                fmTime (or_intror eq_refl) Hf (fun _ => Hne) Hn g1) as (f & g2 & -> & Lf).
    cbn [mbind outcome_bind]. eauto 10.
Qed.

End RunSweepProperties.

(** * Properties of the validation, the helpers and the drivers *)

Section ValidationProperties.

Local Open Scope float_scope.

(** ** Result validation *)

(** One step of the validation loop passes exactly the acceptable results. *)
Lemma validation_step (r : PerformanceResult) :
  acceptable r = true <->
  (IsNaN (PerformanceResult.OutputSNR_dB r) || IsInf (PerformanceResult.OutputSNR_dB r)) = false /\
  (PerformanceResult.StdDev r <? 0) = false /\
  ((PerformanceResult.OutputSNR_dB r <? -100) || (100 <? PerformanceResult.OutputSNR_dB r)) = false.
Proof.
  unfold acceptable. set (snr := PerformanceResult.OutputSNR_dB r).
  rewrite !andb_true_iff, negb_true_iff, !orb_false_iff, !F64SignFacts.leb_ltb.
  change (IsNaN snr) with (is_nan snr). unfold IsInf. rewrite orb_false_iff. split.
  - intros [[(_ & Hn & Hlo) (_ & _ & Hhi)] Hsd]. repeat split; auto.
    + destruct (MaxFloat64 <? snr) eqn:E; [|reflexivity].
      rewrite (F64Facts.ltb_trans 100 MaxFloat64 snr eq_refl E) in Hhi. discriminate.
    + destruct (snr <? - MaxFloat64) eqn:E; [|reflexivity].
      rewrite (F64Facts.ltb_trans snr (- MaxFloat64) (-100) E eq_refl) in Hlo. discriminate.
  - intros [[Hn _] [Hsd [Hlo Hhi]]]. repeat split; auto.
Qed.

Lemma validateFrom_spec (results : list PerformanceResult) :
  forall i : Z,
  match validateFrom i results with
  | None => Forall (fun r => acceptable r = true) results
  | Some e =>
      exists (k : nat) (r : PerformanceResult),
        errorIndex e = (i + Z.of_nat k)%Z /\ results !! k = Some r /\
        acceptable r = false /\
        Forall (fun r => acceptable r = true) (take k results)
  end.
Proof.
  induction results as [|r results IH]; intros i; simpl; [constructor|].
  pose proof (validation_step r) as Hstep.
  destruct (IsNaN _ || IsInf _) eqn:E1.
  { exists 0%nat, r. simpl. repeat split; [lia| |constructor].
    destruct (acceptable r); [|reflexivity].
    destruct (proj1 Hstep eq_refl) as [? _]. discriminate. }
  destruct (PerformanceResult.StdDev r <? 0) eqn:E2.
  { exists 0%nat, r. simpl. repeat split; [lia| |constructor].
    destruct (acceptable r); [|reflexivity].
    destruct (proj1 Hstep eq_refl) as (_ & ? & _). discriminate. }
  destruct ((_ <? -100) || (100 <? _)) eqn:E3.
  { exists 0%nat, r. simpl. repeat split; [lia| |constructor].
    destruct (acceptable r); [|reflexivity].
    destruct (proj1 Hstep eq_refl) as (_ & _ & ?). discriminate. }
  assert (Hr : acceptable r = true) by (apply Hstep; auto).
  specialize (IH (i + 1)%Z). destruct (validateFrom (i + 1) results) as [e|].
  - destruct IH as (k & r' & Hi & Hk & Hbad & Hpre).
    exists (S k), r'. simpl. repeat split; [lia|exact Hk|exact Hbad|].
    constructor; assumption.
  - constructor; assumption.
Qed.

(** The validation returns nil exactly when every result has its mean
    output SNR in [-100, 100] and a standard deviation that is not below
    zero (a NaN standard deviation passes); otherwise the error names the
    first result that fails this, and every result before it passes. *)
Theorem ValidateSimulationResults_spec (results : list PerformanceResult) :
  (ValidateSimulationResults results = None <->
   Forall (fun r => acceptable r = true) results) /\
  (forall e, ValidateSimulationResults results = Some e ->
     exists (k : nat) (r : PerformanceResult),
       errorIndex e = Z.of_nat k /\ results !! k = Some r /\
       acceptable r = false /\
       Forall (fun r => acceptable r = true) (take k results)).
Proof.
  unfold ValidateSimulationResults.
  pose proof (validateFrom_spec results 0%Z) as H.
  destruct (validateFrom 0 results) as [e|]; split.
  - split; [discriminate|]. intros Hall.
    destruct H as (k & r & _ & Hk & Hbad & _).
    rewrite List.Forall_forall in Hall.
    rewrite (Hall r) in Hbad; [discriminate|].
    apply list_elem_of_In. eapply list_elem_of_lookup_2, Hk.
  - intros e' He. inversion He; subst e'.
    destruct H as (k & r & Hi & Hrest). exists k, r. split; [lia|exact Hrest].
  - split; auto.
  - discriminate.
Qed.

End ValidationProperties.

Section DriverProperties.

Context {math : MathLib} {rand : RandSource} {dflt : DefaultSource}.

Local Open Scope float_scope.

(** ** The explicit-generator injector of montecarlo.go *)

Lemma OptimizedAWGNWithSeed_loop_agrees (noiseStdDev : float) (values : list float) :
  forall r : ReproducibleRNG,
  OptimizedAWGNWithSeed_loop noiseStdDev values r =
  (fst (addAWGNWithRNG_loop noiseStdDev values (rrng r)),
   {| rrng := snd (addAWGNWithRNG_loop noiseStdDev values (rrng r)); rseed := rseed r |}).
Proof.
  induction values as [|val rest IH]; intros [g s]; simpl; [reflexivity|].
  unfold ReproducibleRNG_NormFloat64. simpl.
  destruct (NormFloat64 g) as [z g1]. rewrite IH. simpl.
  destruct (addAWGNWithRNG_loop noiseStdDev rest g1) as [out g2]. reflexivity.
Qed.

(** [OptimizedAWGNWithSeed] on a [ReproducibleRNG] returns the signal that
    [addAWGNWithRNG] returns on the generator inside it, advances that
    generator by the same draws, and keeps the recorded seed; started from
    [NewReproducibleRNG seed] it is [addAWGNWithRNG] on
    [rand.New(rand.NewSource(seed))]. *)
Theorem OptimizedAWGNWithSeed_agrees (signal : Signal) (snrDB : float) :
  (forall r : ReproducibleRNG,
     OptimizedAWGNWithSeed signal snrDB r =
     (fst (addAWGNWithRNG signal snrDB (rrng r)),
      {| rrng := snd (addAWGNWithRNG signal snrDB (rrng r)); rseed := rseed r |})) /\
  (forall seed : Z,
     fst (OptimizedAWGNWithSeed signal snrDB (NewReproducibleRNG seed)) =
       fst (addAWGNWithRNG signal snrDB (NewSource seed)) /\
     GetSeed (snd (OptimizedAWGNWithSeed signal snrDB (NewReproducibleRNG seed))) = seed).
Proof.
  assert (H : forall r : ReproducibleRNG,
     OptimizedAWGNWithSeed signal snrDB r =
     (fst (addAWGNWithRNG signal snrDB (rrng r)),
      {| rrng := snd (addAWGNWithRNG signal snrDB (rrng r)); rseed := rseed r |})).
  { intros r. unfold OptimizedAWGNWithSeed, addAWGNWithRNG, noiseStdDevOf, signalPowerOf.
    cbv zeta. rewrite OptimizedAWGNWithSeed_loop_agrees.
    destruct (addAWGNWithRNG_loop _ (Values signal) (rrng r)) as [out g]. reflexivity. }
  split; [exact H|]. intros seed. rewrite H. split; reflexivity.
Qed.

(** ** Sweeps without workers and on degenerate trial counts *)

(** With a worker count of zero or less, the parallel sweep starts no
    worker: whatever the parameters, no trial runs, and both arrays come
    back with one zero-valued PerformanceResult per SNR point. *)
Theorem parallel_sweep_without_workers (amParams fmParams : SignalParams)
    (config : MonteCarloConfig) (sched : Schedule) :
  fair sched ->
  (MonteCarloConfig.NumWorkers config <= 0)%Z ->
  runParallelMonteCarloSimulation amParams fmParams config sched =
  Done (repeat PerformanceResult.zero (length (MonteCarloConfig.SNRRange config)),
        repeat PerformanceResult.zero (length (MonteCarloConfig.SNRRange config))).
Proof.
  intros Hfair Hw. rewrite runParallel_in_order by exact Hfair.
  replace (workerRands config) with (@nil rng).
  - rewrite workerPhase_no_worker. cbn [mbind outcome_bind].
    replace (0 <? MonteCarloConfig.NumWorkers config)%Z with false; [reflexivity|].
    symmetry. apply Z.ltb_ge. exact Hw.
  - unfold workerRands. replace (Z.to_nat (MonteCarloConfig.NumWorkers config)) with 0%nat by lia.
    reflexivity.
Qed.

(** The standard deviation that the aggregators compute is never below
    zero, whatever the measurements and the mean (it can be NaN, +Inf, or
    -0 for an empty list). *)
Lemma calculateStdDev_not_negative (ms : list float) (mean : float) :
  (calculateStdDev ms mean <? 0) = false.
Proof.
  unfold calculateStdDev.
  destruct ms as [|m ms]; [vm_compute; reflexivity|].
  apply F64SignFacts.ltb_zero_unsigned.
  rewrite FloatAxioms.sqrt_spec. apply SFSignFacts.sqrt_unsigned.
  rewrite FloatAxioms.div_spec. apply SFSignFacts.div_plus_unsigned.
  - apply (F64SignFacts.fold_add_unsigned (fun val => (val - mean) * (val - mean)));
      [|apply F64SignFacts.zero_unsigned].
    intros x. rewrite FloatAxioms.mul_spec. apply SFSignFacts.mul_self_unsigned.
  - apply F64SignFacts.plus_of_int. simpl length. lia.
Qed.

(** With a single measurement the standard deviation is NaN or +Inf: the
    divisor N-1 is zero. *)
Lemma calculateStdDev_single (x mean : float) :
  calculateStdDev [x] mean = nan \/ calculateStdDev [x] mean = infinity.
Proof.
  unfold calculateStdDev. simpl fold_left. simpl length.
  change (F64.of_int (Z.of_nat 1 - 1)) with 0.
  set (q := 0 + (x - mean) * (x - mean)).
  assert (Hq : SFSign.unsigned (Prim2SF q)).
  { unfold q. rewrite FloatAxioms.add_spec. apply SFSignFacts.add_unsigned.
    - apply F64SignFacts.zero_unsigned.
    - rewrite FloatAxioms.mul_spec. apply SFSignFacts.mul_self_unsigned. }
  unfold SFSign.unsigned in Hq.
  assert (H : Prim2SF (sqrt (q / 0)) = S754_nan \/
              Prim2SF (sqrt (q / 0)) = S754_infinity false).
  { rewrite FloatAxioms.sqrt_spec, FloatAxioms.div_spec.
    change (Prim2SF 0) with (S754_zero false).
    destruct (Prim2SF q) as [s|[]| |[] mq eq]; simpl in *; auto; exfalso; tauto. }
  destruct H as [H | H]; [left | right]; apply Prim2SF_inj; rewrite H; reflexivity.
Qed.

(** The degenerate trial counts of the aggregator.  A negative count
    panics in [make] before anything else runs.  With a count of zero no
    trial runs and the generator is left as it was: the mean is 0/0 = NaN
    and the standard deviation sqrt(0/-1) = -0.  With a count of one the
    standard deviation is NaN or +Inf, never a number. *)
Theorem runSingleSNRSimulation_degenerate (modType : ModulationType)
    (params : SignalParams) (targetSNR : float) (r : rng) :
  (forall n : Z, (n < 0)%Z ->
     runSingleSNRSimulation modType params targetSNR n r = Abort PanicMakesliceLen) /\
  runSingleSNRSimulation modType params targetSNR 0 r =
    Done ({| PerformanceResult.InputSNR_dB := targetSNR;
             PerformanceResult.OutputSNR_dB := nan;
             PerformanceResult.StdDev := neg_zero;
             PerformanceResult.ModulationType := modType;
             PerformanceResult.NumTrials := 0 |}, r) /\
  (forall (x : float) (r' : rng),
     runTrial modType params targetSNR r = Done (x, r') ->
     exists res,
       runSingleSNRSimulation modType params targetSNR 1 r = Done (res, r') /\
       (PerformanceResult.StdDev res = nan \/ PerformanceResult.StdDev res = infinity)).
Proof.
  split; [|split].
  - intros n Hn. unfold runSingleSNRSimulation, make_floats.
    replace (n <? 0)%Z with true by (symmetry; apply Z.ltb_lt; exact Hn).
    reflexivity.
  - reflexivity.
  - intros x r' Hx. unfold runSingleSNRSimulation. simpl. rewrite Hx. simpl.
    eexists. split; [reflexivity|]. simpl. apply calculateStdDev_single.
Qed.

(** The standard deviation of every aggregate is not below zero. *)
Lemma runSingleSNRSimulation_stddev (modType : ModulationType) (params : SignalParams)
    (targetSNR : float) (n : Z) (r r' : rng) (res : PerformanceResult) :
  runSingleSNRSimulation modType params targetSNR n r = Done (res, r') ->
  (PerformanceResult.StdDev res <? 0) = false.
Proof.
  unfold runSingleSNRSimulation. destruct (make_floats n) as [slots|e]; [|discriminate].
  cbn [mbind outcome_bind].
  destruct (trialLoop modType params targetSNR (length slots) r) as [[ms r1]|e];
    [|discriminate].
  cbn [mbind outcome_bind]. intros H. inversion H; subst. simpl.
  apply calculateStdDev_not_negative.
Qed.

Lemma runPoint_stddev (amParams fmParams : SignalParams) (config : MonteCarloConfig)
    (snr : float) (r r' : rng) (am fm : PerformanceResult) :
  runPoint amParams fmParams config snr r = Done (am, fm, r') ->
  (PerformanceResult.StdDev am <? 0) = false /\
  (PerformanceResult.StdDev fm <? 0) = false.
Proof.
  unfold runPoint.
  destruct (runSingleSNRSimulation AM amParams snr _ r) as [[a r1]|e] eqn:Ha;
    [|discriminate].
  cbn [mbind outcome_bind].
  destruct (runSingleSNRSimulation FM fmParams snr _ r1) as [[f r2]|e] eqn:Hf;
    [|discriminate].
  cbn [mbind outcome_bind]. intros H. inversion H; subst. simpl.
  split; eapply runSingleSNRSimulation_stddev; eassumption.
Qed.

Lemma sequentialLoop_stddev (amParams fmParams : SignalParams) (config : MonteCarloConfig)
    (snrs : list float) :
  forall r ams fms,
    sequentialLoop amParams fmParams config snrs r = Done (ams, fms) ->
    Forall (fun res => (PerformanceResult.StdDev res <? 0) = false) (ams ++ fms).
Proof.
  induction snrs as [|snr rest IH]; intros r ams fms H; simpl in H.
  - inversion H. constructor.
  - destruct (runPoint amParams fmParams config snr r) as [[[am fm] r1]|e] eqn:Hp;
      [|discriminate].
    cbn [mbind outcome_bind] in H.
    destruct (sequentialLoop amParams fmParams config rest r1) as [[ams' fms']|e] eqn:Hs;
      [|discriminate].
    cbn [mbind outcome_bind] in H. inversion H; subst.
    apply runPoint_stddev in Hp as [Ha Hf]. apply IH in Hs.
    apply Forall_app in Hs as [Hs1 Hs2].
    apply Forall_app. split; constructor; assumption.
Qed.

Lemma workerPhase_stddev (amParams fmParams : SignalParams) (config : MonteCarloConfig)
    (o : nat -> nat) (jobs : list (nat * float)) :
  forall rands ams fms,
    workerPhase amParams fmParams config o jobs rands = Done (ams, fms) ->
    Forall (fun res => (PerformanceResult.StdDev res <? 0) = false)
           (map snd ams ++ map snd fms).
Proof.
  induction jobs as [|[k snr] jobs IH]; intros rands ams fms H; simpl in H.
  - inversion H. constructor.
  - destruct (rands !! (o k mod length rands)%nat) as [r|]; [|inversion H; constructor].
    destruct (runPoint amParams fmParams config snr r) as [[[am fm] r1]|e] eqn:Hp;
      [|discriminate].
    cbn [mbind outcome_bind] in H.
    destruct (workerPhase amParams fmParams config o jobs _) as [[ams' fms']|e] eqn:Hs;
      [|discriminate].
    cbn [mbind outcome_bind] in H. inversion H; subst.
    apply runPoint_stddev in Hp as [Ha Hf]. apply IH in Hs.
    apply Forall_app in Hs as [Hs1 Hs2]. simpl.
    constructor; [assumption|].
    apply Forall_app. split; [assumption|constructor; assumption].
Qed.

End DriverProperties.

(** ** The Phase 5 driver and the reproducibility checks *)

Section Phase5Properties.

Context {math : MathLib} {rand : RandSource} {dflt : DefaultSource}.
Variable error : Type.

Local Open Scope float_scope.

Lemma validateFrom_negative (results : list PerformanceResult) :
  forall (i j : Z) (v : float),
    validateFrom i results = Some (NegativeStdDev j v) ->
    exists r, In r results /\ (PerformanceResult.StdDev r <? 0) = true.
Proof.
  induction results as [|r results IH]; intros i j v H; simpl in H; [discriminate|].
  destruct (IsNaN _ || IsInf _); [discriminate|].
  destruct (PerformanceResult.StdDev r <? 0) eqn:E.
  - exists r. split; [now left|exact E].
  - destruct (_ || _); [discriminate|].
    destruct (IH _ _ _ H) as (r' & Hin & Hr'). exists r'. split; [now right|exact Hr'].
Qed.

Lemma parallel_stddev (amParams fmParams : SignalParams) (config : MonteCarloConfig)
    (sched : Schedule) (ams fms : list PerformanceResult) :
  fair sched ->
  runParallelMonteCarloSimulation amParams fmParams config sched = Done (ams, fms) ->
  Forall (fun res => (PerformanceResult.StdDev res <? 0) = false) (ams ++ fms).
Proof.
  intros Hfair. rewrite runParallel_in_order by exact Hfair.
  destruct (workerPhase amParams fmParams config (owner sched) _ _)
    as [[ams' fms']|e] eqn:Hw; [|discriminate].
  cbn [mbind outcome_bind].
  destruct (0 <? MonteCarloConfig.NumWorkers config)%Z; intros H; inversion H; subst.
  - eapply workerPhase_stddev, Hw.
  - apply Forall_app. split; apply List.Forall_forall; intros x Hx;
      apply repeat_spec in Hx; subst x; reflexivity.
Qed.

(** [RunPhase5MonteCarloSimulation] never returns an error, and no result
    it returns, from the sequential or from the parallel sweep, has a
    standard deviation below zero: the validation that the pipeline applies
    to its arrays cannot fail with the negative-standard-deviation error. *)
Theorem phase5_results_pass_stddev_check (amParams fmParams : SignalParams)
    (config : MonteCarloConfig) (meter : Meter) (sched : Schedule) (g g' : dstate)
    (results : Phase5MonteCarloResults) (err : option error) :
  fair sched ->
  RunPhase5MonteCarloSimulation error amParams fmParams config meter sched g
    = Done (results, err, g') ->
  err = None /\
  Forall (fun res => (PerformanceResult.StdDev res <? 0) = false)
         (Phase5MonteCarloResults.AMResults results
          ++ Phase5MonteCarloResults.FMResults results) /\
  (forall (i : Z) (v : float),
     ValidateSimulationResults (Phase5MonteCarloResults.AMResults results)
       <> Some (NegativeStdDev i v) /\
     ValidateSimulationResults (Phase5MonteCarloResults.FMResults results)
       <> Some (NegativeStdDev i v)).
Proof.
  intros Hfair. unfold RunPhase5MonteCarloSimulation.
  set (run := if MonteCarloConfig.UseParallel config then _ else _).
  destruct run as [[ams fms]|e] eqn:Hrun; [|discriminate].
  cbn [mbind outcome_bind]. intros H. inversion H; subst. clear H. simpl.
  assert (Hall : Forall (fun res => (PerformanceResult.StdDev res <? 0) = false)
                        (ams ++ fms)).
  { unfold run in Hrun. destruct (MonteCarloConfig.UseParallel config).
    - eapply parallel_stddev; eassumption.
    - eapply sequentialLoop_stddev, Hrun. }
  split; [reflexivity|]. split; [exact Hall|].
  apply Forall_app in Hall as [Ha Hf].
  intros i v. split; intros Hv; apply validateFrom_negative in Hv as (r & Hin & Hr).
  - rewrite List.Forall_forall in Ha. rewrite (Ha r Hin) in Hr. discriminate.
  - rewrite List.Forall_forall in Hf. rewrite (Hf r Hin) in Hr. discriminate.
Qed.

(** Two equal arrays never differ by more than a tolerance that is not
    negative: the difference of a number with itself is 0, or NaN. *)
Lemma firstDifference_same (tolerance : float) (results : list PerformanceResult) :
  (0 <=? tolerance) = true ->
  forall (rest : list PerformanceResult) (i : nat),
    (i + length rest <= length results)%nat ->
    firstDifference tolerance i results results rest = Done None.
Proof.
  intros Htol. induction rest as [|x rest IH]; intros i Hi; simpl; [reflexivity|].
  simpl in Hi. unfold resultAt.
  destruct (results !! i) as [r|] eqn:Hr.
  - cbn [mbind outcome_bind].
    rewrite F64SignFacts.abs_sub_self_small by exact Htol.
    apply IH. lia.
  - apply lookup_ge_None in Hr. lia.
Qed.

(** [VerifyReproducibility] cannot report a difference: when the
    sequential sweep on its test configuration completes, it returns nil
    (also when results are NaN or infinite), and it panics when the sweep
    panics. *)
Theorem VerifyReproducibility_returns_nil (amParams fmParams : SignalParams)
    (meter1 meter2 : Meter) (sched1 sched2 : Schedule) (g : dstate) :
  match runSequentialMonteCarloSimulation amParams fmParams reproducibilityConfig with
  | Done _ =>
      VerifyReproducibility error amParams fmParams meter1 meter2 sched1 sched2 g
      = Done (None, defaultSeed 12345 (defaultSeed 12345 g))
  | Abort e =>
      VerifyReproducibility error amParams fmParams meter1 meter2 sched1 sched2 g
      = Abort e
  end.
Proof.
  unfold VerifyReproducibility, RunPhase5MonteCarloSimulation. cbv zeta.
  change (MonteCarloConfig.UseParallel reproducibilityConfig) with false. cbv iota.
  destruct (runSequentialMonteCarloSimulation amParams fmParams reproducibilityConfig)
    as [[ams fms]|e]; [|reflexivity].
  cbn [mbind outcome_bind Phase5MonteCarloResults.AMResults
       Phase5MonteCarloResults.FMResults].
  rewrite !firstDifference_same by (reflexivity || (simpl; lia)).
  reflexivity.
Qed.

End Phase5Properties.

Section ReproducibilityTestProperties.

Context {math : MathLib} {dflt : DefaultSource}.
Variable error : Type.

Local Open Scope float_scope.

Lemma simulateSNRPerformance_length (modType : ModulationType) (params : SignalParams)
    (snrRange : list float) (numTrials : Z) :
  forall g results g',
    simulateSNRPerformance modType params snrRange numTrials g = Done (results, g') ->
    length results = length snrRange.
Proof.
  unfold simulateSNRPerformance.
  induction snrRange as [|snr rest IH]; intros g results g' H; simpl in H.
  - inversion H. reflexivity.
  - destruct (make_floats numTrials) as [slots|e]; [|discriminate].
    cbn [mbind outcome_bind] in H.
    destruct (defaultTrialLoop true modType params snr (length slots) g)
      as [[ms g1]|e]; [|discriminate].
    cbn [mbind outcome_bind] in H.
    destruct (simulateSNRPerformance_loop modType params rest numTrials g1)
      as [[rs g2]|e] eqn:Hrest; [|discriminate].
    cbn [mbind outcome_bind] in H. inversion H; subst. simpl.
    f_equal. eapply IH, Hrest.
Qed.

Lemma firstDifferenceBoth_spec (tolerance : float) (am1 am2 fm1 fm2 : list PerformanceResult)
    (n : nat) :
  length am1 = n -> length am2 = n -> length fm1 = n -> length fm2 = n ->
  forall (rest : list PerformanceResult) (i : nat),
    (i + length rest = n)%nat ->
    (forall j, (j < i)%nat -> outputsAgree tolerance am1 am2 j = true
                              /\ outputsAgree tolerance fm1 fm2 j = true) ->
    exists verdict,
      firstDifferenceBoth error tolerance i am1 am2 fm1 fm2 rest = Done verdict /\
      firstMismatch tolerance am1 am2 fm1 fm2 n verdict.
Proof.
  intros H1 H2 H3 H4.
  induction rest as [|x rest IH]; intros i Hi Hbefore; simpl.
  - exists None. split; [reflexivity|]. simpl in Hi. simpl. intros j Hj.
    apply Hbefore. lia.
  - simpl in Hi. unfold resultAt.
    destruct (am1 !! i) as [a1|] eqn:E1; [|apply lookup_ge_None in E1; lia].
    destruct (am2 !! i) as [a2|] eqn:E2; [|apply lookup_ge_None in E2; lia].
    destruct (fm1 !! i) as [f1|] eqn:E3; [|apply lookup_ge_None in E3; lia].
    destruct (fm2 !! i) as [f2|] eqn:E4; [|apply lookup_ge_None in E4; lia].
    cbn [mbind outcome_bind].
    assert (Ha : outputsAgree tolerance am1 am2 i
                 = negb (tolerance <? abs (PerformanceResult.OutputSNR_dB a1
                                           - PerformanceResult.OutputSNR_dB a2)))
      by (unfold outputsAgree; rewrite E1, E2; reflexivity).
    assert (Hf : outputsAgree tolerance fm1 fm2 i
                 = negb (tolerance <? abs (PerformanceResult.OutputSNR_dB f1
                                           - PerformanceResult.OutputSNR_dB f2)))
      by (unfold outputsAgree; rewrite E3, E4; reflexivity).
    destruct (tolerance <? abs (PerformanceResult.OutputSNR_dB a1
                                - PerformanceResult.OutputSNR_dB a2)).
    + exists (Some (AMResultsDiffer i)). split; [reflexivity|].
      simpl. repeat split; [lia|apply Hbefore|apply Hbefore|exact Ha]; assumption.
    + destruct (tolerance <? abs (PerformanceResult.OutputSNR_dB f1
                                  - PerformanceResult.OutputSNR_dB f2)).
      * exists (Some (FMResultsDiffer i)). split; [reflexivity|].
        simpl. repeat split; [lia|apply Hbefore|apply Hbefore|exact Ha|exact Hf]; assumption.
      * apply IH; [lia|]. intros j Hj.
        destruct (Nat.eq_dec j i) as [->|Hne]; [split; assumption|apply Hbefore; lia].
Qed.

Lemma outputsAgree_same (tolerance : float) (results : list PerformanceResult) (i : nat) :
  (0 <=? tolerance) = true -> (i < length results)%nat ->
  outputsAgree tolerance results results i = true.
Proof.
  intros Htol Hi. unfold outputsAgree.
  destruct (results !! i) as [r|] eqn:E; [|apply lookup_ge_None in E; lia].
  rewrite F64SignFacts.abs_sub_self_small by exact Htol. reflexivity.
Qed.

Lemma OptimizedMonteCarloSimulation_lengths (params : SignalParams) (seed numTrials : Z)
    (env : Env error) (ams fms : list PerformanceResult) (stats : SimulationStats)
    (err : option error) :
  OptimizedMonteCarloSimulation error params params
    (reproducibilityTestConfig seed numTrials) env = Done (ams, fms, stats, err) ->
  err = None -> length ams = 3%nat /\ length fms = 3%nat.
Proof.
  unfold OptimizedMonteCarloSimulation.
  cbn [SimulationConfig.Seed SimulationConfig.UseParallel SimulationConfig.NumWorkers
       SimulationConfig.SNRRange SimulationConfig.NumTrials reproducibilityTestConfig].
  destruct (if (seed =? 0)%Z then generateCryptoSeed error env else (seed, None))
    as [seed' [e|]]; [intros H; inversion H; discriminate|].
  cbn [andb].
  destruct (simulateSNRPerformance AM params _ numTrials _) as [[ams' g1]|e] eqn:Ha;
    [|discriminate].
  cbn [mbind outcome_bind].
  destruct (simulateSNRPerformance FM params _ numTrials g1) as [[fms' g2]|e] eqn:Hf;
    [|discriminate].
  cbn [mbind outcome_bind]. intros H _. inversion H; subst.
  apply simulateSNRPerformance_length in Ha, Hf. simpl in Ha, Hf. split; assumption.
Qed.

(** [ReproducibilityTest] runs the simulation twice on one configuration
    and compares the three output SNRs of each scheme.  A run that panics
    makes it panic, a run that returns an error makes it return that error.
    When both runs return, it returns nil exactly when the AM and the FM
    outputs of the two runs agree within 0.01 at every point -- a NaN
    difference counts as agreement -- and otherwise reports the first point
    at which they do not, the AM output looked at first.  Runs with equal
    results give nil.  Nothing here depends on what [rand.Seed] does to the
    default generator: the second run is whatever the surroundings [env2]
    make it. *)
Theorem ReproducibilityTest_verdict (params : SignalParams) (seed numTrials : Z)
    (env1 env2 : Env error) :
  match OptimizedMonteCarloSimulation error params params
          (reproducibilityTestConfig seed numTrials) env1 with
  | Abort e => ReproducibilityTest error params seed numTrials env1 env2 = Abort e
  | Done (_, _, _, Some e) =>
      ReproducibilityTest error params seed numTrials env1 env2
      = Done (Some (FirstRunFailed e))
  | Done (am1, fm1, _, None) =>
      match OptimizedMonteCarloSimulation error params params
              (reproducibilityTestConfig seed numTrials) env2 with
      | Abort e => ReproducibilityTest error params seed numTrials env1 env2 = Abort e
      | Done (_, _, _, Some e) =>
          ReproducibilityTest error params seed numTrials env1 env2
          = Done (Some (SecondRunFailed e))
      | Done (am2, fm2, _, None) =>
          exists verdict,
            ReproducibilityTest error params seed numTrials env1 env2 = Done verdict /\
            firstMismatch hundredth am1 am2 fm1 fm2 3 verdict /\
            (am1 = am2 -> fm1 = fm2 -> verdict = None)
      end
  end.
Proof.
  unfold ReproducibilityTest. cbv zeta.
  destruct (OptimizedMonteCarloSimulation error params params
              (reproducibilityTestConfig seed numTrials) env1)
    as [[[[am1 fm1] st1] [e1|]]|e1] eqn:Hrun1; cbn [mbind outcome_bind];
    [reflexivity| |reflexivity].
  destruct (OptimizedMonteCarloSimulation error params params
              (reproducibilityTestConfig seed numTrials) env2)
    as [[[[am2 fm2] st2] [e2|]]|e2] eqn:Hrun2; cbn [mbind outcome_bind];
    [reflexivity| |reflexivity].
  destruct (OptimizedMonteCarloSimulation_lengths _ _ _ _ _ _ _ _ Hrun1 eq_refl) as [La1 Lf1].
  destruct (OptimizedMonteCarloSimulation_lengths _ _ _ _ _ _ _ _ Hrun2 eq_refl) as [La2 Lf2].
  destruct (firstDifferenceBoth_spec hundredth am1 am2 fm1 fm2 3 La1 La2 Lf1 Lf2 am1 0%nat)
    as (verdict & Hv & Hm); [simpl; lia|intros j Hj; lia|].
  exists verdict. split; [exact Hv|]. split; [exact Hm|].
  intros <- <-.
  assert (Hsame : forall j, (j < 3)%nat ->
            outputsAgree hundredth am1 am1 j = true /\ outputsAgree hundredth fm1 fm1 j = true).
  { intros j Hj. split; apply outputsAgree_same; try reflexivity; lia. }
  destruct verdict as [[e|e|i|i]|]; simpl in Hm; try tauto; try reflexivity.
  - destruct Hm as (Hi & _ & Hd). rewrite (proj1 (Hsame i Hi)) in Hd. discriminate.
  - destruct Hm as (Hi & _ & _ & Hd). rewrite (proj2 (Hsame i Hi)) in Hd. discriminate.
Qed.
End ReproducibilityTestProperties.

Section SeriesProperties.

Context {math : MathLib} {rand : RandSource} {dflt : DefaultSource}.

Local Open Scope float_scope.

(** ** The first Monte Carlo driver *)

Lemma separateTrialLoop_none (amParams fmParams : SignalParams) (inputSNR : float)
    (numTrials : Z) (g : dstate) :
  (numTrials <= 0)%Z ->
  separateTrialLoop amParams fmParams inputSNR (Z.to_nat numTrials) 0 0 g = Done (0, 0, g).
Proof. intros H. replace (Z.to_nat numTrials) with 0%nat by lia. reflexivity. Qed.

(** Zero divided by the conversion of a negative [int] is the negative
    zero: the conversion is a negative number, the least [int] included. *)
Lemma zero_div_negative_count (numTrials : Z) :
  (- 2 ^ 63 <= numTrials < 0)%Z -> 0 / F64.of_int numTrials = neg_zero.
Proof.
  intros Hn. unfold F64.of_int.
  replace (numTrials <? 0)%Z with true by (symmetry; apply Z.ltb_lt; lia).
  destruct (Z.eqb_spec numTrials (- 2 ^ 63)) as [_|Hne]; [reflexivity|].
  apply Prim2SF_inj.
  rewrite FloatAxioms.div_spec, FloatAxioms.opp_spec, FloatAxioms.of_uint63_spec,
    Uint63.of_Z_spec.
  rewrite Z.mod_small by (change Uint63.wB with (2 ^ 63)%Z; lia).
  pose proof (SFFacts.binary_normalize_positive (- numTrials) ltac:(lia)) as Hp.
  change (Prim2SF 0) with (S754_zero false).
  change (Prim2SF neg_zero) with (S754_zero true).
  destruct (binary_normalize prec emax (- numTrials) 0 false) as [s|s| |[] m e];
    simpl in Hp; try tauto; reflexivity.
Qed.

(** [monteCarloSimulationSeparate] does not guard the trial count.  With a
    count (an [int]) of zero or less no trial runs, whatever the parameters:
    the default generator is left as it was and every entry of both arrays
    is [0 / float64(numTrials)], which is NaN for a count of zero and the
    negative zero for a negative count. *)
Theorem monteCarloSimulationSeparate_no_trials (amParams fmParams : SignalParams)
    (snrRange : list float) (numTrials : Z) (g : dstate) :
  (- 2 ^ 63 <= numTrials <= 0)%Z ->
  monteCarloSimulationSeparate amParams fmParams snrRange numTrials g =
    Done (map (fun _ => 0 / F64.of_int numTrials) snrRange,
          map (fun _ => 0 / F64.of_int numTrials) snrRange, g) /\
  (numTrials = 0%Z -> 0 / F64.of_int numTrials = nan) /\
  ((numTrials < 0)%Z -> 0 / F64.of_int numTrials = neg_zero).
Proof.
  intros Hn. split; [|split; [intros ->; reflexivity|]].
  - unfold monteCarloSimulationSeparate.
    induction snrRange as [|snr rest IH]; simpl; [reflexivity|].
    rewrite separateTrialLoop_none by lia. cbn [mbind outcome_bind].
    rewrite IH. reflexivity.
  - intros Hneg. apply zero_div_negative_count. lia.
Qed.

Lemma separateTrial_total (amParams fmParams : SignalParams) (inputSNR : float)
    (timeA timeF : list float) (g : dstate) :
  generateTimeVector amParams = Done timeA ->
  generateTimeVector fmParams = Done timeF ->
  timeF <> [] ->
  exists amSNR fmSNR g',
    separateTrial amParams fmParams inputSNR g = Done (amSNR, fmSNR, g').
Proof.
  intros HtA HtF Hne.
  destruct (generators_of_time amParams timeA HtA)
    as ((ba & Hba & _ & Lba) & _ & (a & Ha & _ & La) & _).
  destruct (generators_of_time fmParams timeF HtF)
    as ((bf & Hbf & _ & Lbf) & _ & _ & (f & Hf & _ & Lf)).
  unfold separateTrial. rewrite Hba, Hbf, Ha, Hf. cbn [mbind outcome_bind].
  pose proof (length_addAWGN a inputSNR g) as Lna.
  destruct (addAWGN a inputSNR g) as [noisyAM g1].
  pose proof (length_addAWGN f inputSNR g1) as Lnf.
  destruct (addAWGN f inputSNR g1) as [noisyFM g2]. simpl in Lna, Lnf.
  destruct (demodulateFM_nonempty noisyFM fmParams) as (out & -> & _ & Lo).
  { intros E. apply Hne. apply length_zero_iff_nil. rewrite E in Lnf. simpl in Lnf. lia. }
  cbn [mbind outcome_bind].
  rewrite (calculateSNR_equal_length ba (demodulateAM noisyAM))
    by (rewrite length_demodulateAM; congruence).
  cbn [mbind outcome_bind].
  rewrite (calculateSNR_equal_length bf out) by congruence.
  cbn [mbind outcome_bind]. eauto.
Qed.

Lemma separateTrialLoop_total (amParams fmParams : SignalParams) (inputSNR : float)
    (timeA timeF : list float) :
  generateTimeVector amParams = Done timeA ->
  generateTimeVector fmParams = Done timeF ->
  timeF <> [] ->
  forall n a f g, exists a' f' g',
    separateTrialLoop amParams fmParams inputSNR n a f g = Done (a', f', g').
Proof.
  intros HtA HtF Hne. induction n as [|n IH]; intros a f g; simpl; [eauto|].
  destruct (separateTrial_total amParams fmParams inputSNR timeA timeF g HtA HtF Hne)
    as (x & y & g1 & ->).
  cbn [mbind outcome_bind]. apply IH.
Qed.

(** On parameters whose time vectors exist, with at least one sample for
    FM, [monteCarloSimulationSeparate] and [monteCarloSimulation] complete
    for every trial count and return one mean per SNR point for each
    scheme. *)
Theorem monteCarloSimulationSeparate_completes (amParams fmParams : SignalParams)
    (snrRange : list float) (numTrials : Z) (timeA timeF : list float) (g : dstate) :
  generateTimeVector amParams = Done timeA ->
  generateTimeVector fmParams = Done timeF ->
  timeF <> [] ->
  (exists amSNRs fmSNRs g',
     monteCarloSimulationSeparate amParams fmParams snrRange numTrials g
       = Done (amSNRs, fmSNRs, g') /\
     length amSNRs = length snrRange /\ length fmSNRs = length snrRange) /\
  monteCarloSimulation fmParams snrRange numTrials g =
    monteCarloSimulationSeparate fmParams fmParams snrRange numTrials g.
Proof.
  intros HtA HtF Hne. split; [|reflexivity].
  unfold monteCarloSimulationSeparate. revert g.
  induction snrRange as [|snr rest IH]; intros g; simpl.
  - exists [], [], g. auto.
  - destruct (separateTrialLoop_total amParams fmParams snr timeA timeF HtA HtF Hne
                (Z.to_nat numTrials) 0 0 g) as (a & f & g1 & ->).
    cbn [mbind outcome_bind].
    destruct (IH g1) as (as_ & fs & g2 & -> & La & Lf).
    cbn [mbind outcome_bind]. eexists _, _, _. split; [reflexivity|].
    simpl. auto.
Qed.

(** ** Trial series of the Monte Carlo tests *)

Lemma amSeriesTrial_defaultTrial (params : SignalParams) (targetSNR : float) (g : dstate) :
  amSeriesTrial params targetSNR g = defaultTrial false AM params targetSNR g.
Proof.
  unfold amSeriesTrial, defaultTrial, computeOutputSNR.
  change (String.eqb AM AM) with true. cbv iota.
  destruct (generateBaseband params) as [b|e]; [|reflexivity]. cbn [mbind outcome_bind].
  destruct (generateAM params) as [a|e]; [|reflexivity]. cbn [mbind outcome_bind].
  destruct (addAWGN a targetSNR g) as [noisy g']. reflexivity.
Qed.

Lemma seriesScores_defaultTrialLoop (params : SignalParams) (targetSNR : float) (n : nat) :
  forall g, seriesScores (amSeriesTrial params targetSNR) n g =
            defaultTrialLoop false AM params targetSNR n g.
Proof.
  induction n as [|n IH]; intros g; simpl; [reflexivity|].
  rewrite amSeriesTrial_defaultTrial.
  destruct (defaultTrial false AM params targetSNR g) as [[x g1]|e]; [|reflexivity].
  cbn [mbind outcome_bind]. now rewrite IH.
Qed.

(** The loop keeps the running sum and the number of the counted scores. *)
Lemma seriesLoop_scores (trial : dstate -> outcome (float * dstate)) (n : nat) :
  forall (snrSum : float) (validTrials : Z) (g g' : dstate) (ms : list float),
    seriesScores trial n g = Done (ms, g') ->
    seriesLoop trial n snrSum validTrials g =
    Done (fold_left (fun sum x => sum + x) (List.filter countedSNR ms) snrSum,
          (validTrials + Z.of_nat (length (List.filter countedSNR ms)))%Z, g').
Proof.
  induction n as [|n IH]; intros snrSum validTrials g g' ms H; simpl in H |- *.
  - inversion H; subst. simpl. do 2 f_equal. f_equal. lia.
  - destruct (trial g) as [[x g1]|e]; [|discriminate]. cbn [mbind outcome_bind] in H |- *.
    destruct (seriesScores trial n g1) as [[rest g2]|e] eqn:Hrest; [|discriminate].
    cbn [mbind outcome_bind] in H. inversion H; subst. simpl.
    destruct (countedSNR x); rewrite (IH _ _ _ _ _ Hrest); simpl; do 2 f_equal;
      f_equal; lia.
Qed.

Lemma runSeries_countedMean (trial : dstate -> outcome (float * dstate)) (numTrials : Z)
    (g g' : dstate) (ms : list float) :
  seriesScores trial (Z.to_nat numTrials) g = Done (ms, g') ->
  runSeries trial numTrials g = Done (countedMean ms, g').
Proof.
  intros H. unfold runSeries. rewrite (seriesLoop_scores _ _ _ _ _ _ _ H).
  cbn [mbind outcome_bind]. unfold countedMean. simpl.
  destruct (List.filter countedSNR ms) as [|x xs]; reflexivity.
Qed.

(** [runMonteCarloTrial], on parameters whose time vector exists: it runs
    the AM trial of the sweeps (without the input check) [numTrials] times
    on the default generator and returns the mean of the counted scores
    only.  A score that is NaN, infinite or of magnitude 100 or more is
    dropped, and the result is 0 when none is counted. *)
Theorem runMonteCarloTrial_counted_mean (params : SignalParams) (targetSNR : float)
    (numTrials : Z) (time : list float) (g : dstate) :
  generateTimeVector params = Done time ->
  exists ms g',
    defaultTrialLoop false AM params targetSNR (Z.to_nat numTrials) g = Done (ms, g') /\
    runMonteCarloTrial params targetSNR numTrials g = Done (countedMean ms, g') /\
    (Forall (fun x => countedSNR x = false) ms ->
     runMonteCarloTrial params targetSNR numTrials g = Done (0, g')).
Proof.
  intros Ht.
  destruct (defaultTrialLoop_total false AM params targetSNR time (or_introl eq_refl) Ht
              ltac:(discriminate) (Z.to_nat numTrials) g) as (ms & g' & H).
  exists ms, g'. split; [exact H|].
  rewrite <- seriesScores_defaultTrialLoop in H.
  pose proof (runSeries_countedMean _ _ _ _ _ H) as Hrun.
  split; [exact Hrun|]. intros Hnone. unfold runMonteCarloTrial. rewrite Hrun.
  do 2 f_equal. unfold countedMean.
  replace (List.filter countedSNR ms) with (@nil float); [reflexivity|].
  symmetry. clear -Hnone. induction Hnone as [|x xs Hx _ IH]; simpl; [reflexivity|].
  now rewrite Hx.
Qed.

Lemma length_alignSignals (reference signal : list float) :
  length (alignSignals reference signal) = length signal.
Proof. apply alignSignals_spec. Qed.

Lemma fmSeriesTrial_total (params : SignalParams) (targetSNR : float)
    (time : list float) (g : dstate) :
  generateTimeVector params = Done time -> time <> [] ->
  exists outputSNR g', fmSeriesTrial params targetSNR g = Done (outputSNR, g').
Proof.
  intros Ht Hne.
  destruct (generators_of_time params time Ht)
    as ((b & Hb & _ & Lb) & _ & _ & (f & Hf & _ & Lf)).
  unfold fmSeriesTrial. rewrite Hb, Hf. cbn [mbind outcome_bind].
  pose proof (length_addAWGN f targetSNR g) as Ln.
  destruct (addAWGN f targetSNR g) as [noisy g']. simpl in Ln.
  destruct (demodulateFM_nonempty noisy params) as (out & -> & _ & Lo).
  { intros E. apply Hne. apply length_zero_iff_nil. rewrite E in Ln. simpl in Ln. lia. }
  cbn [mbind outcome_bind].
  rewrite calculateSNR_equal_length
    by (cbn [Values]; rewrite length_alignSignals; congruence).
  cbn [mbind outcome_bind]. eauto.
Qed.

(** [runMonteCarloTrialFM], on parameters whose time vector has at least
    one sample: every trial aligns the demodulated values against the
    message before scoring and returns (the aligned slice is as long as the
    message), and the result is the mean of the counted scores, 0 when none
    is counted. *)
Theorem runMonteCarloTrialFM_counted_mean (params : SignalParams) (targetSNR : float)
    (numTrials : Z) (time : list float) (g : dstate) :
  generateTimeVector params = Done time -> time <> [] ->
  exists ms g',
    seriesScores (fmSeriesTrial params targetSNR) (Z.to_nat numTrials) g = Done (ms, g') /\
    length ms = Z.to_nat numTrials /\
    runMonteCarloTrialFM params targetSNR numTrials g = Done (countedMean ms, g').
Proof.
  intros Ht Hne.
  assert (H : forall n g, exists ms g',
             seriesScores (fmSeriesTrial params targetSNR) n g = Done (ms, g') /\
             length ms = n).
  { induction n as [|n IH]; intros g0; simpl; [eauto|].
    destruct (fmSeriesTrial_total params targetSNR time g0 Ht Hne) as (x & g1 & ->).
    cbn [mbind outcome_bind]. destruct (IH g1) as (ms & g2 & -> & Hlen).
    cbn [mbind outcome_bind]. exists (x :: ms), g2. simpl. auto. }
  destruct (H (Z.to_nat numTrials) g) as (ms & g' & Hms & Hlen).
  exists ms, g'. split; [exact Hms|]. split; [exact Hlen|].
  apply runSeries_countedMean, Hms.
Qed.

End SeriesProperties.

(** ** Statistics and signal analysis helpers of the tests *)

Section HelperProperties.

Context {math : MathLib} {rand : RandSource} {dflt : DefaultSource}.

Local Open Scope float_scope.

(** The root mean square is the square root of the signal power, both are
    0 on the empty slice, and neither is ever below zero (NaN samples make
    them NaN); on a non-empty slice the signal power is the power that the
    noise injectors compute. *)
Theorem calculateRMS_signalPower (values : list float) :
  calculateRMS values = sqrt (calculateSignalPower values) /\
  (values = [] -> calculateSignalPower values = 0 /\ calculateRMS values = 0) /\
  (calculateSignalPower values <? 0) = false /\
  (calculateRMS values <? 0) = false /\
  (values <> [] -> calculateSignalPower values = signalPowerOf values).
Proof.
  assert (Hpow : SFSign.unsigned (Prim2SF (calculateSignalPower values))).
  { unfold calculateSignalPower. destruct values as [|v vs]; [intros _; exact I|].
    simpl Nat.eqb. cbv iota.
    rewrite FloatAxioms.div_spec. apply SFSignFacts.div_plus_unsigned.
    - apply (F64SignFacts.fold_add_unsigned (fun v => v * v));
        [|apply F64SignFacts.zero_unsigned].
      intros x. rewrite FloatAxioms.mul_spec. apply SFSignFacts.mul_self_unsigned.
    - apply F64SignFacts.plus_of_int. lia. }
  assert (Hrms : calculateRMS values = sqrt (calculateSignalPower values)).
  { unfold calculateRMS, calculateSignalPower. destruct values; reflexivity. }
  split; [exact Hrms|]. split; [intros ->; split; reflexivity|].
  split; [apply F64SignFacts.ltb_zero_unsigned, Hpow|].
  split.
  - rewrite Hrms. apply F64SignFacts.ltb_zero_unsigned.
    rewrite FloatAxioms.sqrt_spec. apply SFSignFacts.sqrt_unsigned, Hpow.
  - intros Hne. unfold calculateSignalPower, signalPowerOf.
    destruct values; [congruence|reflexivity].
Qed.

(** *** Correlation coefficient *)

Lemma correlation_fold_swap (x y : list float) (meanX meanY : float) (l : list Z) :
  forall numerator sumX2 sumY2 : float,
  fold_left (fun '(numerator, sumX2, sumY2) i =>
               let dx := at_ y i - meanY in
               let dy := at_ x i - meanX in
               (numerator + dx * dy, sumX2 + dx * dx, sumY2 + dy * dy))
            l (numerator, sumY2, sumX2) =
  (let '(n, sx, sy) :=
     fold_left (fun '(numerator, sumX2, sumY2) i =>
                  let dx := at_ x i - meanX in
                  let dy := at_ y i - meanY in
                  (numerator + dx * dy, sumX2 + dx * dx, sumY2 + dy * dy))
               l (numerator, sumX2, sumY2) in
   (n, sy, sx)).
Proof.
  induction l as [|i l IH]; intros n sx sy; simpl; [reflexivity|].
  rewrite (F64SignFacts.mul_comm (at_ y i - meanY) (at_ x i - meanX)). apply IH.
Qed.

(** The correlation coefficient is symmetric in its arguments, and it is
    0 when the lengths differ or the slices are empty. *)
Theorem calculateCorrelation_symmetric (x y : list float) :
  calculateCorrelation x y = calculateCorrelation y x /\
  (length x <> length y \/ x = [] -> calculateCorrelation x y = 0).
Proof.
  split.
  - unfold calculateCorrelation.
    rewrite (Nat.eqb_sym (length y) (length x)).
    destruct (Nat.eqb_spec (length x) (length y)) as [Heq|Hne]; [|reflexivity].
    rewrite <- Heq. simpl negb. cbn [orb].
    destruct (length x =? 0)%nat; [reflexivity|].
    rewrite (correlation_fold_swap x y (calculateMean x) (calculateMean y)).
    destruct (fold_left _ (indices (length x)) (0, 0, 0)) as [[n sx] sy].
    rewrite (F64SignFacts.mul_comm sy sx). reflexivity.
  - unfold calculateCorrelation. intros [Hne | ->]; [|now rewrite orb_true_r].
    apply Nat.eqb_neq in Hne. now rewrite Hne.
Qed.

(** *** Autocorrelation *)

Lemma autocorrelationLoop_total (centered : list float) (lag : Z) (js : list Z) :
  Forall (fun i => (0 <= i < Z.of_nat (length centered))%Z /\
                   (0 <= i + lag < Z.of_nat (length centered))%Z) js ->
  forall numerator denominator, exists n d,
    autocorrelationLoop centered lag js numerator denominator = Done (n, d).
Proof.
  induction 1 as [|i js [Hi Hl] _ IH]; intros n d; simpl; [eauto|].
  unfold readAt.
  replace ((0 <=? i)%Z && (i <? Z.of_nat (length centered))%Z) with true
    by (symmetry; apply andb_true_iff; split; [apply Z.leb_le|apply Z.ltb_lt]; lia).
  cbn [mbind outcome_bind].
  replace ((0 <=? i + lag)%Z && (i + lag <? Z.of_nat (length centered))%Z) with true
    by (symmetry; apply andb_true_iff; split; [apply Z.leb_le|apply Z.ltb_lt]; lia).
  cbn [mbind outcome_bind]. apply IH.
Qed.

Lemma wrap64_small (z : Z) : (- 2 ^ 63 <= z < 2 ^ 63)%Z -> F64.wrap64 z = z.
Proof. intros H. unfold F64.wrap64. rewrite Z.mod_small; lia. Qed.

(** The edges of [calculateAutocorrelation], for a slice of fewer than
    2^62 samples.  A lag of at least the length gives 0.  A negative lag
    (above -2^62) panics with an index out of range: the loop reads
    [centered[i+lag]] at [i = 0].  A lag from 0 up to the length returns a
    value. *)
Theorem calculateAutocorrelation_edges (values : list float) (lag : Z) :
  (Z.of_nat (length values) < 2 ^ 62)%Z ->
  ((Z.of_nat (length values) <= lag)%Z ->
     calculateAutocorrelation values lag = Done 0) /\
  ((- 2 ^ 62 <= lag < 0)%Z ->
     calculateAutocorrelation values lag = Abort PanicIndexOutOfRange) /\
  ((0 <= lag < Z.of_nat (length values))%Z ->
     exists v, calculateAutocorrelation values lag = Done v).
Proof.
  intros Hlen. unfold calculateAutocorrelation. split; [|split].
  - intros H. replace (Z.of_nat (length values) <=? lag)%Z with true; [reflexivity|].
    symmetry. apply Z.leb_le. exact H.
  - intros H.
    replace (Z.of_nat (length values) <=? lag)%Z with false
      by (symmetry; apply Z.leb_gt; lia).
    rewrite length_map, wrap64_small by lia.
    destruct (Z.to_nat (Z.of_nat (length values) - lag)) as [|k] eqn:Ek; [lia|].
    unfold indices. simpl. unfold readAt. rewrite length_map.
    destruct values as [|v vs]; [reflexivity|].
    simpl length. change (Z.of_nat 0) with 0%Z.
    replace ((0 <=? 0)%Z && (0 <? Z.of_nat (S (length vs)))%Z) with true
      by (symmetry; apply andb_true_iff; split; [apply Z.leb_le|apply Z.ltb_lt]; lia).
    cbn [mbind outcome_bind].
    replace (0 <=? 0 + lag)%Z with false by (symmetry; apply Z.leb_gt; lia).
    reflexivity.
  - intros H.
    replace (Z.of_nat (length values) <=? lag)%Z with false
      by (symmetry; apply Z.leb_gt; lia).
    rewrite length_map, wrap64_small by lia.
    destruct (autocorrelationLoop_total
                (map (fun v => v - calculateMean values) values) lag
                (indices (Z.to_nat (Z.of_nat (length values) - lag)))) with (numerator := 0)
                (denominator := 0) as (n & d & ->).
    { apply List.Forall_forall. intros i Hi. apply in_indices in Hi.
      rewrite length_map. lia. }
    cbn [mbind outcome_bind]. destruct (d =? 0); eauto.
Qed.

(** *** Skewness and kurtosis *)

Lemma notnan_signed (x : spec_float) : SF.notnan x -> exists s, SF.signed s x.
Proof. destruct x as [s|s| |s m e]; simpl; try tauto; intros _; exists s; reflexivity. Qed.

Lemma fourth_power_unsigned (n : float) : SFSign.unsigned (Prim2SF (n * n * n * n)).
Proof.
  intros Hc. rewrite !FloatAxioms.mul_spec in Hc |- *.
  destruct (SFSignFacts.mul_notnan_inv _ _ Hc) as [Hb Hn].
  destruct (SFSignFacts.mul_notnan_inv _ _ Hb) as [Ha _].
  destruct (notnan_signed _ Hn) as [s Hs].
  pose proof (SFSignFacts.mul_signed s s _ _ Hs Hs Ha) as Sa.
  pose proof (SFSignFacts.mul_signed _ s _ _ Sa Hs Hb) as Sb.
  pose proof (SFSignFacts.mul_signed _ s _ _ Sb Hs Hc) as Sc.
  apply SFFacts.signed_false_nonneg.
  replace (xorb (xorb (xorb s s) s) s) with false in Sc by (destruct s; reflexivity).
  exact Sc.
Qed.

(** Skewness and kurtosis are 0 for an empty slice and for a standard
    deviation equal to 0; the kurtosis is never below zero. *)
Theorem calculateKurtosis_not_negative (values : list float) (mean stdDev : float) :
  (calculateKurtosis values mean stdDev <? 0) = false /\
  (values = [] \/ (stdDev =? 0) = true ->
   calculateKurtosis values mean stdDev = 0 /\ calculateSkewness values mean stdDev = 0).
Proof.
  split.
  - unfold calculateKurtosis.
    destruct ((length values =? 0)%nat || (stdDev =? 0)); [reflexivity|].
    apply F64SignFacts.ltb_zero_unsigned.
    rewrite FloatAxioms.div_spec. apply SFSignFacts.div_plus_unsigned.
    + apply (F64SignFacts.fold_add_unsigned
               (fun v => (v - mean) / stdDev * ((v - mean) / stdDev)
                         * ((v - mean) / stdDev) * ((v - mean) / stdDev)));
        [|apply F64SignFacts.zero_unsigned].
      intros v. apply fourth_power_unsigned.
    + apply F64SignFacts.plus_of_int. lia.
  - unfold calculateKurtosis, calculateSkewness. intros [-> | ->]; [auto|].
    rewrite orb_true_r. auto.
Qed.

End HelperProperties.

Section SignalHelperProperties.

Local Open Scope float_scope.

(** *** Extremes *)

Lemma ltb_not_below (m m' x : float) :
  (m' <? m) = true -> (x <? m) = false -> (x <? m') = false.
Proof.
  intros Hm Hx. destruct (x <? m') eqn:E; [|reflexivity].
  rewrite (F64Facts.ltb_trans _ _ _ E Hm) in Hx. discriminate.
Qed.

Lemma findMinMax_fold (l : list float) :
  forall M m : float,
  let '(M', m') :=
    fold_left (fun '(max, min) v =>
                 let max := if max <? v then v else max in
                 let min := if v <? min then v else min in
                 (max, min)) l (M, m) in
  (M' = M \/ In M' l) /\ (m' = m \/ In m' l) /\
  (forall x, (M <? x) = false -> (M' <? x) = false) /\
  (forall x, (x <? m) = false -> (x <? m') = false) /\
  Forall (fun v => (M' <? v) = false /\ (v <? m') = false) l.
Proof.
  induction l as [|v l IH]; intros M m; simpl.
  - repeat split; auto.
  - specialize (IH (if M <? v then v else M) (if v <? m then v else m)).
    destruct (fold_left _ l _) as [M' m'].
    destruct IH as (HM & Hm & HupM & Hupm & Hall).
    assert (HMv : forall x, (M <? x) = false -> ((if M <? v then v else M) <? x) = false).
    { intros x Hx. destruct (M <? v) eqn:E; [|exact Hx].
      exact (F64Facts.ltb_not_above _ _ _ E Hx). }
    assert (Hmv : forall x, (x <? m) = false -> (x <? (if v <? m then v else m)) = false).
    { intros x Hx. destruct (v <? m) eqn:E; [|exact Hx].
      exact (ltb_not_below _ _ _ E Hx). }
    repeat split.
    + destruct HM as [-> | HM]; [|tauto]. destruct (M <? v); tauto.
    + destruct Hm as [-> | Hm]; [|tauto]. destruct (v <? m); tauto.
    + intros x Hx. apply HupM, HMv, Hx.
    + intros x Hx. apply Hupm, Hmv, Hx.
    + constructor; [|exact Hall]. split.
      * apply HupM. destruct (M <? v) eqn:E; [apply F64Facts.ltb_irrefl|exact E].
      * apply Hupm. destruct (v <? m) eqn:E; [apply F64Facts.ltb_irrefl|exact E].
Qed.

(** [findMinMax] returns the maximum first and the minimum second.  On a
    non-empty slice both are elements of the slice, no element is greater
    than the first and none is smaller than the second; on the empty slice
    both are 0. *)
Theorem findMinMax_spec (values : list float) :
  (values = [] -> findMinMax values = (0, 0)) /\
  (values <> [] ->
   In (fst (findMinMax values)) values /\ In (snd (findMinMax values)) values /\
   Forall (fun v => (fst (findMinMax values) <? v) = false /\
                    (v <? snd (findMinMax values)) = false) values).
Proof.
  split; [intros ->; reflexivity|]. intros Hne.
  destruct values as [|v0 vs]; [congruence|]. unfold findMinMax.
  pose proof (findMinMax_fold (v0 :: vs) v0 v0) as H.
  destruct (fold_left _ (v0 :: vs) (v0, v0)) as [M m].
  destruct H as (HM & Hm & _ & _ & Hall). simpl fst. simpl snd.
  split; [destruct HM as [-> | HM]; [now left|exact HM]|].
  split; [destruct Hm as [-> | Hm]; [now left|exact Hm]|].
  exact Hall.
Qed.

(** *** Frequency deviation *)

Lemma calculateFrequencyDeviation_fold (carrierFreq : float) (l : list float) :
  forall maxDev : float,
  let r := fold_left (fun maxDev freq =>
                        let dev := abs (freq - carrierFreq) in
                        if maxDev <? dev then dev else maxDev) l maxDev in
  (r = maxDev \/ exists freq, In freq l /\ r = abs (freq - carrierFreq)) /\
  (forall x, (maxDev <? x) = false -> (r <? x) = false) /\
  Forall (fun freq => (r <? abs (freq - carrierFreq)) = false) l.
Proof.
  induction l as [|f l IH]; intros maxDev; simpl.
  - repeat split; auto.
  - specialize (IH (if maxDev <? abs (f - carrierFreq) then abs (f - carrierFreq) else maxDev)).
    simpl in IH. destruct IH as (Hr & Hup & Hall).
    assert (Hstep : forall x, (maxDev <? x) = false ->
              ((if maxDev <? abs (f - carrierFreq) then abs (f - carrierFreq) else maxDev)
                 <? x) = false).
    { intros x Hx. destruct (maxDev <? abs (f - carrierFreq)) eqn:E; [|exact Hx].
      exact (F64Facts.ltb_not_above _ _ _ E Hx). }
    repeat split.
    + destruct Hr as [-> | (freq & Hin & ->)].
      * destruct (maxDev <? abs (f - carrierFreq)); [right; exists f; auto|now left].
      * right. exists freq. auto.
    + intros x Hx. apply Hup, Hstep, Hx.
    + constructor; [|exact Hall]. apply Hup.
      destruct (maxDev <? abs (f - carrierFreq)) eqn:E; [apply F64Facts.ltb_irrefl|exact E].
Qed.

(** [calculateFrequencyDeviation] returns 0 or the deviation
    [|freq - carrierFreq|] of one of the frequencies; no frequency deviates
    by more than the result, and the result is never below zero.  (A NaN
    deviation is skipped.) *)
Theorem calculateFrequencyDeviation_spec (instFreq : list float) (carrierFreq : float) :
  (calculateFrequencyDeviation instFreq carrierFreq = 0 \/
   exists freq, In freq instFreq /\
                calculateFrequencyDeviation instFreq carrierFreq = abs (freq - carrierFreq)) /\
  Forall (fun freq =>
            (calculateFrequencyDeviation instFreq carrierFreq <? abs (freq - carrierFreq))
            = false) instFreq /\
  (calculateFrequencyDeviation instFreq carrierFreq <? 0) = false.
Proof.
  unfold calculateFrequencyDeviation.
  pose proof (calculateFrequencyDeviation_fold carrierFreq instFreq 0) as H.
  cbv zeta in H. destruct H as (Hr & _ & Hall).
  split; [exact Hr|]. split; [exact Hall|].
  destruct Hr as [-> | (freq & _ & ->)]; [reflexivity|].
  apply F64SignFacts.ltb_zero_unsigned. rewrite FloatAxioms.abs_spec.
  apply SFSignFacts.abs_unsigned.
Qed.

(** *** Zero crossings *)

Lemma crossings_fold_bounds (values : list float) (l : list Z) :
  forall c : Z,
  let r := fold_left (fun crossings i =>
                        if ((0 <=? at_ values (i - 1)) && (at_ values i <? 0))
                           || ((at_ values (i - 1) <? 0) && (0 <=? at_ values i))
                        then (crossings + 1)%Z else crossings) l c in
  (c <= r <= c + Z.of_nat (length l))%Z.
Proof.
  induction l as [|i l IH]; intros c; simpl; [lia|].
  destruct (_ || _); [specialize (IH (c + 1)%Z)|specialize (IH c)]; simpl in IH; lia.
Qed.

Lemma leb_zero_not_ltb (v : float) : (0 <=? v) = true -> (v <? 0) = false.
Proof. intros H. apply F64SignFacts.leb_ltb in H. tauto. Qed.

Lemma crossings_fold_none (values : list float) (l : list Z) :
  (forall i, (at_ values i <? 0) = false) ->
  forall c : Z,
  fold_left (fun crossings i =>
               if ((0 <=? at_ values (i - 1)) && (at_ values i <? 0))
                  || ((at_ values (i - 1) <? 0) && (0 <=? at_ values i))
               then (crossings + 1)%Z else crossings) l c = c.
Proof.
  intros Hv. induction l as [|i l IH]; intros c; simpl; [reflexivity|].
  rewrite !Hv, andb_false_r. simpl. apply IH.
Qed.

Lemma at_not_negative (values : list float) (i : Z) :
  Forall (fun v => (0 <=? v) = true) values -> (at_ values i <? 0) = false.
Proof.
  intros H. unfold at_. revert values H.
  induction (Z.to_nat i) as [|k IH]; intros values H; destruct H; simpl;
    try reflexivity; auto using leb_zero_not_ltb.
Qed.

Lemma demodulateAM_values_nonneg (signal : Signal) :
  Forall (fun v => is_nan v = false) (Values signal) ->
  Forall (fun y => (0 <=? y) = true) (Values (demodulateAM signal)).
Proof.
  intros Hnan. unfold demodulateAM. simpl.
  assert (Hrect : Forall (fun x => SF.nonneg (Prim2SF x)) (map abs (Values signal))).
  { apply List.Forall_map. eapply List.Forall_impl; [|exact Hnan].
    intros v Hv. simpl. rewrite FloatAxioms.abs_spec.
    apply SFFacts.abs_nonneg, F64Facts.is_nan_false, Hv. }
  apply List.Forall_map, List.Forall_forall. intros i Hi. simpl.
  apply movingAverageAt_nonneg; [exact Hrect|].
  rewrite length_map. apply in_indices, Hi.
Qed.

(** The number of zero crossings lies between 0 and the number of adjacent
    pairs; a slice whose samples are all >= 0 has none, and so the output
    of the AM envelope detector has none on any input without NaN. *)
Theorem countZeroCrossings_bounds (values : list float) (dt : float) :
  (0 <= countZeroCrossings values dt <= Z.max 0 (Z.of_nat (length values) - 1))%Z /\
  (Forall (fun v => (0 <=? v) = true) values -> countZeroCrossings values dt = 0%Z) /\
  (forall signal : Signal,
     Forall (fun v => is_nan v = false) (Values signal) ->
     countZeroCrossings (Values (demodulateAM signal)) dt = 0%Z).
Proof.
  assert (Hnone : forall vs, Forall (fun v => (0 <=? v) = true) vs ->
                             countZeroCrossings vs dt = 0%Z).
  { intros vs H. unfold countZeroCrossings. destruct (_ <? 2)%Z; [reflexivity|].
    apply crossings_fold_none. intros i. apply at_not_negative, H. }
  split; [|split; [apply Hnone|]].
  - unfold countZeroCrossings. destruct (Z.ltb_spec (Z.of_nat (length values)) 2); [lia|].
    pose proof (crossings_fold_bounds values (range 1 (Z.of_nat (length values) - 1)) 0) as Hb.
    cbv zeta in Hb. rewrite length_range in Hb. lia.
  - intros signal Hnan. apply Hnone, demodulateAM_values_nonneg, Hnan.
Qed.

(** *** Envelope *)

Lemma envelopeAt_nonneg (w : Z) (xs : list float) (i : Z) :
  (0 <= w)%Z -> (Z.of_nat (length xs) < 2 ^ 63)%Z ->
  Forall (fun x => SF.nonneg (Prim2SF x)) xs ->
  (0 <= i < Z.of_nat (length xs))%Z ->
  (0 <=? envelopeAt w xs i) = true.
Proof.
  intros Hw Hlen Hxs Hi. unfold envelopeAt.
  set (start := if (i - w / 2 <? 0)%Z then 0%Z else (i - w / 2)%Z).
  set (end_ := if (i + w / 2 >=? Z.of_nat (length xs))%Z
               then (Z.of_nat (length xs) - 1)%Z else (i + w / 2)%Z).
  rewrite window_fold, length_range.
  pose proof (Z.div_pos w 2 Hw ltac:(lia)) as Hhalf.
  assert (Hse : (0 <= start <= i /\ i <= end_ < Z.of_nat (length xs))%Z).
  { unfold start, end_.
    destruct (Z.ltb_spec (i - w / 2) 0), (Z.geb_spec (i + w / 2) (Z.of_nat (length xs))); lia. }
  apply F64Facts.leb_zero. rewrite FloatAxioms.div_spec.
  apply SFFacts.div_positive_nonneg.
  - apply (F64Facts.fold_add_nonneg (at_ xs)); [|exact I].
    apply List.Forall_forall. intros j _. apply at_nonneg, Hxs.
  - apply F64Facts.positive_of_int. lia.
Qed.

(** [extractEnvelope] keeps the length; on an input without NaN (of fewer
    than 2^63 samples) every output sample is >= 0; and on inputs of 2000
    to 2099 samples, where its window of 1% of the length is the window of
    20 samples of [demodulateAM], it returns the values that [demodulateAM]
    returns. *)
Theorem extractEnvelope_spec (values : list float) :
  length (extractEnvelope values) = length values /\
  ((Z.of_nat (length values) < 2 ^ 63)%Z ->
   Forall (fun v => is_nan v = false) values ->
   Forall (fun y => (0 <=? y) = true) (extractEnvelope values)) /\
  ((2000 <= Z.of_nat (length values) < 2100)%Z ->
   forall time : list float,
     extractEnvelope values = Values (demodulateAM {| Time := time; Values := values |})).
Proof.
  split; [|split].
  - unfold extractEnvelope. now rewrite length_map, length_indices.
  - intros Hlen Hnan. unfold extractEnvelope.
    assert (Hrect : Forall (fun x => SF.nonneg (Prim2SF x)) (map abs values)).
    { apply List.Forall_map. eapply List.Forall_impl; [|exact Hnan].
      intros v Hv. simpl. rewrite FloatAxioms.abs_spec.
      apply SFFacts.abs_nonneg, F64Facts.is_nan_false, Hv. }
    apply List.Forall_map, List.Forall_forall. intros i Hi.
    apply envelopeAt_nonneg; [|rewrite length_map; exact Hlen|exact Hrect|].
    + destruct (Z.ltb_spec (Z.of_nat (length values) / 100) 5); [lia|].
      apply Z.div_pos; lia.
    + rewrite length_map. apply in_indices, Hi.
  - intros Hlen time. unfold extractEnvelope, demodulateAM. cbn [Values].
    replace (Z.of_nat (length values) / 100)%Z with 20%Z
      by (apply Z.div_unique with (r := (Z.of_nat (length values) - 2000)%Z); lia).
    reflexivity.
Qed.

End SignalHelperProperties.

Section MetricProperties.

Context {math : MathLib} {rand : RandSource} {dflt : DefaultSource}.

Local Open Scope float_scope.

(** ** A signal scored against itself *)

Lemma sub_self_finite (x : float) : is_finite x = true -> x - x = 0.
Proof.
  intros H. apply F64Facts.is_finite_true in H. apply Prim2SF_inj.
  rewrite FloatAxioms.sub_spec.
  destruct (Prim2SF x) as [[]|[]| |s m e]; simpl in H; try tauto;
    unfold SF64sub, SFsub; cbv zeta; rewrite ?Z.sub_diag; reflexivity.
Qed.

Lemma snrLoop_self (values : list float) :
  Forall (fun x => is_finite x = true) values ->
  forall signalPower : float, exists p,
    snrLoop values values signalPower 0 = Done (p, 0).
Proof.
  induction 1 as [|x xs Hx _ IH]; intros sp; simpl; [eauto|].
  rewrite (sub_self_finite x Hx).
  change (0 + 0 * 0) with 0. apply IH.
Qed.

Lemma zero_div_positive (y : float) : SF.positive (Prim2SF y) -> 0 / y = 0.
Proof.
  intros H. apply Prim2SF_inj. rewrite FloatAxioms.div_spec.
  change (Prim2SF 0) with (S754_zero false).
  destruct (Prim2SF y) as [s|s| |[] m e]; simpl in H; try tauto; reflexivity.
Qed.

(** A non-empty signal with finite samples scored against itself has no
    noise: [calculateSNR] and [computeInputSNR] return +Inf. *)
Theorem calculateSNR_identical (signal : Signal) :
  Values signal <> [] ->
  (Z.of_nat (length (Values signal)) < 2 ^ 63)%Z ->
  Forall (fun x => is_finite x = true) (Values signal) ->
  calculateSNR signal signal = Done infinity /\
  computeInputSNR signal signal = Done infinity.
Proof.
  intros Hne Hlen Hfin.
  destruct (snrLoop_self (Values signal) Hfin 0) as [p Hp].
  assert (Hn : 0 / F64.of_int (Z.of_nat (length (Values signal))) = 0).
  { apply zero_div_positive, F64Facts.positive_of_int.
    destruct (Values signal); [congruence|simpl length in *; lia]. }
  unfold calculateSNR, computeInputSNR. rewrite Hp. cbn [mbind outcome_bind].
  rewrite Hn. split; reflexivity.
Qed.

(** ** Extending a sequential sweep *)

Lemma sequentialLoop_app (amParams fmParams : SignalParams) (config : MonteCarloConfig)
    (snrs1 snrs2 : list float) :
  forall r ams fms,
    sequentialLoop amParams fmParams config (snrs1 ++ snrs2) r = Done (ams, fms) ->
    sequentialLoop amParams fmParams config snrs1 r
      = Done (take (length snrs1) ams, take (length snrs1) fms).
Proof.
  induction snrs1 as [|snr rest IH]; intros r ams fms H; simpl in H |- *.
  - now rewrite !take_0.
  - destruct (runPoint amParams fmParams config snr r) as [[[am fm] r1]|e];
      [|discriminate].
    cbn [mbind outcome_bind] in H |- *.
    destruct (sequentialLoop amParams fmParams config (rest ++ snrs2) r1)
      as [[ams' fms']|e] eqn:Hrest; [|discriminate].
    cbn [mbind outcome_bind] in H. inversion H; subst.
    rewrite (IH _ _ _ Hrest). reflexivity.
Qed.

Lemma sequentialLoop_config (amParams fmParams : SignalParams)
    (config config' : MonteCarloConfig) (snrs : list float) :
  MonteCarloConfig.NumIterations config = MonteCarloConfig.NumIterations config' ->
  forall r, sequentialLoop amParams fmParams config snrs r =
            sequentialLoop amParams fmParams config' snrs r.
Proof.
  intros Hn. induction snrs as [|snr rest IH]; intros r; simpl; [reflexivity|].
  unfold runPoint. rewrite Hn.
  destruct (runSingleSNRSimulation AM amParams snr _ r) as [[am r1]|e]; [|reflexivity].
  cbn [mbind outcome_bind].
  destruct (runSingleSNRSimulation FM fmParams snr _ r1) as [[fm r2]|e]; [|reflexivity].
  cbn [mbind outcome_bind]. now rewrite IH.
Qed.

(** Extending the sweep of a sequential run leaves the results of the
    earlier SNR points as they were: when the run over [snrs1 ++ snrs2]
    completes, the run over [snrs1] alone completes with the first
    [length snrs1] results of each array. *)
Theorem sequential_sweep_prefix (amParams fmParams : SignalParams)
    (config : MonteCarloConfig) (snrs1 snrs2 : list float)
    (ams fms : list PerformanceResult) :
  runSequentialMonteCarloSimulation amParams fmParams
    (withSNRRange config (snrs1 ++ snrs2)) = Done (ams, fms) ->
  runSequentialMonteCarloSimulation amParams fmParams (withSNRRange config snrs1)
    = Done (take (length snrs1) ams, take (length snrs1) fms).
Proof.
  unfold runSequentialMonteCarloSimulation. cbn [MonteCarloConfig.SNRRange
    MonteCarloConfig.Seed withSNRRange]. intros H.
  rewrite (sequentialLoop_config amParams fmParams _ (withSNRRange config (snrs1 ++ snrs2)))
    by reflexivity.
  apply (sequentialLoop_app _ _ _ snrs1 snrs2), H.
Qed.

End MetricProperties.

(** *** Frequency estimates *)

Section FrequencyProperties.

Context {math : MathLib} {trig : TrigLib}.

Local Open Scope float_scope.

Lemma magnitude_unsigned (real imag : float) (N : Z) :
  (0 <= N)%Z ->
  SFSign.unsigned (Prim2SF (sqrt (real * real + imag * imag) / F64.of_int N)).
Proof.
  intros HN. rewrite FloatAxioms.div_spec. apply SFSignFacts.div_plus_unsigned.
  - rewrite FloatAxioms.sqrt_spec. apply SFSignFacts.sqrt_unsigned.
    rewrite FloatAxioms.add_spec.
    apply SFSignFacts.add_unsigned; rewrite FloatAxioms.mul_spec;
      apply SFSignFacts.mul_self_unsigned.
  - apply F64SignFacts.plus_of_int, HN.
Qed.

(** [estimateFrequencyContent] returns 0 on the empty slice and for a bin
    at or above half the length; below that it returns what
    [estimateCarrierPower] returns.  Neither they nor
    [estimateSidebandPower] ever return a magnitude below zero, and on the
    empty slice [estimateCarrierPower] returns NaN (0/0) when the bin
    conversion is defined. *)
Theorem estimateFrequencyContent_spec (values : list float)
    (targetFreq samplingRate : float) :
  (values = [] -> estimateFrequencyContent values targetFreq samplingRate = Done 0) /\
  (forall bin : Z,
     values <> [] ->
     F64.to_int (targetFreq * F64.of_int (Z.of_nat (length values)) / samplingRate)
       = Some bin ->
     ((Z.of_nat (length values) / 2 <= bin)%Z ->
        estimateFrequencyContent values targetFreq samplingRate = Done 0) /\
     ((bin < Z.of_nat (length values) / 2)%Z ->
        estimateFrequencyContent values targetFreq samplingRate
        = estimateCarrierPower values targetFreq samplingRate)) /\
  (forall p : float,
     estimateFrequencyContent values targetFreq samplingRate = Done p \/
     estimateCarrierPower values targetFreq samplingRate = Done p ->
     (p <? 0) = false) /\
  (forall messageFreq p : float,
     estimateSidebandPower values targetFreq messageFreq samplingRate = Done p ->
     (p <? 0) = false) /\
  (estimateCarrierPower [] targetFreq samplingRate = Done nan \/
   estimateCarrierPower [] targetFreq samplingRate = Abort ConversionUndefined).
Proof.
  assert (Hcarrier : forall f p, estimateCarrierPower values f samplingRate = Done p ->
                                 SFSign.unsigned (Prim2SF p)).
  { intros f p H. unfold estimateCarrierPower in H. cbv zeta in H.
    destruct (F64.to_int _) as [bin|]; [|discriminate].
    destruct (dftBin values bin) as [real imag]. inversion H.
    apply magnitude_unsigned. lia. }
  split; [intros ->; reflexivity|]. split; [|split; [|split]].
  - intros bin Hne Hbin. unfold estimateFrequencyContent, estimateCarrierPower.
    destruct values as [|v vs]; [congruence|]. simpl Nat.eqb. cbv iota. cbv zeta.
    rewrite Hbin. split; intros H.
    + replace (bin >=? _)%Z with true; [reflexivity|].
      symmetry. apply Z.geb_le. exact H.
    + replace (bin >=? _)%Z with false; [reflexivity|].
      symmetry. rewrite Z.geb_leb. apply Z.leb_gt. exact H.
  - intros p [H | H].
    + unfold estimateFrequencyContent in H.
      destruct (length values =? 0)%nat; [inversion H; reflexivity|].
      cbv zeta in H. destruct (F64.to_int _) as [bin|]; [|discriminate].
      destruct (bin >=? _)%Z; [inversion H; reflexivity|].
      destruct (dftBin values bin) as [real imag]. inversion H.
      apply F64SignFacts.ltb_zero_unsigned, magnitude_unsigned. lia.
    + eapply F64SignFacts.ltb_zero_unsigned, Hcarrier, H.
  - intros messageFreq p H. unfold estimateSidebandPower in H.
    destruct (estimateCarrierPower values (targetFreq + messageFreq) samplingRate)
      as [u|e] eqn:Hu; [|discriminate].
    cbn [mbind outcome_bind] in H.
    destruct (estimateCarrierPower values (targetFreq - messageFreq) samplingRate)
      as [l|e] eqn:Hl; [|discriminate].
    cbn [mbind outcome_bind] in H. inversion H.
    apply F64SignFacts.ltb_zero_unsigned. rewrite FloatAxioms.add_spec.
    apply SFSignFacts.add_unsigned; eapply Hcarrier; eassumption.
  - unfold estimateCarrierPower. cbv zeta.
    destruct (F64.to_int _) as [bin|]; [left|right]; reflexivity.
Qed.

End FrequencyProperties.

Section InstantaneousFrequencyProperties.

Local Open Scope float_scope.

Lemma length_crossingRates (values : list float) (windowSize : Z) (dt : float)
    (instFreq : list float) :
  length (crossingRates values windowSize dt instFreq) = length instFreq.
Proof.
  unfold crossingRates. generalize (range windowSize (Z.of_nat (length values) - windowSize - 1)).
  intros l. revert instFreq. induction l as [|i l IH]; intros instFreq; simpl; [reflexivity|].
  rewrite IH. apply length_insert.
Qed.

Lemma readAt_in_range (xs : list float) (i : Z) :
  (0 <= i < Z.of_nat (length xs))%Z -> readAt xs i = Done (at_ xs i).
Proof.
  intros H. unfold readAt.
  replace ((0 <=? i)%Z && (i <? Z.of_nat (length xs))%Z) with true; [reflexivity|].
  symmetry. apply andb_true_iff. split; [apply Z.leb_le|apply Z.ltb_lt]; lia.
Qed.

Lemma fillFrom_total (src : Z) (js : list Z) :
  forall instFreq : list float,
    (0 <= src < Z.of_nat (length instFreq))%Z ->
    Forall (fun i => (0 <= i < Z.of_nat (length instFreq))%Z) js ->
    exists out, fillFrom src js instFreq = Done out /\ length out = length instFreq.
Proof.
  induction js as [|i js IH]; intros instFreq Hsrc Hjs; simpl; [eauto|].
  inversion Hjs as [|? ? Hi Hrest]; subst.
  rewrite readAt_in_range by exact Hsrc. cbn [mbind outcome_bind].
  replace ((0 <=? i)%Z && (i <? Z.of_nat (length instFreq))%Z) with true
    by (symmetry; apply andb_true_iff; split; [apply Z.leb_le|apply Z.ltb_lt]; lia).
  destruct (IH (<[Z.to_nat i := at_ instFreq src]> instFreq)) as (out & Hout & Hlen).
  - now rewrite length_insert.
  - now rewrite length_insert.
  - exists out. split; [exact Hout|]. now rewrite Hlen, length_insert.
Qed.

Lemma at_repeat_zero (n : nat) (i : Z) : at_ (repeat 0 n) i = 0.
Proof.
  unfold at_. generalize (Z.to_nat i). intros k. revert k.
  induction n as [|n IH]; intros [|k]; simpl; auto.
Qed.

Lemma lookup_repeat {A : Type} (x : A) (n k : nat) :
  (k < n)%nat -> repeat x n !! k = Some x.
Proof.
  revert k. induction n as [|n IH]; intros [|k] H; simpl; try lia; [reflexivity|].
  apply IH. lia.
Qed.

Lemma fillFrom_zeros (src : Z) (n : nat) (js : list Z) :
  (0 <= src < Z.of_nat n)%Z ->
  Forall (fun i => (0 <= i < Z.of_nat n)%Z) js ->
  fillFrom src js (repeat 0 n) = Done (repeat 0 n).
Proof.
  intros Hsrc. induction 1 as [|i js Hi _ IH]; simpl; [reflexivity|].
  rewrite readAt_in_range by (rewrite repeat_length; exact Hsrc).
  cbn [mbind outcome_bind]. rewrite repeat_length.
  replace ((0 <=? i)%Z && (i <? Z.of_nat n)%Z) with true
    by (symmetry; apply andb_true_iff; split; [apply Z.leb_le|apply Z.ltb_lt]; lia).
  rewrite at_repeat_zero, list_insert_id; [exact IH|].
  apply lookup_repeat. lia.
Qed.

Lemma fillFrom_panics (src : Z) (js : list Z) (instFreq : list float) :
  js <> [] -> (Z.of_nat (length instFreq) <= src)%Z ->
  fillFrom src js instFreq = Abort PanicIndexOutOfRange.
Proof.
  intros Hjs Hsrc. destruct js as [|i js]; [congruence|]. simpl. unfold readAt.
  replace (src <? Z.of_nat (length instFreq))%Z with false
    by (symmetry; apply Z.ltb_ge; exact Hsrc).
  now rewrite andb_false_r.
Qed.

Lemma range_nonempty (lo hi : Z) : (lo <= hi)%Z -> range lo hi <> [].
Proof.
  intros H E. apply (f_equal (@length Z)) in E. rewrite length_range in E.
  simpl in E. lia.
Qed.

Lemma Forall_range (lo hi : Z) (P : Z -> Prop) :
  (forall i, (lo <= i <= hi)%Z -> P i) -> Forall P (range lo hi).
Proof.
  intros H. apply List.Forall_forall. intros i Hi. apply H, in_range, Hi.
Qed.

(** [estimateInstantaneousFrequency], with [w] the window size: the
    converted [int(samplingRate * 0.01)], raised to 10 when it is smaller.
    On a slice of at most [w] samples (any slice of at most 10 samples, the
    empty one included) it panics, reading [instFreq[w]].  On a longer
    slice it returns one value per sample, and these are all 0 when the
    slice has at most [2w] samples: no index is interior. *)
Theorem estimateInstantaneousFrequency_edges (values : list float) (samplingRate : float)
    (windowSize : Z) :
  F64.to_int (samplingRate * hundredth) = Some windowSize ->
  let w := if (windowSize <? 10)%Z then 10%Z else windowSize in
  ((Z.of_nat (length values) <= w)%Z ->
     estimateInstantaneousFrequency values samplingRate = Abort PanicIndexOutOfRange) /\
  ((w < Z.of_nat (length values))%Z ->
     exists instFreq,
       estimateInstantaneousFrequency values samplingRate = Done instFreq /\
       length instFreq = length values) /\
  ((w < Z.of_nat (length values) <= 2 * w)%Z ->
     estimateInstantaneousFrequency values samplingRate
     = Done (repeat 0 (length values))).
Proof.
  intros Hconv w. unfold estimateInstantaneousFrequency. cbv zeta. rewrite Hconv.
  fold w.
  assert (Hw : (10 <= w)%Z) by (unfold w; destruct (Z.ltb_spec windowSize 10); lia).
  set (N := Z.of_nat (length values)).
  split; [|split].
  - intros HN. rewrite fillFrom_panics; [reflexivity|apply range_nonempty; lia|].
    rewrite length_crossingRates, repeat_length. exact HN.
  - intros HN.
    destruct (fillFrom_total w (range 0 (w - 1))
                (crossingRates values w (1 / samplingRate) (repeat 0 (length values))))
      as (out1 & -> & L1).
    { rewrite length_crossingRates, repeat_length. fold N. lia. }
    { apply Forall_range. intros i Hi.
      rewrite length_crossingRates, repeat_length. fold N. lia. }
    cbn [mbind outcome_bind].
    rewrite length_crossingRates, repeat_length in L1.
    destruct (fillFrom_total (N - w - 1) (range (N - w) (N - 1)) out1)
      as (out2 & -> & L2).
    { rewrite L1. fold N. lia. }
    { apply Forall_range. intros i Hi. rewrite L1. fold N. lia. }
    exists out2. split; [reflexivity|]. congruence.
  - intros HN. unfold crossingRates. fold N.
    replace (range w (N - w - 1)) with (@nil Z)
      by (unfold range; replace (Z.to_nat (N - w - 1 - w + 1)) with 0%nat by lia;
          reflexivity).
    simpl fold_left.
    rewrite fillFrom_zeros; [|fold N; lia|apply Forall_range; intros; fold N; lia].
    cbn [mbind outcome_bind].
    apply fillFrom_zeros; [fold N; lia|apply Forall_range; intros; fold N; lia].
Qed.

End InstantaneousFrequencyProperties.

Section BandwidthProperties.

Context {math : MathLib} {trig : TrigLib}.

Local Open Scope float_scope.

Lemma bandwidthSearch_bin (samplingRate : float) (N : Z) (targetPower : float)
    (powers : list float) :
  forall (k : Z) (c frequency : float),
    bandwidthSearch samplingRate N targetPower k powers c = Some frequency ->
    exists j, (k <= j < k + Z.of_nat (length powers))%Z /\
              frequency = F64.of_int j * samplingRate / F64.of_int N.
Proof.
  induction powers as [|power rest IH]; intros k c frequency H; simpl in H; [discriminate|].
  destruct (targetPower <=? c + power).
  - inversion H. exists k. simpl length. split; [lia|reflexivity].
  - destruct (IH _ _ _ H) as (j & Hj & ->). exists j. simpl length. split; [lia|reflexivity].
Qed.

(** [estimateBandwidth] returns either the frequency [k * samplingRate / N]
    of a bin [k] below [N/2], or the fallback [samplingRate / 2]; on a
    slice of fewer than two samples there is no bin and it returns the
    fallback. *)
Theorem estimateBandwidth_spec (values : list float) (samplingRate : float) :
  (estimateBandwidth values samplingRate = samplingRate / 2 \/
   exists k : Z,
     (0 <= k < Z.of_nat (length values) / 2)%Z /\
     estimateBandwidth values samplingRate
     = F64.of_int k * samplingRate / F64.of_int (Z.of_nat (length values))) /\
  ((length values < 2)%nat -> estimateBandwidth values samplingRate = samplingRate / 2).
Proof.
  split.
  - unfold estimateBandwidth. cbv zeta.
    destruct (bandwidthSearch _ _ _ 0 (powerSpectrumOf values) 0) as [f|] eqn:E;
      [right|now left].
    destruct (bandwidthSearch_bin _ _ _ _ _ _ _ E) as (j & Hj & ->).
    exists j. split; [|reflexivity].
    unfold powerSpectrumOf in Hj. rewrite length_map, length_indices in Hj.
    pose proof (Z.div_pos (Z.of_nat (length values)) 2 ltac:(lia) ltac:(lia)). lia.
  - intros H. destruct values as [|v [|v' vs]]; [reflexivity|reflexivity|simpl in H; lia].
Qed.

End BandwidthProperties.

Section SeedProperties.

Context {dflt : DefaultSource}.
Variable error : Type.

Lemma littleEndian_bounds (bytes : list Z) :
  (0 <= fold_right (fun b acc => b mod 256 + 256 * acc) 0 bytes
     < 256 ^ Z.of_nat (length bytes))%Z.
Proof.
  induction bytes as [|b bytes IH]; [simpl; lia|].
  cbn [fold_right length]. rewrite Nat2Z.inj_succ, Z.pow_succ_r by lia.
  pose proof (Z.mod_pos_bound b 256 ltac:(lia)). lia.
Qed.

Lemma littleEndian_injective (bytes : list Z) :
  forall bytes' : list Z,
    length bytes = length bytes' ->
    Forall isByte bytes -> Forall isByte bytes' ->
    fold_right (fun b acc => b mod 256 + 256 * acc)%Z 0%Z bytes
    = fold_right (fun b acc => b mod 256 + 256 * acc)%Z 0%Z bytes' ->
    bytes = bytes'.
Proof.
  induction bytes as [|b bytes IH]; intros [|b' bytes'] Hlen Hb Hb' H;
    try discriminate; [reflexivity|].
  inversion Hb as [|? ? Hb0 Hbs]; inversion Hb' as [|? ? Hb0' Hbs']; subst.
  cbn [fold_right] in H. unfold isByte in Hb0, Hb0'.
  rewrite !Z.mod_small in H by lia.
  assert (b = b' /\ fold_right (fun b acc => b mod 256 + 256 * acc)%Z 0%Z bytes
                    = fold_right (fun b acc => b mod 256 + 256 * acc)%Z 0%Z bytes')
    as [-> Hrest] by lia.
  f_equal. apply IH; auto.
Qed.

Lemma wrap64_range (z : Z) : (- 2 ^ 63 <= F64.wrap64 z < 2 ^ 63)%Z.
Proof.
  unfold F64.wrap64. pose proof (Z.mod_pos_bound (z + 2 ^ 63) (2 ^ 64) ltac:(lia)). lia.
Qed.

Lemma wrap64_injective (z z' : Z) :
  (0 <= z < 2 ^ 64)%Z -> (0 <= z' < 2 ^ 64)%Z ->
  F64.wrap64 z = F64.wrap64 z' -> z = z'.
Proof.
  unfold F64.wrap64. intros Hz Hz' H.
  assert (E : ((z + 2 ^ 63) mod 2 ^ 64 = (z' + 2 ^ 63) mod 2 ^ 64)%Z) by lia.
  destruct (Z_lt_le_dec z (2 ^ 63)), (Z_lt_le_dec z' (2 ^ 63)).
  - rewrite !Z.mod_small in E by lia. lia.
  - rewrite (Z.mod_small (z + 2 ^ 63)) in E by lia.
    replace (z' + 2 ^ 63)%Z with (z' - 2 ^ 63 + 1 * 2 ^ 64)%Z in E by lia.
    rewrite Z.mod_add, Z.mod_small in E by lia. lia.
  - rewrite (Z.mod_small (z' + 2 ^ 63)) in E by lia.
    replace (z + 2 ^ 63)%Z with (z - 2 ^ 63 + 1 * 2 ^ 64)%Z in E by lia.
    rewrite Z.mod_add, Z.mod_small in E by lia. lia.
  - replace (z + 2 ^ 63)%Z with (z - 2 ^ 63 + 1 * 2 ^ 64)%Z in E by lia.
    replace (z' + 2 ^ 63)%Z with (z' - 2 ^ 63 + 1 * 2 ^ 64)%Z in E by lia.
    rewrite !Z.mod_add, !Z.mod_small in E by lia. lia.
Qed.

(** The seed that [generateCryptoSeed] makes from the eight bytes of the
    secure source lies in the range of [int64] and determines the bytes:
    two different reads never give the same seed. *)
Theorem generateCryptoSeed_injective (env env' : Env error) (bytes bytes' : list Z) :
  cryptoRead error env = inr bytes -> cryptoRead error env' = inr bytes' ->
  length bytes = 8%nat -> length bytes' = 8%nat ->
  Forall isByte bytes -> Forall isByte bytes' ->
  snd (generateCryptoSeed error env) = None /\
  (- 2 ^ 63 <= fst (generateCryptoSeed error env) < 2 ^ 63)%Z /\
  (fst (generateCryptoSeed error env) = fst (generateCryptoSeed error env') ->
   bytes = bytes').
Proof.
  intros He He' Hl Hl' Hb Hb'. unfold generateCryptoSeed. rewrite He, He'. simpl.
  split; [reflexivity|]. split; [apply wrap64_range|].
  unfold LittleEndian_Uint64.
  rewrite !firstn_all2 by lia.
  intros H. apply wrap64_injective in H.
  - apply littleEndian_injective; auto. congruence.
  - pose proof (littleEndian_bounds bytes) as B. rewrite Hl in B.
    change (256 ^ Z.of_nat 8)%Z with (2 ^ 64)%Z in B. exact B.
  - pose proof (littleEndian_bounds bytes') as B. rewrite Hl' in B.
    change (256 ^ Z.of_nat 8)%Z with (2 ^ 64)%Z in B. exact B.
Qed.

End SeedProperties.

Section MismatchProperties.

Context {math : MathLib}.

Local Open Scope float_scope.

Lemma snrLoop_short (original : list float) :
  forall (noisy : list float) (signalPower noisePower : float),
    (length noisy < length original)%nat ->
    snrLoop original noisy signalPower noisePower = Abort PanicIndexOutOfRange.
Proof.
  induction original as [|o original IH]; intros [|c noisy] sp np H; simpl in *;
    try lia; [reflexivity|].
  apply IH. lia.
Qed.

Lemma snrLoop_firstn (original : list float) :
  forall (noisy : list float) (signalPower noisePower : float),
    (length original <= length noisy)%nat ->
    snrLoop original noisy signalPower noisePower
    = snrLoop original (firstn (length original) noisy) signalPower noisePower.
Proof.
  induction original as [|o original IH]; intros [|c noisy] sp np H; simpl in *;
    try lia; try reflexivity.
  apply IH. lia.
Qed.

(** [calculateSNR] and [computeInputSNR] on signals of different lengths.
    When the second signal is the shorter one they panic with an index out
    of range; when it is the longer one its surplus samples are ignored:
    the result is that of the second signal cut to the length of the
    first. *)
Theorem calculateSNR_length_mismatch (original noisy : Signal) :
  ((length (Values noisy) < length (Values original))%nat ->
   calculateSNR original noisy = Abort PanicIndexOutOfRange /\
   computeInputSNR original noisy = Abort PanicIndexOutOfRange) /\
  ((length (Values original) <= length (Values noisy))%nat ->
   calculateSNR original noisy =
     calculateSNR original
       {| Time := Time noisy;
          Values := firstn (length (Values original)) (Values noisy) |} /\
   computeInputSNR original noisy =
     computeInputSNR original
       {| Time := Time noisy;
          Values := firstn (length (Values original)) (Values noisy) |}).
Proof.
  split; intros H; unfold calculateSNR, computeInputSNR; cbn [Values].
  - rewrite snrLoop_short by exact H. split; reflexivity.
  - rewrite <- snrLoop_firstn by exact H. split; reflexivity.
Qed.

End MismatchProperties.

Lemma fair_allToFirst : fair allToFirst.
Proof. split; intros l; reflexivity. Qed.

Lemma fair_allToFirstReversed : fair allToFirstReversed.
Proof. split; intros l; symmetry; apply Permutation_rev. Qed.

Lemma fair_oneEach : fair oneEach.
Proof. split; intros l; reflexivity. Qed.

(** Two jobs on two workers: which generator each job runs on, for each of the
    four assignments. *)
Lemma two_jobs (math : MathLib) (rand : RandSource) (amParams fmParams : SignalParams)
      (config : MonteCarloConfig) (o : nat -> nat) (snr0 snr1 : float) (r0 r1 : rng) :
  workerPhase amParams fmParams config o [(0%nat, snr0); (1%nat, snr1)] [r0; r1] =
  match o 0%nat mod 2, o 1%nat mod 2 with
  | 0%nat, 0%nat =>
      '(am0, fm0, r) ← runPoint amParams fmParams config snr0 r0;
      '(am1, fm1, _) ← runPoint amParams fmParams config snr1 r;
      Done ([(0%nat, am0); (1%nat, am1)], [(0%nat, fm0); (1%nat, fm1)])
  | 0%nat, _ =>
      '(am0, fm0, _) ← runPoint amParams fmParams config snr0 r0;
      '(am1, fm1, _) ← runPoint amParams fmParams config snr1 r1;
      Done ([(0%nat, am0); (1%nat, am1)], [(0%nat, fm0); (1%nat, fm1)])
  | _, 0%nat =>
      '(am0, fm0, _) ← runPoint amParams fmParams config snr0 r1;
      '(am1, fm1, _) ← runPoint amParams fmParams config snr1 r0;
      Done ([(0%nat, am0); (1%nat, am1)], [(0%nat, fm0); (1%nat, fm1)])
  | _, _ =>
      '(am0, fm0, r) ← runPoint amParams fmParams config snr0 r1;
      '(am1, fm1, _) ← runPoint amParams fmParams config snr1 r;
      Done ([(0%nat, am0); (1%nat, am1)], [(0%nat, fm0); (1%nat, fm1)])
  end%nat.
Proof.
  cbn [workerPhase length].
  pose proof (Nat.mod_upper_bound (o 0%nat) 2 ltac:(lia)) as H0.
  pose proof (Nat.mod_upper_bound (o 1%nat) 2 ltac:(lia)) as H1.
  destruct (o 0%nat mod 2)%nat as [|[|k0]] eqn:E0; [| |lia];
  destruct (o 1%nat mod 2)%nat as [|[|k1]] eqn:E1; try lia;
  cbn [lookup list_lookup];
  (destruct (runPoint amParams fmParams config snr0 _) as [[[am0 fm0] r]|e]; [|reflexivity]);
  cbn [mbind outcome_bind insert list_insert length];
  rewrite ?E0, ?E1; cbn [lookup list_lookup];
  (destruct (runPoint amParams fmParams config snr1 _) as [[[am1 fm1] r']|e]; reflexivity).
Qed.

(** C1, refuted as stated: for one base seed, trial count and sweep, the
    assignment "both jobs to worker 0" and the assignment "job k to worker k"
    give different arrays.  For every library instance, job 1 runs on worker
    0's generator where job 0 left it in the first run, and on the fresh
    generator of worker 1 (base seed + 1) in the second; on the stand-in
    instances, seed 42, two trials per point and the sweep 0 dB, 10 dB, the
    mean output SNR of the AM entry at 10 dB differs between the two runs. *)
Lemma C1_assignment_changes_results :
  (forall (math : MathLib) (rand : RandSource) (amParams fmParams : SignalParams)
          (seed numIterations : Z) (snr0 snr1 : float),
     let config := twoPoints seed numIterations snr0 snr1 in
     runParallelMonteCarloSimulation amParams fmParams config allToFirst =
       ('(am0, fm0, r) ← runPoint amParams fmParams config snr0
                           (NewSource (F64.wrap64 (seed + 0)));
        '(am1, fm1, _) ← runPoint amParams fmParams config snr1 r;
        Done ([am0; am1], [fm0; fm1])) /\
     runParallelMonteCarloSimulation amParams fmParams config oneEach =
       ('(am0, fm0, _) ← runPoint amParams fmParams config snr0
                           (NewSource (F64.wrap64 (seed + 0)));
        '(am1, fm1, _) ← runPoint amParams fmParams config snr1
                           (NewSource (F64.wrap64 (seed + 1)));
        Done ([am0; am1], [fm0; fm1]))) /\
  fair allToFirst /\ fair oneEach /\
  exists amA fmA amB fmB a b,
    runParallelMonteCarloSimulation (math := Standin.math) (rand := Standin.rand)
      Standin.params Standin.params (twoPoints 42 2 0 10) allToFirst = Done (amA, fmA) /\
    runParallelMonteCarloSimulation (math := Standin.math) (rand := Standin.rand)
      Standin.params Standin.params (twoPoints 42 2 0 10) oneEach = Done (amB, fmB) /\
    amA !! 1%nat = Some a /\ amB !! 1%nat = Some b /\
    (PerformanceResult.OutputSNR_dB a =? PerformanceResult.OutputSNR_dB b)%float = false.
Proof.
  split.
  { intros math rand amParams fmParams seed numIterations snr0 snr1 config.
    unfold runParallelMonteCarloSimulation.
    change (workerRands config)
      with [NewSource (F64.wrap64 (seed + 0)); NewSource (F64.wrap64 (seed + 1))].
    change (jobsOf (MonteCarloConfig.SNRRange config)) with [(0%nat, snr0); (1%nat, snr1)].
    rewrite !two_jobs.
    change (owner allToFirst 0 mod 2)%nat with 0%nat.
    change (owner allToFirst 1 mod 2)%nat with 0%nat.
    change (owner oneEach 0 mod 2)%nat with 0%nat.
    change (owner oneEach 1 mod 2)%nat with 1%nat.
    cbv iota.
    split;
      (destruct (runPoint amParams fmParams config snr0 _) as [[[am0 fm0] r]|e];
       [|reflexivity]);
      cbn [mbind outcome_bind];
      (destruct (runPoint amParams fmParams config snr1 _) as [[[am1 fm1] r']|e];
       reflexivity). }
  split; [exact fair_allToFirst|]. split; [exact fair_oneEach|].
  do 6 eexists.
  split; [vm_compute; reflexivity|]. split; [vm_compute; reflexivity|].
  split; [reflexivity|]. split; [reflexivity|]. vm_compute. reflexivity.
Qed.

Local Open Scope float_scope.

(** C1, an instance: one assignment, results arriving in sending order and
    in reverse order; and, with job k on worker k, the entries at index 1
    are those of the sequential loop on the point 10 dB, started on the
    generator seeded 42 + 1. *)
Lemma C1_parallel_sweep_fixed_assignment_witness :
  runParallelMonteCarloSimulation (math := Standin.math) (rand := Standin.rand)
    Standin.params Standin.params (twoPoints 42 2 0 10) allToFirst =
  runParallelMonteCarloSimulation (math := Standin.math) (rand := Standin.rand)
    Standin.params Standin.params (twoPoints 42 2 0 10) allToFirstReversed /\
  exists amResults fmResults,
    runParallelMonteCarloSimulation (math := Standin.math) (rand := Standin.rand)
      Standin.params Standin.params (twoPoints 42 2 0 10) oneEach
    = Done (amResults, fmResults) /\
    sequentialLoop (math := Standin.math) (rand := Standin.rand)
      Standin.params Standin.params (twoPoints 42 2 0 10) [10]
      (43%Z : rng (RandSource := Standin.rand))
    = Done (entriesAt PerformanceResult.zero amResults [1%nat],
            entriesAt PerformanceResult.zero fmResults [1%nat]).
Proof.
  split.
  - exact (proj1 (C1_parallel_sweep_fixed_assignment (math := Standin.math)
                    (rand := Standin.rand) Standin.params Standin.params
                    (twoPoints 42 2 0 10) allToFirst allToFirstReversed
                    fair_allToFirst fair_allToFirstReversed
                    (fun k => eq_refl))).
  - assert (Hrun : exists amResults fmResults,
               runParallelMonteCarloSimulation (math := Standin.math)
                 (rand := Standin.rand) Standin.params Standin.params
                 (twoPoints 42 2 0 10) oneEach = Done (amResults, fmResults))
      by (vm_compute; do 2 eexists; reflexivity).
    destruct Hrun as (amResults & fmResults & Hrun).
    exists amResults, fmResults. split; [exact Hrun|].
    exact (proj1 (proj2 (proj2 (proj2 (proj2
             (C1_parallel_sweep_fixed_assignment (math := Standin.math)
                (rand := Standin.rand) Standin.params Standin.params
                (twoPoints 42 2 0 10) oneEach oneEach fair_oneEach fair_oneEach
                (fun k => eq_refl))))))
             amResults fmResults 1%Z Hrun ltac:(simpl; lia)).
Defined.

(** C2, refuted as stated, on two counts.  On a 20-sample FM trial at
    10 dB the score the trial returns differs from the score of the aligned
    output (the helper picks a lag of -2 samples there).  And the helper
    does not pick the lag of the largest dot product: aligning ten samples
    of the constant 1 with themselves, lag 0 has the dot product 10 and
    lag -1 has 9, but their means are both 1 and the search keeps the
    first, lag -1, so that the first sample of the result is the fill 0. *)
Lemma C2_fm_trial_is_not_aligned :
  (exists scored aligned r1 r2,
     runTrial (math := Standin.math) (rand := Standin.rand) FM Standin.params 10 42%Z
       = Done (scored, r1) /\
     alignedTrial (math := Standin.math) (rand := Standin.rand) FM Standin.params 10 42%Z
       = Done (aligned, r2) /\
     (scored =? aligned)%float = false) /\
  (bestDelayOf tenOnes tenOnes = (-1)%Z /\
   dotProduct tenOnes tenOnes (-1) = 9 /\
   dotProduct tenOnes tenOnes 0 = 10 /\
   alignSignals tenOnes tenOnes = 0 :: repeat 1 9).
Proof.
  split.
  - do 4 eexists.
    split; [vm_compute; reflexivity|]. split; [vm_compute; reflexivity|].
    vm_compute. reflexivity.
  - repeat split; vm_compute; reflexivity.
Qed.

(** C2, an instance: the 20-sample FM trial at 10 dB. *)
Lemma C2_trial_scores_unaligned_witness :
  exists original modulated demodulated,
    generateBaseband (math := Standin.math) Standin.params = Done original /\
    runTrial (math := Standin.math) (rand := Standin.rand) FM Standin.params 10 42%Z =
      (outputSNR ← calculateSNR (math := Standin.math) original demodulated;
       Done (outputSNR,
             snd (addAWGNWithRNG (math := Standin.math) (rand := Standin.rand)
                    modulated 10 42%Z))) /\
    runTrial (math := Standin.math) (rand := Standin.rand) FM Standin.params 10 42%Z =
      Done (snrOf (math := Standin.math) (Values original) (Values demodulated),
            snd (addAWGNWithRNG (math := Standin.math) (rand := Standin.rand)
                   modulated 10 42%Z)).
Proof.
  do 3 eexists. split; [vm_compute; reflexivity|].
  refine (let H := C2_trial_scores_unaligned (math := Standin.math) (rand := Standin.rand)
                     FM Standin.params 10 42%Z _ _ _ (or_intror eq_refl) _ _ _ in
          conj (proj1 H) (proj1 (proj2 H))).
  - vm_compute; reflexivity.
  - vm_compute; reflexivity.
  - vm_compute; reflexivity.
Defined.

(** C5, refuted as stated, on two counts.  At 10 Hz the timestamp of sample
    3 is float64(3) * (1/10) = 0.30000000000000004, not 3/10; and with a
    duration of -0.1 s at 8 kHz every generator panics ([make] with length
    -800) where a zero-length signal is claimed. *)
Lemma C5_timestamps_and_negative_duration :
  (forall math : MathLib, exists s,
     generateBaseband tenHertz = Done s /\
     (at_ (Time s) 3%Z =? 3 / 10) = false /\
     at_ (Time s) 3%Z = 0x1.3333333333334p-2 /\
     3 / 10 = 0x1.3333333333333p-2) /\
  (forall math : MathLib,
     generateBaseband negativeDuration = Abort PanicMakesliceLen /\
     generateCarrier negativeDuration = Abort PanicMakesliceLen /\
     generateAM negativeDuration = Abort PanicMakesliceLen /\
     generateFM negativeDuration = Abort PanicMakesliceLen).
Proof.
  split.
  - intros math. eexists. split; [reflexivity|]. repeat split.
  - intros math. repeat split.
Qed.

(** C5, an instance: 8 kHz for 0.1 s gives 800 samples. *)
Lemma C5_generators_sample_count_witness :
  F64.floor (8000 * 0.1) = Some 800%Z /\
  exists s, generateBaseband (math := Standin.math) testParams = Done s /\
            sampled testParams 800%Z s.
Proof.
  pose proof (C5_generators_sample_count (math := Standin.math) testParams 800%Z
                eq_refl eq_refl) as (Hfloor & _ & Hbase & _).
  exact (conj Hfloor Hbase).
Defined.

(** C7, an instance: two signals of two samples. *)
Lemma C7_calculateSNR_spec_witness :
  calculateSNR (math := Standin.math)
    {| Time := [0; 1]; Values := [1; 2] |} {| Time := [0; 1]; Values := [1; 2.5] |}
  = Done (snrOf (math := Standin.math) [1; 2] [1; 2.5])%float.
Proof.
  exact (proj1 (C7_calculateSNR_spec (math := Standin.math)
                  {| Time := [0; 1]; Values := [1; 2] |}
                  {| Time := [0; 1]; Values := [1; 2.5] |} eq_refl)).
Defined.

(** C8, an instance: three FM trials at 10 dB. *)
Lemma C8_aggregator_spec_witness :
  exists ms r' result,
    runSingleSNRSimulation (math := Standin.math) (rand := Standin.rand)
      FM Standin.params 10 3%Z 42%Z = Done (result, r') /\
    runsOf (math := Standin.math) (rand := Standin.rand) FM Standin.params 10 42%Z ms r' /\
    Z.of_nat (length ms) = 3%Z.
Proof.
  destruct (C8_aggregator_spec (math := Standin.math) (rand := Standin.rand)
              FM Standin.params 10 3%Z _ 42%Z (or_intror eq_refl) eq_refl
              ltac:(discriminate) ltac:(lia))
    as (ms & r' & result & Hrun & Hruns & Hlen & _).
  exact (ex_intro _ ms (ex_intro _ r' (ex_intro _ result (conj Hrun (conj Hruns Hlen))))).
Defined.

(** C10, refuted as stated: a NaN input sample makes the output sample NaN,
    which is not >= 0. *)
Lemma C10_nan_input_nan_output :
  demodulateAM {| Time := [0%float]; Values := [nan] |}
    = {| Time := [0%float]; Values := [nan] |} /\
  (0 <=? nan)%float = false.
Proof. split; reflexivity. Qed.

(** C10, an instance: three samples, none NaN. *)
Lemma C10_demodulateAM_nonneg_witness :
  Forall (fun y => (0 <=? y)%float = true)
         (Values (demodulateAM {| Time := [0; 1; 2]; Values := [1; -2; 0.5] |}))%float.
Proof.
  apply C10_demodulateAM_nonneg. cbn [Values].
  repeat (constructor; [reflexivity|]). constructor.
Defined.

(** The FM demodulator on a two-sample input. *)
Lemma demodulateFM_nonempty_spec_witness :
  exists out, demodulateFM {| Time := [0; 1]; Values := [1; 2] |}%float Standin.params
              = Done out /\ length (Values out) = 2%nat.
Proof.
  destruct (demodulateFM_nonempty_spec {| Time := [0; 1]; Values := [1; 2] |}%float
              Standin.params ltac:(discriminate)) as (u & Hd & _).
  exact (ex_intro _ _ (conj Hd eq_refl)).
Defined.

(** The FM generator on the zero-duration test parameters. *)
Lemma zero_duration_empty_witness :
  generateFM (math := Standin.math) zeroDurationParams = Done {| Time := []; Values := [] |}.
Proof.
  exact (proj2 (proj2 (proj2 (zero_duration_empty (math := Standin.math)
                                zeroDurationParams eq_refl eq_refl)))).
Defined.

(** A parallel run with a generated seed completes. *)
Lemma run_sweep_completes_witness :
  exists amResults fmResults stats,
    OptimizedMonteCarloSimulation (math := Standin.math) (dflt := Standin.dflt) string
      Standin.params Standin.params parallelConfig sampleEnv
    = Done (amResults, fmResults, stats, None).
Proof.
  destruct (run_sweep_completes (math := Standin.math) (dflt := Standin.dflt) string
              Standin.params Standin.params parallelConfig sampleEnv _ _
              (or_intror (ex_intro _ _ eq_refl)) eq_refl eq_refl
              ltac:(discriminate) ltac:(discriminate))
    as (a & f & st & Hrun & _).
  exact (ex_intro _ a (ex_intro _ f (ex_intro _ st Hrun))).
Defined.

(** * Instances of the further properties *)

(** The parallel sweep without workers, on the parameters of the
    robustness test (on which every trial would panic). *)
Lemma parallel_sweep_without_workers_witness :
  runParallelMonteCarloSimulation (math := Standin.math) (rand := Standin.rand)
    invalidParams invalidParams withoutWorkers allToFirst
  = Done ([PerformanceResult.zero; PerformanceResult.zero],
          [PerformanceResult.zero; PerformanceResult.zero]).
Proof.
  exact (parallel_sweep_without_workers (math := Standin.math) (rand := Standin.rand)
           invalidParams invalidParams withoutWorkers allToFirst
           fair_allToFirst ltac:(simpl; lia)).
Defined.

(** A Phase 5 run of two SNR points on two workers. *)
Lemma phase5_results_pass_stddev_check_witness :
  exists results g',
    RunPhase5MonteCarloSimulation (math := Standin.math) (rand := Standin.rand)
      (dflt := Standin.dflt) string Standin.params Standin.params
      (twoPoints 42 2 0 10) sampleMeter allToFirst 7%Z = Done (results, None, g') /\
    Forall (fun res => (PerformanceResult.StdDev res <? 0) = false)
           (Phase5MonteCarloResults.AMResults results
            ++ Phase5MonteCarloResults.FMResults results).
Proof.
  destruct (RunPhase5MonteCarloSimulation (math := Standin.math) (rand := Standin.rand)
              (dflt := Standin.dflt) string Standin.params Standin.params
              (twoPoints 42 2 0 10) sampleMeter allToFirst 7%Z)
    as [[[results err] g']|e] eqn:Hrun; [|vm_compute in Hrun; discriminate].
  destruct (phase5_results_pass_stddev_check (math := Standin.math) (rand := Standin.rand)
              (dflt := Standin.dflt) string _ _ _ _ _ _ _ _ _ fair_allToFirst Hrun)
    as (-> & Hall & _).
  exact (ex_intro _ results (ex_intro _ g' (conj eq_refl Hall))).
Defined.

(** The reproducibility test with the seed 42 and two trials per point:
    on a default generator that the seed resets, and on one that the seed
    leaves as it is, the second run starting from another state. *)
Lemma ReproducibilityTest_verdict_witness :
  ReproducibilityTest (math := Standin.math) (dflt := Standin.dflt) string
    Standin.params 42 2 sampleEnv sampleEnv = Done None /\
  ReproducibilityTest (math := Standin.math) (dflt := Standin.unseeded) string
    Standin.params 42 2 (unseededEnv 7) (unseededEnv 11)
  = Done (Some (AMResultsDiffer 0)).
Proof.
  split.
  - pose proof (ReproducibilityTest_verdict (math := Standin.math) (dflt := Standin.dflt)
                  string Standin.params 42 2 sampleEnv sampleEnv) as H.
    vm_compute in H. destruct H as (verdict & H & _).
    injection H as H. subst verdict. vm_compute. reflexivity.
  - pose proof (ReproducibilityTest_verdict (math := Standin.math)
                  (dflt := Standin.unseeded) string Standin.params 42 2
                  (unseededEnv 7) (unseededEnv 11)) as H.
    vm_compute in H. destruct H as (verdict & H & _).
    injection H as H. subst verdict. vm_compute. reflexivity.
Defined.

(** The first driver with a trial count of zero and with the least [int]
    as the count, on the parameters of the robustness test. *)
Lemma monteCarloSimulationSeparate_no_trials_witness :
  monteCarloSimulationSeparate (math := Standin.math) (dflt := Standin.dflt)
    invalidParams invalidParams [0; 10] 0 7%Z = Done ([nan; nan], [nan; nan], 7%Z) /\
  monteCarloSimulationSeparate (math := Standin.math) (dflt := Standin.dflt)
    invalidParams invalidParams [0; 10] (- 2 ^ 63) 7%Z
    = Done ([neg_zero; neg_zero], [neg_zero; neg_zero], 7%Z).
Proof.
  split.
  - exact (proj1 (monteCarloSimulationSeparate_no_trials (math := Standin.math)
                    (dflt := Standin.dflt) invalidParams invalidParams [0; 10] 0 7%Z
                    ltac:(lia))).
  - exact (proj1 (monteCarloSimulationSeparate_no_trials (math := Standin.math)
                    (dflt := Standin.dflt) invalidParams invalidParams [0; 10]
                    (- 2 ^ 63) 7%Z ltac:(lia))).
Defined.

(** The first driver on the twenty-sample parameters. *)
Lemma monteCarloSimulationSeparate_completes_witness :
  exists amSNRs fmSNRs g',
    monteCarloSimulationSeparate (math := Standin.math) (dflt := Standin.dflt)
      Standin.params Standin.params [0; 10] 2 7%Z = Done (amSNRs, fmSNRs, g') /\
    length amSNRs = 2%nat /\ length fmSNRs = 2%nat.
Proof.
  exact (proj1 (monteCarloSimulationSeparate_completes (math := Standin.math)
                  (dflt := Standin.dflt) Standin.params Standin.params [0; 10] 2 _ _ 7%Z
                  eq_refl eq_refl ltac:(discriminate))).
Defined.

(** An AM series of three trials at 10 dB. *)
Lemma runMonteCarloTrial_counted_mean_witness :
  exists ms g',
    runMonteCarloTrial (math := Standin.math) (dflt := Standin.dflt)
      Standin.params 10 3 7%Z = Done (countedMean ms, g').
Proof.
  destruct (runMonteCarloTrial_counted_mean (math := Standin.math) (dflt := Standin.dflt)
              Standin.params 10 3 _ 7%Z eq_refl) as (ms & g' & _ & H & _).
  exact (ex_intro _ ms (ex_intro _ g' H)).
Defined.

(** An FM series of three trials at 10 dB. *)
Lemma runMonteCarloTrialFM_counted_mean_witness :
  exists ms g',
    length ms = 3%nat /\
    runMonteCarloTrialFM (math := Standin.math) (dflt := Standin.dflt)
      Standin.params 10 3 7%Z = Done (countedMean ms, g').
Proof.
  destruct (runMonteCarloTrialFM_counted_mean (math := Standin.math) (dflt := Standin.dflt)
              Standin.params 10 3 _ 7%Z eq_refl ltac:(discriminate))
    as (ms & g' & _ & Hlen & H).
  exact (ex_intro _ ms (ex_intro _ g' (conj Hlen H))).
Defined.

(** The autocorrelation of three samples at the lag -1. *)
Lemma calculateAutocorrelation_edges_witness :
  calculateAutocorrelation [1; 2; 3] (-1) = Abort PanicIndexOutOfRange.
Proof.
  exact (proj1 (proj2 (calculateAutocorrelation_edges [1; 2; 3] (-1)
                         ltac:(simpl; lia))) ltac:(lia)).
Defined.

(** Two finite samples scored against themselves. *)
Lemma calculateSNR_identical_witness :
  calculateSNR (math := Standin.math) twoSamples twoSamples = Done infinity.
Proof.
  exact (proj1 (calculateSNR_identical (math := Standin.math) twoSamples
                  ltac:(discriminate) ltac:(simpl; lia)
                  ltac:(repeat constructor))).
Defined.

(** A sequential sweep of two points and its first point alone. *)
Lemma sequential_sweep_prefix_witness :
  exists ams fms,
    runSequentialMonteCarloSimulation (math := Standin.math) (rand := Standin.rand)
      Standin.params Standin.params (withSNRRange (twoPoints 42 2 0 10) [0; 10])
    = Done (ams, fms) /\
    runSequentialMonteCarloSimulation (math := Standin.math) (rand := Standin.rand)
      Standin.params Standin.params (withSNRRange (twoPoints 42 2 0 10) [0])
    = Done (take 1 ams, take 1 fms).
Proof.
  destruct (runSequentialMonteCarloSimulation (math := Standin.math) (rand := Standin.rand)
              Standin.params Standin.params (withSNRRange (twoPoints 42 2 0 10) [0; 10]))
    as [[ams fms]|e] eqn:Hrun; [|vm_compute in Hrun; discriminate].
  exact (ex_intro _ ams (ex_intro _ fms (conj eq_refl
           (sequential_sweep_prefix (math := Standin.math) (rand := Standin.rand)
              Standin.params Standin.params (twoPoints 42 2 0 10) [0] [10] ams fms Hrun)))).
Defined.

(** Ten samples at 1 kHz: the window is 10 samples long. *)
Lemma estimateInstantaneousFrequency_edges_witness :
  estimateInstantaneousFrequency tenOnes 1000 = Abort PanicIndexOutOfRange.
Proof.
  exact (proj1 (estimateInstantaneousFrequency_edges tenOnes 1000 10 eq_refl)
           ltac:(simpl; lia)).
Defined.

(** Two reads of the secure source that differ in one byte. *)
Lemma generateCryptoSeed_injective_witness :
  fst (generateCryptoSeed (dflt := Standin.dflt) string sampleEnv) = 578437695752307201%Z /\
  (- 2 ^ 63 <= fst (generateCryptoSeed (dflt := Standin.dflt) string sampleEnv) < 2 ^ 63)%Z.
Proof.
  split; [reflexivity|].
  exact (proj1 (proj2 (generateCryptoSeed_injective (dflt := Standin.dflt) string
                         sampleEnv sampleEnv _ _ eq_refl eq_refl eq_refl eq_refl
                         ltac:(repeat constructor; unfold isByte; lia)
                         ltac:(repeat constructor; unfold isByte; lia)))).
Defined.
